(** * The [useSSEChat] hook of the Gavigans chat widget

    A shallow embedding of [frontend/src/hooks/useSSEChat.js]: the identity
    resolver, the session negotiator, the stream-event classifier, the
    stream reduction of one chat turn and the hook's message list, with the
    properties the specification states about them.

    JavaScript data is kept as the engine has it: a string is a sequence of
    UTF-16 code units, a value read from the network is an arbitrary JSON
    value, a property read on [null] or [undefined] throws. *)

From Stdlib Require Import ZArith List Bool Lia String Ascii.
From stdpp Require Import base option list gmap.
Import ListNotations.
Local Open Scope Z_scope.
#[local] Set Warnings "-register-all".

(** ** JavaScript strings *)

Module JS.

(** A string is its list of UTF-16 code units. *)
Abbreviation jsstring := (list Z).

(** The code units of an ASCII literal. *)
Fixpoint jstr (s : string) : jsstring :=
  match s with
  | EmptyString => []
  | String a r => Z.of_N (N_of_ascii a) :: jstr r
  end.
Arguments jstr : simpl never.

(** WhiteSpace and LineTerminator code units, the ones [String.prototype.trim]
    removes. *)
Definition is_ws (c : Z) : bool :=
  (c =? 9) || (c =? 10) || (c =? 11) || (c =? 12) || (c =? 13) || (c =? 32)
  || (c =? 160) || (c =? 5760) || ((8192 <=? c) && (c <=? 8202))
  || (c =? 8232) || (c =? 8233) || (c =? 8239) || (c =? 8287)
  || (c =? 12288) || (c =? 65279).

Fixpoint trimStart (s : jsstring) : jsstring :=
  match s with
  | [] => []
  | c :: r => if is_ws c then trimStart r else s
  end.

Definition trimEnd (s : jsstring) : jsstring := rev (trimStart (rev s)).

Definition trim (s : jsstring) : jsstring := trimEnd (trimStart s).

Definition str_eqb (s t : jsstring) : bool := bool_decide (s = t).

(** [s.startsWith(p)] *)
Fixpoint startsWith (s p : jsstring) {struct p} : bool :=
  match p, s with
  | [], _ => true
  | _ :: _, [] => false
  | a :: p', b :: s' => (a =? b) && startsWith s' p'
  end.

(** [s.slice(n)] for [0 <= n]. *)
Definition slice_from (n : nat) (s : jsstring) : jsstring := drop n s.

(** [s.split(sep)] for a separator of one code unit; the result is never
    empty: [''.split(sep)] is [['']]. *)
Fixpoint split (sep : Z) (s : jsstring) : list jsstring :=
  match s with
  | [] => [[]]
  | c :: r =>
      if c =? sep then [] :: split sep r
      else match split sep r with
           | x :: xs => (c :: x) :: xs
           | [] => [[c]]
           end
  end.

(** [a.join(sep)] on strings. *)
Fixpoint join (sep : jsstring) (l : list jsstring) : jsstring :=
  match l with
  | [] => []
  | [x] => x
  | x :: r => x ++ sep ++ join sep r
  end.

(** ** JavaScript values

    What [JSON.parse] returns, plus [undefined]. Numbers: the hook only
    copies them and tests them for truthiness; integers stand for them. *)

Inductive value : Type :=
| VUndef
| VNull
| VBool (b : bool)
| VNum (n : Z)
| VStr (s : jsstring)
| VArr (l : list value)
| VObj (kvs : list (jsstring * value)).

(** ToBoolean *)
Definition truthy (v : value) : bool :=
  match v with
  | VUndef | VNull => false
  | VBool b => b
  | VNum n => negb (n =? 0)
  | VStr s => match s with [] => false | _ => true end
  | VArr _ | VObj _ => true
  end.

Definition nullish (v : value) : bool :=
  match v with VUndef | VNull => true | _ => false end.

Definition isArray (v : value) : bool :=
  match v with VArr _ => true | _ => false end.

(** The elements of an array, as spread [...v] pushes them. *)
Definition elements (v : value) : list value :=
  match v with VArr l => l | _ => [] end.

(** Thrown values: an [Error] with its [name] and [message]. *)
Record error := Error { err_name : jsstring; err_message : jsstring }.

Inductive res (A : Type) : Type :=
| Ok (a : A)
| Throw (e : error).
Arguments Ok {A} a.
Arguments Throw {A} e.

#[global] Instance res_ret : MRet res := fun _ a => Ok a.
#[global] Instance res_bind : MBind res :=
  fun _ _ f m => match m with Ok a => f a | Throw e => Throw e end.

(** The message of an engine's TypeError is engine-specific; the model keeps
    what was being done. *)
Definition TypeError (what : string) : error :=
  Error (jstr "TypeError") (jstr what).

Fixpoint own (k : jsstring) (kvs : list (jsstring * value)) : value :=
  match kvs with
  | [] => VUndef
  | (k', v) :: r => if str_eqb k' k then v else own k r
  end.

(** [v.k] for a [v] that is neither [null] nor [undefined], and one of the
    property names the hook reads: an own property of an object, [length]
    of a string or an array, [undefined] elsewhere (none of the other names
    is inherited from a prototype). *)
Definition prop (v : value) (k : jsstring) : value :=
  match v with
  | VObj kvs => own k kvs
  | VArr l => if str_eqb k (jstr "length") then VNum (Z.of_nat (length l)) else VUndef
  | VStr s => if str_eqb k (jstr "length") then VNum (Z.of_nat (length s)) else VUndef
  | _ => VUndef
  end.

(** [v.k] *)
Definition get (v : value) (k : jsstring) : res value :=
  if nullish v then Throw (TypeError "cannot read properties of null or undefined")
  else Ok (prop v k).

(** [v?.k] *)
Definition get_opt (v : value) (k : jsstring) : value :=
  if nullish v then VUndef else prop v k.

(** [v.trim()]: only strings have the method. *)
Definition call_trim (v : value) : res jsstring :=
  match v with
  | VStr s => Ok (trim s)
  | VUndef | VNull => Throw (TypeError "cannot read properties of null or undefined")
  | _ => Throw (TypeError "trim is not a function")
  end.

Definition is_high_surrogate (c : Z) : bool := (55296 <=? c) && (c <=? 56319).
Definition is_low_surrogate (c : Z) : bool := (56320 <=? c) && (c <=? 57343).

(** The code points of a string, as [for ... of] visits them. *)
Fixpoint code_points (s : jsstring) : list jsstring :=
  match s with
  | [] => []
  | c :: r =>
      match r with
      | d :: r' =>
          if is_high_surrogate c && is_low_surrogate d
          then [c; d] :: code_points r'
          else [c] :: code_points r
      | [] => [[c]]
      end
  end.

(** The elements [for (const x of v)] visits; only arrays and strings are
    iterable among JSON values. *)
Definition iterate (v : value) : res (list value) :=
  match v with
  | VArr l => Ok l
  | VStr s => Ok (map VStr (code_points s))
  | _ => Throw (TypeError "value is not iterable")
  end.

(** [a.filter(f)] where [f] may throw. *)
Fixpoint filterM {A} (f : A -> res bool) (l : list A) : res (list A) :=
  match l with
  | [] => Ok []
  | x :: r =>
      b ← f x;
      r' ← filterM f r;
      mret (if b : bool then x :: r' else r')
  end.

Fixpoint mapM {A B} (f : A -> res B) (l : list A) : res (list B) :=
  match l with
  | [] => Ok []
  | x :: r =>
      y ← f x;
      r' ← mapM f r;
      mret (y :: r')
  end.

End JS.
Import JS.

(** ** Stream events *)

Inductive EventType :=
| FUNCTION_CALL | FUNCTION_RESPONSE | TEXT | TEXT_PARTIAL | ERROR | THINKING.

(** The object [parseEvent] returns: its [type] and the fields that go with
    it. *)
Inductive parsed : Type :=
| FunctionCall (name args raw : value)
| FunctionResponse (name response raw : value)
| Text (partial : bool) (text : jsstring) (raw : value)
| Thinking (raw : value).

Definition type_of (p : parsed) : EventType :=
  match p with
  | FunctionCall _ _ _ => FUNCTION_CALL
  | FunctionResponse _ _ _ => FUNCTION_RESPONSE
  | Text true _ _ => TEXT_PARTIAL
  | Text false _ _ => TEXT
  | Thinking _ => THINKING
  end.

(** [event?.content?.parts ?? []] *)
Definition parts_of (event : value) : value :=
  let parts := get_opt (get_opt event (jstr "content")) (jstr "parts") in
  if nullish parts then VArr [] else parts.

(** The body of the loop of [parseEvent], over the parts still to visit. *)
Fixpoint parse_parts (event : value) (parts : list value) : res parsed :=
  match parts with
  | [] => Ok (Thinking event)
  | part :: rest =>
      fc ← get part (jstr "functionCall");
      if truthy fc
      then Ok (FunctionCall (prop fc (jstr "name")) (prop fc (jstr "args")) event)
      else
        fr ← get part (jstr "functionResponse");
        if truthy fr
        then Ok (FunctionResponse (prop fr (jstr "name")) (prop fr (jstr "response")) event)
        else
          t ← get part (jstr "text");
          match t with
          | VStr s =>
              if truthy (VStr (trim s))
              then partial ← get event (jstr "partial");
                   Ok (Text (truthy partial) (trim s) event)
              else parse_parts event rest
          | _ => parse_parts event rest
          end
  end.

Definition parseEvent (event : value) : res parsed :=
  parts ← iterate (parts_of event);
  parse_parts event parts.

(** ** Identity resolver *)

(** ToInt32: the signed 32-bit integer a bit operation works on. *)
Definition ToInt32 (x : Z) : Z :=
  let m := x mod 4294967296 in
  if 2147483648 <=? m then m - 4294967296 else m.

(** One round of the loop of [hashEmail]:
    [hash = ((hash << 5) - hash) + char; hash = hash & hash]. *)
Definition hash_step (hash char : Z) : Z :=
  let hash := (ToInt32 (Z.shiftl (ToInt32 hash) 5) - hash) + char in
  Z.land (ToInt32 hash) (ToInt32 hash).

Definition digit36 (d : Z) : Z := if d <? 10 then 48 + d else 87 + d.

(** The digits of [n] in the given radix, most significant first. *)
Fixpoint digits (radix : Z) (fuel : nat) (n : Z) (acc : jsstring) : jsstring :=
  match fuel with
  | O => acc
  | S f =>
      let acc' := digit36 (n mod radix) :: acc in
      if n / radix =? 0 then acc' else digits radix f (n / radix) acc'
  end.

(** [n.toString(radix)] for an integer [n] and [2 <= radix <= 36]. *)
Definition toStringRadix (radix n : Z) : jsstring :=
  if n <? 0 then 45 :: digits radix (S (Z.to_nat (Z.log2 (- n)))) (- n) []
  else digits radix (S (Z.to_nat (Z.log2 n))) n [].

Definition hashEmail (email : jsstring) : jsstring :=
  let hash := fold_left hash_step email 0 in
  jstr "user_" ++ toStringRadix 36 (Z.abs hash).

Definition STORAGE_KEY_USER_ID : jsstring := jstr "gavigans_chat_user_id".
Definition STORAGE_KEY_SESSION_ID : jsstring := jstr "gavigans_chat_session_id".

(** [localStorage.getItem(k)] *)
Definition getItem (k : jsstring) (ls : gmap jsstring jsstring) : value :=
  match ls !! k with
  | Some s => VStr s
  | None => VNull
  end.

(** Launch parameters: the pairs of [window.location.search], in order. *)
Definition params_get (params : list (jsstring * jsstring)) (k : jsstring) : value :=
  match List.find (fun kv => str_eqb (fst kv) k) params with
  | Some kv => VStr (snd kv)
  | None => VNull
  end.

(** [randomId(prefix)]; [rnd] is what
    [Math.random().toString(36).slice(2, 8)] yields. *)
Definition randomId (prefix rnd : jsstring) : jsstring :=
  prefix ++ jstr "_" ++ rnd.

(** [getPersistentUserId]; a string is truthy when it is not empty. *)
Definition getPersistentUserId (params : list (jsstring * jsstring))
    (rnd : jsstring) (ls : gmap jsstring jsstring)
  : jsstring * gmap jsstring jsstring :=
  let customerEmail := params_get params (jstr "customer_email") in
  match customerEmail with
  | VStr ((_ :: _) as email) =>
      let userId := hashEmail email in
      (userId, <[STORAGE_KEY_USER_ID := userId]> ls)
  | _ =>
      let storedUserId := getItem STORAGE_KEY_USER_ID ls in
      match storedUserId with
      | VStr ((_ :: _) as stored) => (stored, ls)
      | _ =>
          let newUserId := randomId (jstr "user") rnd in
          (newUserId, <[STORAGE_KEY_USER_ID := newUserId]> ls)
      end
  end.

Definition getStoredSessionId (ls : gmap jsstring jsstring) : value :=
  getItem STORAGE_KEY_SESSION_ID ls.

(** [String(v)], as [localStorage.setItem] and template literals coerce;
    for a number, an integer that JavaScript holds exactly and prints in
    full (below [2^53] in magnitude). *)
Fixpoint ToString (v : value) : jsstring :=
  match v with
  | VUndef => jstr "undefined"
  | VNull => jstr "null"
  | VBool true => jstr "true"
  | VBool false => jstr "false"
  | VNum n => toStringRadix 10 n
  | VStr s => s
  | VArr l => join (jstr ",") (map (fun x => if nullish x then [] else ToString x) l)
  | VObj _ => jstr "[object Object]"
  end.

(** ** Messages and the state of the hook *)

Inductive Role := user | agent | system.

(** A chat message; an absent field is [undefined] or [None]. *)
Record message := Message {
  role : Role;
  text : value;
  author : value;
  timestamp : value;
  products : option (list value);
  toolCalls : option (list parsed);
  events : option (list parsed) }.

Definition plain (r : Role) (t : value) : message :=
  Message r t VUndef VUndef None None None.

Definition WELCOME_MESSAGE : message :=
  plain system
    (VStr (jstr "Welcome to Gavigans! " ++ [55358; 56598] ++ [10; 10]
           ++ jstr "I'm your AI assistant powered by AiPRL Assist." ++ [10]
           ++ jstr "How can I help you today?")).

Inductive Status := idle | loading | streaming | human_mode | recovering.

Definition Status_eqb (a b : Status) : bool :=
  match a, b with
  | idle, idle | loading, loading | streaming, streaming
  | human_mode, human_mode | recovering, recovering => true
  | _, _ => false
  end.

(** An entry of the live-activity feed: [{...parsed, id, timestamp}]. *)
Record live_event := LiveEvent {
  le_event : parsed;
  le_id : Z;
  le_timestamp : Z }.

(** What the hook asked of the network, oldest first. *)
Inductive request :=
| GetSession (userId : jsstring) (sessionId : value)
| PostSession (userId : jsstring) (state : value)
| PostRunSSE (userId : jsstring) (sessionId : value) (text : jsstring)
| Listen (sessionId : value) (userId : jsstring).

(** The React state, the refs and what the hook sees of the browser: the
    storage, the requests it has issued (oldest first) and the number of
    times it has read the clock. [abortControllerRef] names the task whose
    controller it holds. *)
Record hook := Hook {
  messages : list message;
  liveEvents : list live_event;
  status : Status;
  streamingText : jsstring;
  aiPaused : value;
  isRecovered : bool;
  userIdRef : jsstring;
  sessionIdRef : value;
  sessionCreatedRef : bool;
  sessionRecoveryAttempted : bool;
  abortControllerRef : option nat;
  listenEventSourceRef : option (value * jsstring);
  localStorage : gmap jsstring jsstring;
  requests : list request;
  clock_reads : nat }.

Definition setMessages (f : list message -> list message) (h : hook) : hook :=
  let 'Hook m le st tx ap ir u s c a ab l ls rq ck := h in
  Hook (f m) le st tx ap ir u s c a ab l ls rq ck.
Definition setLiveEvents (f : list live_event -> list live_event) (h : hook) : hook :=
  let 'Hook m le st tx ap ir u s c a ab l ls rq ck := h in
  Hook m (f le) st tx ap ir u s c a ab l ls rq ck.
Definition setStatus (f : Status -> Status) (h : hook) : hook :=
  let 'Hook m le st tx ap ir u s c a ab l ls rq ck := h in
  Hook m le (f st) tx ap ir u s c a ab l ls rq ck.
Definition setStreamingText (x : jsstring) (h : hook) : hook :=
  let 'Hook m le st tx ap ir u s c a ab l ls rq ck := h in
  Hook m le st x ap ir u s c a ab l ls rq ck.
Definition setAiPaused (x : value) (h : hook) : hook :=
  let 'Hook m le st tx ap ir u s c a ab l ls rq ck := h in
  Hook m le st tx x ir u s c a ab l ls rq ck.
Definition setIsRecovered (x : bool) (h : hook) : hook :=
  let 'Hook m le st tx ap ir u s c a ab l ls rq ck := h in
  Hook m le st tx ap x u s c a ab l ls rq ck.
Definition set_sessionIdRef (x : value) (h : hook) : hook :=
  let 'Hook m le st tx ap ir u s c a ab l ls rq ck := h in
  Hook m le st tx ap ir u x c a ab l ls rq ck.
Definition set_sessionCreatedRef (x : bool) (h : hook) : hook :=
  let 'Hook m le st tx ap ir u s c a ab l ls rq ck := h in
  Hook m le st tx ap ir u s x a ab l ls rq ck.
Definition set_sessionRecoveryAttempted (x : bool) (h : hook) : hook :=
  let 'Hook m le st tx ap ir u s c a ab l ls rq ck := h in
  Hook m le st tx ap ir u s c x ab l ls rq ck.
Definition set_abortControllerRef (x : option nat) (h : hook) : hook :=
  let 'Hook m le st tx ap ir u s c a ab l ls rq ck := h in
  Hook m le st tx ap ir u s c a x l ls rq ck.
Definition set_listenEventSourceRef (x : option (value * jsstring)) (h : hook) : hook :=
  let 'Hook m le st tx ap ir u s c a ab l ls rq ck := h in
  Hook m le st tx ap ir u s c a ab x ls rq ck.
Definition set_localStorage (f : gmap jsstring jsstring -> gmap jsstring jsstring)
    (h : hook) : hook :=
  let 'Hook m le st tx ap ir u s c a ab l ls rq ck := h in
  Hook m le st tx ap ir u s c a ab l (f ls) rq ck.
Definition send_request (r : request) (h : hook) : hook :=
  let 'Hook m le st tx ap ir u s c a ab l ls rq ck := h in
  Hook m le st tx ap ir u s c a ab l ls (rq ++ [r]) ck.
Definition tick (h : hook) : hook :=
  let 'Hook m le st tx ap ir u s c a ab l ls rq ck := h in
  Hook m le st tx ap ir u s c a ab l ls rq (S ck).

(** [storeSessionId] *)
Definition storeSessionId (sessionId : value) (h : hook) : hook :=
  if truthy sessionId
  then set_localStorage (insert STORAGE_KEY_SESSION_ID (ToString sessionId)) h
  else h.

(** [clearStoredSession] *)
Definition clearStoredSession (h : hook) : hook :=
  set_localStorage (delete STORAGE_KEY_SESSION_ID) h.

(** [if (v) state[key] = v] *)
Definition put (key : string) (v : value) (state : list (jsstring * value))
  : list (jsstring * value) :=
  if truthy v then state ++ [(jstr key, v)] else state.

(** [getInitialStateFromUrl]: the object sent as the new session's state,
    its keys in the order they are assigned. *)
Definition getInitialStateFromUrl (params : list (jsstring * jsstring)) : value :=
  let customerEmail := params_get params (jstr "customer_email") in
  let customerId := params_get params (jstr "customer_id") in
  let loftIds := params_get params (jstr "loft_ids") in
  let widgetSessionId := params_get params (jstr "widget_session_id") in
  let state := [] in
  let state :=
    if truthy customerEmail
    then state ++ [(jstr "user:customer_email", customerEmail);
                   (jstr "user:is_authenticated", VBool true)]
    else state in
  let state := put "user:magento_customer_id" customerId state in
  let state :=
    match loftIds with
    | VStr ((_ :: _) as ids) =>
        state ++ [(jstr "user:loft_customer_ids",
                   VArr (map VStr (List.filter (fun x => truthy (VStr x)) (split 44 ids))))]
    | _ => state
    end in
  let state := put "widget_session_id" widgetSessionId state in
  let state := put "context:host" (params_get params (jstr "host")) state in
  let state := put "context:page" (params_get params (jstr "page")) state in
  let state := put "context:referrer" (params_get params (jstr "ref")) state in
  let utmParams := ["utm_source"; "utm_medium"; "utm_campaign"; "utm_term"; "utm_content"]%string in
  let state :=
    fold_left (fun state utm =>
                 put (String.append "context:" utm) (params_get params (jstr utm)) state)
              utmParams state in
  VObj state.

Definition AI_PAUSED : jsstring := jstr "__AI_PAUSED__".

(** ** Chat history of a recovered session *)

Definition role_of_author (author : value) : Role :=
  match author with
  | VStr s =>
      if str_eqb s (jstr "user") then user
      else if str_eqb s (jstr "human_agent") then agent
      else if str_eqb s (jstr "system") then system
      else agent
  | _ => agent
  end.

(** [parts.filter(p => p.text && p.text.trim()).map(p => p.text.trim()).join(' ')] *)
Definition text_of_parts (parts : value) : res jsstring :=
  match parts with
  | VArr l =>
      kept ← filterM (fun p =>
                t ← get p (jstr "text");
                if truthy t then s ← call_trim t; mret (truthy (VStr s))
                else mret false) l;
      texts ← mapM (fun p => t ← get p (jstr "text"); call_trim t) kept;
      mret (join (jstr " ") texts)
  | _ => Throw (TypeError "filter is not a function")
  end.

(** One round of the loop of [parseEventsToMessages]: the message pushed, if
    any. *)
Definition message_of_event (event : value) : res (option message) :=
  content ← get event (jstr "content");
  let parts := get_opt content (jstr "parts") in
  if negb (truthy parts) then mret None
  else
    textParts ← text_of_parts parts;
    if negb (truthy (VStr textParts)) || str_eqb textParts AI_PAUSED then mret None
    else mret (Some (Message (role_of_author (prop event (jstr "author")))
                             (VStr textParts)
                             (prop event (jstr "author"))
                             (prop event (jstr "timestamp"))
                             None None None)).

Definition parseEventsToMessages (events : value) : res (list message) :=
  l ← iterate events;
  pushed ← mapM message_of_event l;
  mret (omap (M := list) id pushed).

(** ** Products *)

(** What one event adds to [products] in the loop of [extractProducts]. *)
Definition pushed_products (event : parsed) : list value :=
  match event with
  | FunctionResponse _ response _ =>
      (let products := get_opt response (jstr "products") in
       if truthy products && isArray products then elements products else [])
      ++ (let product := get_opt response (jstr "product") in
          if truthy product then [product] else [])
  | _ => []
  end.

(** [p => p.name && p.price] *)
Definition has_name_and_price (p : value) : res bool :=
  name ← get p (jstr "name");
  if truthy name then price ← get p (jstr "price"); mret (truthy price)
  else mret false.

Definition extractProducts (events : list parsed) : res (list value) :=
  filterM has_name_and_price (concat (map pushed_products events)).

(** ** The hook

    The environment the hook runs in: the launch parameters of the page,
    [JSON.parse], the successive readings of the clock and the ISO rendering
    of a reading. *)

(** What a [fetch] settles to: a rejection, or a response with its [ok]
    flag, its status and what [response.json()] gives. *)
Inductive http :=
| NetworkError (e : error)
| Response (ok : bool) (status : Z) (json : res value).

(** What [reader.read()] settles to; a chunk is the text the decoder makes
    of the bytes read. *)
Inductive read :=
| Chunk (text : jsstring)
| EndOfStream
| ReadError (e : error).

(** The variables of one run of the read loop of [sendMessage]. *)
Record turn := Turn {
  buffer : jsstring;
  allEvents : list parsed;
  accumulatedText : jsstring }.

Definition is_text (p : parsed) : bool :=
  match p with Text _ _ _ => true | _ => false end.

Definition is_function_call (p : parsed) : bool :=
  match p with FunctionCall _ _ _ => true | _ => false end.

Definition is_live (p : parsed) : bool :=
  match p with
  | FunctionCall _ _ _ | FunctionResponse _ _ _ => true
  | _ => false
  end.

Definition AbortError : error := Error (jstr "AbortError") (jstr "The user aborted a request.").

Section Hook.

Variable params : list (jsstring * jsstring).
Variable JSON_parse : jsstring -> res value.
Variable Date_now : nat -> Z.
Variable toISOString : Z -> jsstring.

(** *** Stream reduction *)

(** The [try] block of the read loop once [JSON.parse] has returned. *)
Definition on_event (eventData : value) (st : hook * turn) : res (hook * turn) :=
  let '(h, t) := st in
  parsed ← parseEvent eventData;
  let t := Turn (buffer t) (allEvents t ++ [parsed]) (accumulatedText t) in
  let h :=
    if is_live parsed
    then tick (tick (setLiveEvents
           (fun prev => prev ++ [LiveEvent parsed (Date_now (clock_reads h))
                                                  (Date_now (S (clock_reads h)))]) h))
    else h in
  match parsed with
  | Text _ txt _ =>
      mret (setStreamingText txt h, Turn (buffer t) (allEvents t) txt)
  | _ => mret (h, t)
  end.

(** The same with its [catch]: an event that fails to classify is skipped. *)
Definition on_data (st : hook * turn) (eventData : value) : hook * turn :=
  match on_event eventData st with
  | Ok st' => st'
  | Throw _ => st
  end.

(** One line of the stream; a line that fails to parse is skipped as
    well. *)
Definition on_line (st : hook * turn) (line : jsstring) : hook * turn :=
  if startsWith line (jstr "data: ")
  then match JSON_parse (slice_from 6 line) with
       | Ok eventData => on_data st eventData
       | Throw _ => st
       end
  else st.

(** [lines.pop()]: the lines but the last, and the last. *)
Definition pop (lines : list jsstring) : list jsstring * jsstring :=
  match last lines with
  | Some x => (removelast lines, x)
  | None => ([], [])
  end.

(** One round of the read loop on a chunk of text. *)
Definition on_chunk (chunk : jsstring) (st : hook * turn) : hook * turn :=
  let '(h, t) := st in
  let buffer' := buffer t ++ chunk in
  let '(lines, rest) := pop (split 10 buffer') in
  fold_left on_line lines (h, Turn rest (allEvents t) (accumulatedText t)).

(** [textEvents.length > 0 ? textEvents[textEvents.length - 1].text
                            : accumulatedText || ''] *)
Definition finalText (t : turn) : jsstring :=
  match last (List.filter is_text (allEvents t)) with
  | Some (Text _ txt _) => txt
  | _ => accumulatedText t
  end.

(** The [catch] clause of [sendMessage]. *)
Definition catch_ (e : error) (h : hook) : hook :=
  if negb (str_eqb (err_name e) (jstr "AbortError"))
  then setMessages (fun prev => prev ++
         [plain agent (VStr ([10060] ++ jstr " Error: " ++ err_message e
                             ++ jstr ". Please check if the server is running."))]) h
  else h.

(** The [finally] clause of [sendMessage]; [aiPaused] is the value the
    callback closed over when it was created. *)
Definition finally_ (aiPaused_c : value) (h : hook) : hook :=
  let h := if negb (truthy aiPaused_c)
           then setStatus (fun _ => idle) h
           else setStatus (fun _ => human_mode) h in
  setStreamingText [] (setLiveEvents (fun _ => []) h).

(** What [sendMessage] does once the stream has ended, up to the end of the
    [try]. *)
Definition finish (t : turn) (h : hook) : res hook :=
  let finalText := finalText t in
  if str_eqb finalText AI_PAUSED || negb (truthy (VStr (trim finalText)))
  then mret (setStatus (fun _ => human_mode) (setAiPaused (VBool true) h))
  else
    products ← extractProducts (allEvents t);
    let toolCalls := List.filter is_function_call (allEvents t) in
    mret (setMessages (fun prev => prev ++
            [Message agent (VStr finalText) VUndef VUndef
                     (Some products) (Some toolCalls) (Some (allEvents t))]) h).

(** The end of a turn whose stream was read to its end. *)
Definition finalize (aiPaused_c : value) (t : turn) (h : hook) : hook :=
  finally_ aiPaused_c
    match finish t h with
    | Ok h' => h'
    | Throw e => catch_ e h
    end.

(** The end of a turn that threw [e] before its stream ended. *)
Definition fail (aiPaused_c : value) (e : error) (h : hook) : hook :=
  finally_ aiPaused_c (catch_ e h).

(** The start of [sendMessage], up to the call of [ensureSession]; [None]
    when it returns at once. [status_c] and [aiPaused_c] are the values the
    callback closed over. *)
Definition sendMessage_start (status_c : Status) (aiPaused_c : value)
    (text : jsstring) (h : hook) : option hook :=
  if negb (truthy (VStr (trim text)))
     || (negb (Status_eqb status_c idle) && negb (Status_eqb status_c human_mode))
  then None
  else
    let h := setMessages (fun prev => prev ++ [plain user (VStr (trim text))]) h in
    let h := if truthy aiPaused_c
             then setStatus (fun _ => human_mode) h
             else setStatus (fun _ => loading) h in
    Some (setStreamingText [] (setLiveEvents (fun _ => []) h)).

(** *** Inbound listener *)

(** [startListening]: the previous subscription, if any, is closed and
    replaced. *)
Definition startListening (sessionId : value) (userId : jsstring) (h : hook) : hook :=
  set_listenEventSourceRef (Some (sessionId, userId))
    (send_request (Listen sessionId userId) h).

Definition is_str (v : value) (s : string) : bool :=
  match v with VStr x => str_eqb x (jstr s) | _ => false end.

(** The [try] block of [eventSource.onmessage]. *)
Definition on_inbound (data : value) (h : hook) : res hook :=
  type ← get data (jstr "type");
  let h :=
    if is_str type "new_message"
    then setMessages (fun prev => prev ++
           [Message agent (prop data (jstr "content")) (prop data (jstr "author"))
                    (prop data (jstr "timestamp")) None None None]) h
    else h in
  let h :=
    if is_str type "ai_status_changed"
    then
      let h := setAiPaused (prop data (jstr "ai_paused")) h in
      if truthy (prop data (jstr "message"))
      then tick (setMessages (fun prev => prev ++
             [Message system (prop data (jstr "message")) VUndef
                      (VStr (toISOString (Date_now (clock_reads h)))) None None None]) h)
      else h
    else h in
  mret h.

(** [eventSource.onmessage]: keepalives and malformed items are ignored. *)
Definition onmessage (event_data : jsstring) (h : hook) : hook :=
  match data ← JSON_parse event_data; on_inbound data h with
  | Ok h' => h'
  | Throw _ => h
  end.

(** *** Session negotiator *)

(** What [tryRecoverSession] does once its [fetch] has settled: the state
    and the value it returns. *)
Definition tryRecoverSession (r : http) (h : hook) : hook * value :=
  match r with
  | NetworkError _ => (h, VNull)
  | Response false _ _ => (h, VNull)
  | Response true _ (Throw _) => (h, VNull)
  | Response true _ (Ok session) =>
      if negb (truthy session) then (h, session)
      else
        let events := prop session (jstr "events") in
        if negb (truthy events) then (h, session)
        else if (match prop events (jstr "length") with VNum 0 => true | _ => false end)
        then (h, session)
        else
          match parseEventsToMessages events with
          | Throw _ => (h, VNull)
          | Ok recoveredMessages =>
              let h :=
                match recoveredMessages with
                | [] => h
                | _ :: _ =>
                    setIsRecovered true
                      (setMessages (fun _ => WELCOME_MESSAGE :: recoveredMessages) h)
                end in
              let h :=
                if truthy (get_opt (prop session (jstr "state")) (jstr "ai_paused"))
                then setAiPaused (VBool true) h
                else h in
              (h, session)
          end
  end.

(** How far a call of [ensureSession] got. *)
Inductive progress :=
| Returned (sessionId : value)
| Threw (e : error)
| AwaitingRecovery
| AwaitingCreation.

(** STEP 2 of [ensureSession], up to the [fetch] that creates the session. *)
Definition ensureSession_create (h : hook) : hook * progress :=
  let h := set_sessionRecoveryAttempted true h in
  let initialState := getInitialStateFromUrl params in
  (send_request (PostSession (userIdRef h) initialState) h, AwaitingCreation).

(** [ensureSession] from its call to its first [await] or its return. *)
Definition ensureSession (h : hook) : hook * progress :=
  if sessionCreatedRef h && truthy (sessionIdRef h)
  then (h, Returned (sessionIdRef h))
  else if negb (sessionRecoveryAttempted h) && truthy (sessionIdRef h)
  then
    let h := set_sessionRecoveryAttempted true h in
    let h := setStatus (fun _ => recovering) h in
    (send_request (GetSession (userIdRef h) (sessionIdRef h)) h, AwaitingRecovery)
  else ensureSession_create h.

(** [ensureSession] from the settling of the recovery [fetch] on. *)
Definition ensureSession_recovered (r : http) (h : hook) : hook * progress :=
  let '(h, recovered) := tryRecoverSession r h in
  if truthy recovered
  then
    let h := set_sessionCreatedRef true h in
    let h := startListening (sessionIdRef h) (userIdRef h) h in
    let h := setStatus (fun _ => idle) h in
    (h, Returned (sessionIdRef h))
  else
    let h := set_sessionIdRef VNull h in
    let h := clearStoredSession h in
    let h := setStatus (fun _ => idle) h in
    ensureSession_create h.

(** [ensureSession] from the settling of the creation [fetch] on. *)
Definition ensureSession_created (r : http) (h : hook) : hook * progress :=
  match r with
  | NetworkError e => (h, Threw e)
  | Response false status _ =>
      (h, Threw (Error (jstr "Error")
                       (jstr "Failed to create session: " ++ toStringRadix 10 status)))
  | Response true _ (Throw e) => (h, Threw e)
  | Response true _ (Ok session) =>
      match get session (jstr "id") with
      | Throw e => (h, Threw e)
      | Ok id =>
          let h := set_sessionIdRef id h in
          let h := set_sessionCreatedRef true h in
          let h := storeSessionId id h in
          let h := startListening id (userIdRef h) h in
          (h, Returned id)
      end
  end.

(** [reset], but for the abort of the turn in flight. *)
Definition reset_state (h : hook) : hook :=
  let h := set_listenEventSourceRef None h in
  let h := setMessages (fun _ => [WELCOME_MESSAGE]) h in
  let h := setLiveEvents (fun _ => []) h in
  let h := setStreamingText [] h in
  let h := setStatus (fun _ => idle) h in
  let h := setAiPaused (VBool false) h in
  let h := setIsRecovered false h in
  let h := set_sessionIdRef VNull h in
  let h := set_sessionCreatedRef false h in
  let h := set_sessionRecoveryAttempted false h in
  clearStoredSession h.

(** *** The hook as a reactive system

    JavaScript runs one callback at a time: the state changes in steps, each
    from an input of the page (a user action, a message of the listener, the
    settling of a [fetch] or of a [read]) to the next [await] on the
    network. A call in flight is a task, waiting for the network; the
    network answers the tasks in any order. React applies the state setters
    of a step in the order they are called, so a step is the composition of
    its setters. A callback invoked by the page is the one of the latest
    render: it closes over the current [status] and [aiPaused], and keeps
    them while it runs. Messages of the listener are accepted at any time,
    whatever subscriptions are open. *)

(** Who awaits [ensureSession]: the effect run on mount, or a [sendMessage]
    with its text and the [aiPaused] it closed over. *)
Inductive caller :=
| ByMount
| BySend (text : jsstring) (aiPaused_c : value).

Inductive task :=
| Finished
| Recovering (c : caller)
| Creating (c : caller)
| Running (aiPaused_c : value)
| Reading (aiPaused_c : value) (t : turn).

Record world := World { hk : hook; tasks : list task }.

Inductive input :=
| Mount
| Send (text : jsstring)
| Reset
| Cancel
| Inbound (event_data : jsstring)
| ListenerRetry (sessionId : value) (userId : jsstring)
| Recovery (i : nat) (r : http)
| Creation (i : nat) (r : http)
| Run (i : nat) (r : http)
| Read (i : nat) (r : read).

(** What the caller [c], running as task [i], does with the progress of its
    [ensureSession]. *)
Definition resume (i : nat) (c : caller) (hp : hook * progress) : hook * task :=
  let '(h, p) := hp in
  let settled := setStatus (fun prev => if Status_eqb prev recovering then idle else prev) in
  match p, c with
  | AwaitingRecovery, _ => (h, Recovering c)
  | AwaitingCreation, _ => (h, Creating c)
  | Returned _, ByMount => (settled h, Finished)
  | Threw _, ByMount => (settled h, Finished)
  | Returned sessionId, BySend text a =>
      (send_request (PostRunSSE (userIdRef h) sessionId (trim text))
         (set_abortControllerRef (Some i) h), Running a)
  | Threw e, BySend _ a => (fail a e h, Finished)
  end.

(** A new call of [ensureSession] on behalf of [c]. *)
Definition call (c : caller) (w : world) : world :=
  let '(h, t) := resume (length (tasks w)) c (ensureSession (hk w)) in
  World h (tasks w ++ [t]).

(** [abortControllerRef.current.abort()] and the rejection that follows in
    the turn it belongs to. *)
Definition abort (w : world) : world :=
  match abortControllerRef (hk w) with
  | Some i =>
      match tasks w !! i with
      | Some (Running a) | Some (Reading a _) =>
          World (fail a AbortError (hk w)) (<[i := Finished]> (tasks w))
      | _ => w
      end
  | None => w
  end.

(** One step of the hook. The body of an ok response to the run request
    is taken to be a stream; on a response without a body
    [response.body.getReader()] throws at once, which is the input [Run]
    followed by the input [Read] with that error. *)
Definition step (w : world) (inp : input) : world :=
  let h := hk w in
  match inp with
  | Mount =>
      if truthy (getStoredSessionId (localStorage h)) && negb (sessionRecoveryAttempted h)
      then call ByMount w
      else w
  | Send text =>
      match sendMessage_start (status h) (aiPaused h) text h with
      | None => w
      | Some h' => call (BySend text (aiPaused h)) (World h' (tasks w))
      end
  | Reset => abort (World (reset_state h) (tasks w))
  | Cancel => abort w
  | Inbound event_data => World (onmessage event_data h) (tasks w)
  | ListenerRetry sessionId userId => World (startListening sessionId userId h) (tasks w)
  | Recovery i r =>
      match tasks w !! i with
      | Some (Recovering c) =>
          let '(h', t) := resume i c (ensureSession_recovered r h) in
          World h' (<[i := t]> (tasks w))
      | _ => w
      end
  | Creation i r =>
      match tasks w !! i with
      | Some (Creating c) =>
          let '(h', t) := resume i c (ensureSession_created r h) in
          World h' (<[i := t]> (tasks w))
      | _ => w
      end
  | Run i r =>
      match tasks w !! i with
      | Some (Running a) =>
          match r with
          | NetworkError e => World (fail a e h) (<[i := Finished]> (tasks w))
          | Response false status _ =>
              World (fail a (Error (jstr "Error")
                                   (jstr "API error " ++ toStringRadix 10 status)) h)
                    (<[i := Finished]> (tasks w))
          | Response true _ _ =>
              World (setStatus (fun _ => streaming) h)
                    (<[i := Reading a (Turn [] [] [])]> (tasks w))
          end
      | _ => w
      end
  | Read i r =>
      match tasks w !! i with
      | Some (Reading a t) =>
          match r with
          | Chunk text =>
              let '(h', t') := on_chunk text (h, t) in
              World h' (<[i := Reading a t']> (tasks w))
          | EndOfStream => World (finalize a t h) (<[i := Finished]> (tasks w))
          | ReadError e => World (fail a e h) (<[i := Finished]> (tasks w))
          end
      | _ => w
      end
  end.

(** The first render: the identity is resolved, the stored session id read. *)
Definition init (rnd : jsstring) (storage : gmap jsstring jsstring) : world :=
  let '(userId, ls) := getPersistentUserId params rnd storage in
  World (Hook [WELCOME_MESSAGE] [] idle [] (VBool false) false
              userId (getStoredSessionId ls) false false None None ls [] 0%nat) [].

Definition run (w : world) (inputs : list input) : world := fold_left step inputs w.

Definition reachable (w : world) : Prop :=
  exists rnd storage inputs, w = run (init rnd storage) inputs.

End Hook.

(** ** The address of the listener *)

(** [s.replace(pat, '')] for a string [pat]: the first occurrence of [pat]
    is removed. *)
Fixpoint remove_first (pat s : jsstring) {struct s} : jsstring :=
  if startsWith s pat then drop (length pat) s
  else match s with
       | [] => []
       | c :: r => c :: remove_first pat r
       end.

(** [backendUrl] in [startListening]; [API_BASE] is fixed when the widget is
    built. *)
Definition backendUrl (API_BASE : jsstring) : jsstring :=
  if startsWith API_BASE (jstr "http")
  then remove_first (jstr "/api") API_BASE
  else jstr "http://localhost:8000".

(** [listenUrl] in [startListening]. *)
Definition listenUrl (API_BASE : jsstring) (sessionId : value) (userId : jsstring)
  : jsstring :=
  backendUrl API_BASE ++ jstr "/api/inbox/listen/" ++ ToString sessionId
  ++ jstr "?user_id=" ++ userId.

(** ** The page: [App] and [ChatInput] *)

(** [isBusy] of [ChatInput]. *)
Definition isBusy (status : Status) : bool :=
  Status_eqb status loading || Status_eqb status streaming.

(** [handleSubmit] of [ChatInput]: the value it hands to [onSend], if
    any. *)
Definition handleSubmit (value : jsstring) (status : Status) : option jsstring :=
  if truthy (VStr (trim value)) && negb (isBusy status) then Some value else None.

Section Page.

Variable params : list (jsstring * jsstring).
Variable JSON_parse : jsstring -> res value.
Variable Date_now : nat -> Z.
Variable toISOString : Z -> jsstring.

(** The state of [App]: the text of the input box and the hook. *)
Record page := Page { input_box : jsstring; hook_of : world }.

(** [handleSend] of [App]. *)
Definition handleSend (text : jsstring) (pg : page) : page :=
  let messageText := if truthy (VStr text) then text else input_box pg in
  if truthy (VStr (trim messageText))
  then Page [] (step params JSON_parse Date_now toISOString (hook_of pg)
                     (Send (trim messageText)))
  else pg.

(** The form of [ChatInput] is submitted. [App] passes
    [hasPendingRecovery ? 'loading' : status] as the status; the hook
    returns no [hasPendingRecovery], so this is the status of the hook. *)
Definition submit (pg : page) : page :=
  match handleSubmit (input_box pg) (status (hk (hook_of pg))) with
  | Some value => handleSend value pg
  | None => pg
  end.

End Page.

(** * Vocabulary of the properties, sample inputs *)

(** ** Classification *)

(** A part carries the property [k] when its value is truthy. *)
Definition carries (k : string) (part : value) : bool :=
  truthy (get_opt part (jstr k)).

(** A part carries text when its [text] is a string that is not blank. *)
Definition carries_text (part : value) : bool :=
  match get_opt part (jstr "text") with
  | VStr s => truthy (VStr (trim s))
  | _ => false
  end.

Definition text_type (event : value) : EventType :=
  if truthy (get_opt event (jstr "partial")) then TEXT_PARTIAL else TEXT.

(** The classification as the specification words it: the precedence runs
    over the whole payload. *)
Definition precedence_type (event : value) (parts : list value) : EventType :=
  if existsb (carries "functionCall") parts then FUNCTION_CALL
  else if existsb (carries "functionResponse") parts then FUNCTION_RESPONSE
  else if existsb carries_text parts then text_type event
  else THINKING.

(** What a part decides by itself, if anything. *)
Definition decides (event part : value) : option EventType :=
  if carries "functionCall" part then Some FUNCTION_CALL
  else if carries "functionResponse" part then Some FUNCTION_RESPONSE
  else if carries_text part then Some (text_type event)
  else None.

Definition skipped (event part : value) : Prop :=
  nullish part = false /\ decides event part = None.

(** ** One turn *)

(** The text of the last text event of a list, [d] when it has none. *)
Definition last_text (ps : list parsed) (d : jsstring) : jsstring :=
  fold_left (fun acc p => match p with Text _ txt _ => txt | _ => acc end) ps d.

Definition named_and_priced (p : value) : bool :=
  truthy (get_opt p (jstr "name")) && truthy (get_opt p (jstr "price")).

(** ** Requests and frames *)

Definition is_recovery_fetch (r : request) : bool :=
  match r with GetSession _ _ => true | _ => false end.

Definition is_creation_post (r : request) : bool :=
  match r with PostSession _ _ => true | _ => false end.

Definition recovery_fetches (h : hook) : nat :=
  length (List.filter is_recovery_fetch (requests h)).

Definition creation_posts (h : hook) : nat :=
  length (List.filter is_creation_post (requests h)).

(** [frames h h']: from [h] to [h'] messages were at most appended, and the
    session refs, the storage and the requests of the negotiator are the
    same. *)
Definition frames (h h' : hook) : Prop :=
  (exists more, messages h' = messages h ++ more)
  /\ sessionIdRef h' = sessionIdRef h
  /\ sessionCreatedRef h' = sessionCreatedRef h
  /\ sessionRecoveryAttempted h' = sessionRecoveryAttempted h
  /\ localStorage h' = localStorage h
  /\ recovery_fetches h' = recovery_fetches h
  /\ creation_posts h' = creation_posts h.

(** The part of the state the negotiator depends on: the session id, the
    two latches, the storage and the numbers of recovery fetches and of
    creation POSTs issued so far. *)
Definition session_view (h : hook)
  : value * bool * bool * gmap jsstring jsstring * nat * nat :=
  (sessionIdRef h, sessionCreatedRef h, sessionRecoveryAttempted h,
   localStorage h, recovery_fetches h, creation_posts h).

(** ** The negotiator *)

(** The ways the lookup of a stored session fails: the [fetch] rejects, the
    response is not ok (not found, expired), its body is no JSON, is empty,
    or holds a history that cannot be read. *)
Inductive lookup_failed : http -> Prop :=
| fetch_rejected e : lookup_failed (NetworkError e)
| not_ok status body : lookup_failed (Response false status body)
| body_malformed status e : lookup_failed (Response true status (Throw e))
| body_empty status session :
    truthy session = false -> lookup_failed (Response true status (Ok session))
| history_malformed status session e :
    truthy session = true ->
    truthy (prop session (jstr "events")) = true ->
    prop (prop session (jstr "events")) (jstr "length") <> VNum 0 ->
    parseEventsToMessages (prop session (jstr "events")) = Throw e ->
    lookup_failed (Response true status (Ok session)).

(** The invariant of the latch: no recovery fetch was issued yet, or one
    was, and a session id at hand is then either latched or in use. *)
Definition latched (h : hook) : Prop :=
  let '(sessionId, created, attempted, _, fetches, _) := session_view h in
  fetches = 0%nat
  \/ (fetches = 1%nat /\ (truthy sessionId = true -> attempted = true \/ created = true)).

Definition negotiating (t : task) : bool :=
  match t with
  | Recovering _ | Creating _ => true
  | _ => false
  end.

(** The negotiation has settled on [id]: the session is in use and no call
    of [ensureSession] is waiting for the network. *)
Definition settled_on (id : value) (w : world) : Prop :=
  sessionCreatedRef (hk w) = true
  /\ sessionIdRef (hk w) = id
  /\ truthy id = true
  /\ Forall (fun t => negotiating t = false) (tasks w).

(** ** Digits *)

Definition digit_value (c : Z) : Z := if c <? 58 then c - 48 else c - 87.

(** [parseInt(s, radix)] on a string of digits. *)
Definition number_of (radix : Z) (s : jsstring) : Z :=
  fold_left (fun acc c => acc * radix + digit_value c) s 0.

(** ** Sample events and pages *)

Definition part_event (part : list (jsstring * value)) (more : list (jsstring * value))
  : value :=
  VObj ((jstr "content", VObj [(jstr "parts", VArr [VObj part])]) :: more).

Definition call_event (name : string) : value :=
  part_event [(jstr "functionCall",
               VObj [(jstr "name", VStr (jstr name)); (jstr "args", VObj [])])] [].

Definition response_event (name : string) (response : value) : value :=
  part_event [(jstr "functionResponse",
               VObj [(jstr "name", VStr (jstr name)); (jstr "response", response)])] [].

Definition partial_event (s : string) : value :=
  part_event [(jstr "text", VStr (jstr s))] [(jstr "partial", VBool true)].

Definition text_event (s : string) : value :=
  part_event [(jstr "text", VStr (jstr s))] [].

(** An event of two parts, some text and then a function call. *)
Definition text_then_call : value :=
  VObj [(jstr "content",
         VObj [(jstr "parts",
                VArr [VObj [(jstr "text", VStr (jstr "Let me check"))];
                      VObj [(jstr "functionCall",
                             VObj [(jstr "name", VStr (jstr "search_products"))])]])])].

(** An event whose only part is [null]. *)
Definition null_part : value :=
  VObj [(jstr "content", VObj [(jstr "parts", VArr [VNull])])].

(** An event whose first part is [null] and whose second part carries a
    function call. *)
Definition null_then_call : value :=
  VObj [(jstr "content",
         VObj [(jstr "parts",
                VArr [VNull;
                      VObj [(jstr "functionCall",
                             VObj [(jstr "name", VStr (jstr "search_products"))])]])])].

(** An event whose first part carries text and whose second part is
    [null]. *)
Definition text_then_null : value :=
  VObj [(jstr "content",
         VObj [(jstr "parts", VArr [VObj [(jstr "text", VStr (jstr "hi"))]; VNull])])].

(** An event whose content is missing. *)
Definition no_content : value := VObj [(jstr "author", VStr (jstr "agent"))].

Definition sofa_a : value :=
  VObj [(jstr "name", VStr (jstr "Sofa A")); (jstr "price", VNum 499)].

(** A product that has a name and the price 0. *)
Definition sofa_free : value :=
  VObj [(jstr "name", VStr (jstr "Sofa B")); (jstr "price", VNum 0)].

Definition sofas_found : value :=
  response_event "search_products" (VObj [(jstr "products", VArr [sofa_a])]).

Definition said (author text : string) : value :=
  VObj [(jstr "author", VStr (jstr author));
        (jstr "content", VObj [(jstr "parts", VArr [VObj [(jstr "text", VStr (jstr text))]])])].

Definition past_session : value :=
  VObj [(jstr "id", VStr (jstr "s-old"));
        (jstr "state", VObj [(jstr "ai_paused", VBool true)]);
        (jstr "events",
         VArr [said "user" "  Do you deliver?  "; said "faq_agent" "Yes, within 30 miles.";
               said "faq_agent" "__AI_PAUSED__"; said "human_agent" "Sam here.";
               VObj [(jstr "author", VStr (jstr "faq_agent"))]])].

(** The hook of a fresh page: no launch parameter, nothing stored. *)
Definition fresh : hook := hk (init [] (jstr "k3x9qa") ∅).

(** The JSON text of a value whose strings need no escape; the streams of
    the examples are written with it. *)
Fixpoint json_text (v : value) : jsstring :=
  match v with
  | VUndef | VNull => jstr "null"
  | VBool true => jstr "true"
  | VBool false => jstr "false"
  | VNum n => toStringRadix 10 n
  | VStr s => [34] ++ s ++ [34]
  | VArr l => jstr "[" ++ join (jstr ",") (map json_text l) ++ jstr "]"
  | VObj kvs =>
      jstr "{"
      ++ join (jstr ",")
           (map (fun kv => let '(k, x) := kv in [34] ++ k ++ [34] ++ jstr ":" ++ json_text x)
                kvs)
      ++ jstr "}"
  end.

(** [JSON.parse] on the texts of the values of a table, a [SyntaxError]
    elsewhere. *)
Definition parse_table (table : list value) (s : jsstring) : res value :=
  match List.find (fun v => str_eqb (json_text v) s) table with
  | Some v => Ok v
  | None => Throw (Error (jstr "SyntaxError") (jstr "Unexpected token"))
  end.

(** The chunk of a server-sent event. *)
Definition sse (event : value) : jsstring :=
  jstr "data: " ++ json_text event ++ [10; 10].

Definition created (id : string) : http :=
  Response true 200 (Ok (VObj [(jstr "id", VStr (jstr id))])).

Definition opened : http := Response true 200 (Ok VNull).

Definition not_found : http :=
  Response false 404 (Ok (VObj [(jstr "detail", VStr (jstr "Session not found"))])).

(** A page without launch parameters, on a stream of the given events. *)
Definition run_page (events : list value) (rnd : jsstring)
    (storage : gmap jsstring jsstring) (inputs : list input) : world :=
  run [] (parse_table events) (fun n => 1700000000000 + Z.of_nat n) (fun _ => [])
      (init [] rnd storage) inputs.

(** A page that stored the id of a session that has since expired. *)
Definition stale_page (inputs : list input) : world :=
  run_page [] (jstr "k3x9qa") {[STORAGE_KEY_SESSION_ID := jstr "s-old"]} inputs.

(** A conversation with a product search, an error and a message of a human
    agent. *)
Definition busy_page : world :=
  let handoff :=
    VObj [(jstr "type", VStr (jstr "new_message"));
          (jstr "content", VStr (jstr "Hi, this is Sam from the store."));
          (jstr "author", VStr (jstr "human_agent"))] in
  run_page [sofas_found; text_event "Here are some options"; handoff]
    (jstr "k3x9qa") ∅
    [Send (jstr "Show me black sofas"); Creation 0 (created "s-1"); Run 0 opened;
     Read 0 (Chunk (sse sofas_found));
     Read 0 (Chunk (sse (text_event "Here are some options")));
     Read 0 EndOfStream;
     Send (jstr "And in leather?"); Run 1 (Response false 500 (Ok VNull));
     Inbound (json_text handoff)].

(** ** Identity *)

(** The polynomial [c0 * 31^(n-1) + ... + c(n-1)] of the code units. *)
Definition poly31 (s : jsstring) : Z := fold_left (fun h c => 31 * h + c) s 0.

(** A digit or a lower-case letter. *)
Definition is_alnum (c : Z) : Prop := 48 <= c <= 57 \/ 97 <= c <= 122.

(** ** The read loop *)

(** What the lines of a chunk do: they add events, and nothing else but
    what the events say. *)
Definition effect (h : hook) (evs : list parsed) (acc : jsstring)
    (h' : hook) (evs' : list parsed) (acc' : jsstring) : Prop :=
  exists new,
    evs' = evs ++ new
    /\ acc' = last_text new acc
    /\ streamingText h' = last_text new (streamingText h)
    /\ map le_event (liveEvents h') = map le_event (liveEvents h) ++ List.filter is_live new
    /\ messages h' = messages h
    /\ status h' = status h
    /\ aiPaused h' = aiPaused h.

(** ** The page *)

(** The turn the current abort controller belongs to, when it is still
    under way: the [aiPaused] it closed over. *)
Definition turn_under_way (w : world) : option value :=
  match abortControllerRef (hk w) with
  | Some i =>
      match tasks w !! i with
      | Some (Running a) | Some (Reading a _) => Some a
      | _ => None
      end
  | None => None
  end.

(** ** Identity and session over a run *)

(** The user id in use and the one in the storage. *)
Definition user_view (h : hook) : jsstring * option jsstring :=
  (userIdRef h, localStorage h !! STORAGE_KEY_USER_ID).

(** The session id in use, if any, is the one in the storage. *)
Definition stored_in_use (h : hook) : Prop :=
  truthy (sessionIdRef h) = true ->
  localStorage h !! STORAGE_KEY_SESSION_ID = Some (ToString (sessionIdRef h)).

(** ** Texts *)

(** A text that is not empty and has no white space at either end. *)
Definition tidy (s : jsstring) : Prop := s <> [] /\ trim s = s.

(** ** The state of a new session *)

(** The keys [getInitialStateFromUrl] may set, in the order it sets them. *)
Definition state_keys : list jsstring :=
  map jstr ["user:customer_email"; "user:is_authenticated"; "user:magento_customer_id";
            "user:loft_customer_ids"; "widget_session_id"; "context:host";
            "context:page"; "context:referrer"; "context:utm_source";
            "context:utm_medium"; "context:utm_campaign"; "context:utm_term";
            "context:utm_content"]%string.

(** The keys of [state] are among [keys], in their order and at most once
    each, and no value is falsy. *)
Definition well_formed_state (keys : list jsstring) (state : list (jsstring * value))
  : Prop :=
  sublist (map fst state) keys /\ Forall (fun kv => truthy (snd kv) = true) state.

(** The ids of [loft_ids]: the pieces between commas that are not empty;
    nothing when the parameter is missing or empty. *)
Definition loft_ids_of (loftIds : value) : value :=
  match loftIds with
  | VStr ((_ :: _) as ids) =>
      VArr (map VStr (List.filter (fun piece => match piece with [] => false | _ => true end)
                                  (split 44 ids)))
  | _ => VUndef
  end.

(** The keys of the state with the launch parameter each one is taken
    from, in order. *)
Definition state_entries (params : list (jsstring * jsstring))
  : list (jsstring * value) :=
  [(jstr "user:customer_email", params_get params (jstr "customer_email"));
   (jstr "user:is_authenticated",
    if truthy (params_get params (jstr "customer_email")) then VBool true else VUndef);
   (jstr "user:magento_customer_id", params_get params (jstr "customer_id"));
   (jstr "user:loft_customer_ids", loft_ids_of (params_get params (jstr "loft_ids")));
   (jstr "widget_session_id", params_get params (jstr "widget_session_id"));
   (jstr "context:host", params_get params (jstr "host"));
   (jstr "context:page", params_get params (jstr "page"));
   (jstr "context:referrer", params_get params (jstr "ref"));
   (jstr "context:utm_source", params_get params (jstr "utm_source"));
   (jstr "context:utm_medium", params_get params (jstr "utm_medium"));
   (jstr "context:utm_campaign", params_get params (jstr "utm_campaign"));
   (jstr "context:utm_term", params_get params (jstr "utm_term"));
   (jstr "context:utm_content", params_get params (jstr "utm_content"))].

(** ** The page once its mount effect has run *)

(** The latch of the recovery is closed: a session id at hand is latched or
    in use, so [ensureSession] does not look it up. *)
Definition latch_closed (h : hook) : Prop :=
  truthy (sessionIdRef h) = true ->
  sessionRecoveryAttempted h = true \/ sessionCreatedRef h = true.

(** A task that waits for the recovery fetch is the mount effect. *)
Definition awaited_by_mount (t : task) : Prop :=
  forall c, t = Recovering c -> c = ByMount.

Definition mounted (w : world) : Prop :=
  latch_closed (hk w) /\ Forall awaited_by_mount (tasks w).

(** * Properties *)

(** ** Checks of the embedding *)

Example hashEmail_a : hashEmail (jstr "a") = jstr "user_2p".
Proof. vm_compute. reflexivity. Qed.
Example hashEmail_ab : hashEmail (jstr "ab") = jstr "user_2e9".
Proof. vm_compute. reflexivity. Qed.

Example toStringRadix_max : toStringRadix 36 2147483648 = jstr "zik0zk".
Proof. vm_compute. reflexivity. Qed.

Example split_ex :
  split 10 (jstr "data: 1" ++ [10; 10] ++ jstr "data") = [jstr "data: 1"; []; jstr "data"].
Proof. vm_compute. reflexivity. Qed.

Example json_text_ex :
  json_text (VObj [(jstr "id", VStr (jstr "s-1")); (jstr "n", VArr [VNum 499; VNull])])
  = jstr "{" ++ [34] ++ jstr "id" ++ [34] ++ jstr ":" ++ [34] ++ jstr "s-1" ++ [34]
    ++ jstr "," ++ [34] ++ jstr "n" ++ [34] ++ jstr ":[499,null]}".
Proof. vm_compute. reflexivity. Qed.

Example initial_state_ex :
  getInitialStateFromUrl
    [(jstr "customer_email", jstr "a@b.co"); (jstr "loft_ids", jstr "7,,9");
     (jstr "page", jstr "/sofas"); (jstr "utm_source", jstr "mail")]
  = VObj [(jstr "user:customer_email", VStr (jstr "a@b.co"));
          (jstr "user:is_authenticated", VBool true);
          (jstr "user:loft_customer_ids", VArr [VStr (jstr "7"); VStr (jstr "9")]);
          (jstr "context:page", VStr (jstr "/sofas"));
          (jstr "context:utm_source", VStr (jstr "mail"))].
Proof. vm_compute. reflexivity. Qed.

Example trim_ex : trim ([32; 9] ++ jstr "a b" ++ [160; 10]) = jstr "a b".
Proof. vm_compute. reflexivity. Qed.

Example parseEvent_null : parseEvent VNull = Ok (Thinking VNull).
Proof. reflexivity. Qed.

Example parseEvent_string_parts :
  let event := VObj [(jstr "content", VObj [(jstr "parts", VStr (jstr "ab"))])] in
  parseEvent event = Ok (Thinking event).
Proof. vm_compute. reflexivity. Qed.

Example parseEvent_number_parts :
  parseEvent (VObj [(jstr "content", VObj [(jstr "parts", VNum 5)])])
  = Throw (TypeError "value is not iterable").
Proof. vm_compute. reflexivity. Qed.

Example parseEvent_response_before_text :
  let event := part_event [(jstr "text", VStr (jstr "Found it"));
                           (jstr "functionResponse",
                            VObj [(jstr "name", VStr (jstr "lookup"))])] [] in
  parseEvent event
  = Ok (FunctionResponse (VStr (jstr "lookup")) VUndef event).
Proof. vm_compute. reflexivity. Qed.

(** ** Strings *)

Lemma trimStart_app_keep (l : jsstring) (c : Z) :
  is_ws c = false -> trimStart (l ++ [c]) = trimStart l ++ [c].
Proof.
  intros Hc. induction l as [|a l IH]; simpl.
  - now rewrite Hc.
  - destruct (is_ws a); [exact IH | reflexivity].
Qed.

Lemma trimEnd_cons_keep (c : Z) (r : jsstring) :
  is_ws c = false -> trimEnd (c :: r) = c :: trimEnd r.
Proof.
  intros Hc. unfold trimEnd. simpl.
  rewrite trimStart_app_keep by assumption.
  now rewrite rev_app_distr.
Qed.

Lemma trimStart_head (s : jsstring) :
  trimStart s = [] \/ exists c r, trimStart s = c :: r /\ is_ws c = false.
Proof.
  induction s as [|a s IH]; simpl; [now left|].
  destruct (is_ws a) eqn:Ha; [exact IH|]. right. eauto.
Qed.

Lemma trimStart_keep (c : Z) (r : jsstring) :
  is_ws c = false -> trimStart (c :: r) = c :: r.
Proof. intros Hc. simpl. now rewrite Hc. Qed.

Lemma trimEnd_idem (s : jsstring) : trimEnd (trimEnd s) = trimEnd s.
Proof.
  unfold trimEnd. rewrite rev_involutive.
  destruct (trimStart_head (rev s)) as [->|(c & r & -> & Hc)]; [reflexivity|].
  now rewrite trimStart_keep.
Qed.

(** A trimmed string is empty or starts with a code unit that is no white
    space. *)
Lemma trim_head (s : jsstring) :
  trim s = [] \/ exists c r, trim s = c :: r /\ is_ws c = false.
Proof.
  unfold trim.
  destruct (trimStart_head s) as [->|(c & r & -> & Hc)]; [now left|].
  right. rewrite trimEnd_cons_keep by assumption. eauto.
Qed.

Lemma trim_idem (s : jsstring) : trim (trim s) = trim s.
Proof.
  destruct (trim_head s) as [->|(c & r & E & Hc)]; [reflexivity|].
  unfold trim at 1. rewrite E, trimStart_keep, <- E by assumption.
  unfold trim. apply trimEnd_idem.
Qed.

Lemma trim_nil_iff (s : jsstring) : trim s = [] <-> forallb is_ws s = true.
Proof.
  unfold trim. induction s as [|a s IH]; simpl; [easy|].
  destruct (is_ws a) eqn:Ha; simpl; [exact IH|].
  rewrite trimEnd_cons_keep by assumption. easy.
Qed.

(** ** Digits *)

Lemma digit_value_digit36 (d : Z) : 0 <= d < 36 -> digit_value (digit36 d) = d.
Proof.
  intros H. unfold digit_value, digit36.
  destruct (Z.ltb_spec d 10).
  - destruct (Z.ltb_spec (48 + d) 58); lia.
  - destruct (Z.ltb_spec (87 + d) 58); lia.
Qed.

Lemma digits_fold (radix : Z) (fuel : nat) :
  2 <= radix <= 36 ->
  forall n acc z,
    0 <= n < 2 ^ Z.of_nat fuel ->
    exists k,
      fold_left (fun acc c => acc * radix + digit_value c) (digits radix fuel n acc) z
      = fold_left (fun acc c => acc * radix + digit_value c) acc (z * radix ^ k + n)
      /\ 0 <= k.
Proof.
  intros Hr. induction fuel as [|fuel IH]; intros n acc z Hn.
  - exists 0. simpl in *. replace n with 0 by lia. split; [f_equal; lia | lia].
  - cbn [digits].
    pose proof (Z.mod_pos_bound n radix ltac:(lia)) as Hm.
    pose proof (Z.div_mod n radix ltac:(lia)) as Hd.
    destruct (Z.eqb_spec (n / radix) 0) as [E|E].
    + exists 1. simpl. rewrite digit_value_digit36 by lia.
      split; [f_equal; nia | lia].
    + destruct (IH (n / radix) (digit36 (n mod radix) :: acc) z) as (k & Hk & Hk0).
      { split; [apply Z.div_pos; lia|].
        apply Z.div_lt_upper_bound; [lia|].
        rewrite Nat2Z.inj_succ, Z.pow_succ_r in Hn by lia. nia. }
      exists (k + 1). rewrite Hk. simpl. rewrite digit_value_digit36 by lia.
      split; [|lia]. f_equal. rewrite Z.pow_add_r, Z.pow_1_r by lia. nia.
Qed.

(** The digits [toString(radix)] writes read back as the number: enough
    fuel is given, and two numbers have the same text only when equal. *)
Lemma number_of_toStringRadix (radix n : Z) :
  2 <= radix <= 36 -> 0 <= n -> number_of radix (toStringRadix radix n) = n.
Proof.
  intros Hr Hn. unfold toStringRadix, number_of.
  destruct (Z.ltb_spec n 0); [lia|].
  destruct (digits_fold radix (S (Z.to_nat (Z.log2 n))) Hr n [] 0) as (k & -> & _).
  - rewrite Nat2Z.inj_succ, Z2Nat.id by apply Z.log2_nonneg.
    destruct (Z.eq_dec n 0) as [->|]; [simpl; lia|].
    pose proof (Z.log2_spec n ltac:(lia)). lia.
  - reflexivity.
Qed.

(** ** Identity *)

Lemma ToInt32_range (x : Z) : -2147483648 <= ToInt32 x < 2147483648.
Proof.
  unfold ToInt32. pose proof (Z.mod_pos_bound x 4294967296 eq_refl).
  destruct (Z.leb_spec 2147483648 (x mod 4294967296)); lia.
Qed.

Lemma ToInt32_spec (x : Z) : exists k, ToInt32 x = x + k * 4294967296.
Proof.
  unfold ToInt32. pose proof (Z.div_mod x 4294967296 ltac:(lia)) as E.
  destruct (Z.leb_spec 2147483648 (x mod 4294967296)).
  - exists (- (x / 4294967296) - 1). lia.
  - exists (- (x / 4294967296)). lia.
Qed.

Lemma ToInt32_add_multiple (x k : Z) : ToInt32 (x + k * 4294967296) = ToInt32 x.
Proof. unfold ToInt32. now rewrite Z_mod_plus_full. Qed.

(** The loop of [hashEmail] is the usual [31 * hash + char] on 32 bits. *)
Lemma hash_step_31 (hash char : Z) :
  hash_step hash char = ToInt32 (31 * hash + char).
Proof.
  unfold hash_step. rewrite Z.land_diag, Z.shiftl_mul_pow2 by lia.
  destruct (ToInt32_spec hash) as [k Hk].
  destruct (ToInt32_spec (ToInt32 hash * 2 ^ 5)) as [k' Hk'].
  rewrite Hk', Hk.
  replace ((hash + k * 4294967296) * 2 ^ 5 + k' * 4294967296 - hash + char)
    with (31 * hash + char + (32 * k + k') * 4294967296) by lia.
  apply ToInt32_add_multiple.
Qed.

(** The numbers the loop computes stay far below [2 ^ 53]: the doubles of
    JavaScript represent them exactly. *)
Lemma hash_step_exact (hash char : Z) :
  -2147483648 <= hash < 2147483648 ->
  0 <= char < 65536 ->
  Z.abs (ToInt32 (Z.shiftl (ToInt32 hash) 5) - hash + char) < 2 ^ 53.
Proof.
  intros Hh Hc. pose proof (ToInt32_range (Z.shiftl (ToInt32 hash) 5)).
  change (2 ^ 53) with 9007199254740992. lia.
Qed.

Lemma hash_range (email : jsstring) :
  -2147483648 <= fold_left hash_step email 0 < 2147483648.
Proof.
  induction email as [|c email IH] using rev_ind; simpl; [lia|].
  rewrite fold_left_app. simpl. rewrite hash_step_31. apply ToInt32_range.
Qed.

(** C6: with a (non-empty) [customer_email] in the launch parameters, the
    user id is ["user_"] followed by the base-36 digits of the absolute value
    of a hash that is computed from the code units of the email alone; it is
    the same on any two page loads, whatever the storage holds and whatever
    the random source yields, and each call stores it. *)
Theorem getPersistentUserId_email (params1 params2 : list (jsstring * jsstring))
    (email rnd1 rnd2 : jsstring) (ls1 ls2 : gmap jsstring jsstring) :
  email <> [] ->
  params_get params1 (jstr "customer_email") = VStr email ->
  params_get params2 (jstr "customer_email") = VStr email ->
  let r1 := getPersistentUserId params1 rnd1 ls1 in
  let r2 := getPersistentUserId params2 rnd2 ls2 in
  fst r1 = jstr "user_" ++ toStringRadix 36 (Z.abs (fold_left hash_step email 0))
  /\ fst r1 = hashEmail email
  /\ fst r2 = fst r1
  /\ snd r1 !! STORAGE_KEY_USER_ID = Some (fst r1)
  /\ snd r2 !! STORAGE_KEY_USER_ID = Some (fst r1).
Proof.
  intros Hne H1 H2. unfold getPersistentUserId. rewrite H1, H2.
  destruct email as [|c email]; [contradiction|]. simpl.
  repeat split; apply lookup_insert_eq.
Qed.

(** The theorem for the email [ab], on an empty storage and on a storage that
    holds an anonymous id. *)
Lemma getPersistentUserId_email_witness :
  let params := [(jstr "customer_email", jstr "ab")] in
  let stale := {[STORAGE_KEY_USER_ID := jstr "user_k3x9qa"]} in
  fst (getPersistentUserId params (jstr "f00ba4") ∅) = jstr "user_2e9"
  /\ fst (getPersistentUserId params (jstr "zzzzzz") stale) = jstr "user_2e9"
  /\ snd (getPersistentUserId params (jstr "zzzzzz") stale) !! STORAGE_KEY_USER_ID
     = Some (jstr "user_2e9").
Proof.
  intros params stale.
  destruct (getPersistentUserId_email params params (jstr "ab")
              (jstr "f00ba4") (jstr "zzzzzz") ∅ stale)
    as (_ & E1 & E2 & _ & E3); [discriminate | reflexivity | reflexivity |].
  rewrite E2, E1 in *. split; [|split]; [reflexivity | reflexivity | exact E3].
Defined.

(** ** Classification of stream events *)

Lemma parts_of_nullish (event : value) :
  nullish event = true -> parts_of event = VArr [].
Proof. destruct event; simpl; intros H; try discriminate; reflexivity. Qed.

Lemma iterate_parts_nonempty (event part : value) (parts : list value) :
  iterate (parts_of event) = Ok (part :: parts) -> nullish event = false.
Proof.
  destruct (nullish event) eqn:E; [|reflexivity].
  rewrite parts_of_nullish by assumption. discriminate.
Qed.

Lemma get_not_nullish (v : value) (k : jsstring) :
  nullish v = false -> get v k = Ok (get_opt v k).
Proof. unfold get, get_opt. now intros ->. Qed.

Lemma decides_not_nullish (event part : value) (ty : EventType) :
  decides event part = Some ty -> nullish part = false.
Proof. destruct part; simpl; try reflexivity; discriminate. Qed.

Lemma parse_parts_skip (event : value) (pre rest : list value) :
  Forall (skipped event) pre ->
  parse_parts event (pre ++ rest) = parse_parts event rest.
Proof.
  induction 1 as [|part pre [Hn Hd] _ IH]; [reflexivity|].
  simpl. rewrite !(get_not_nullish part) by assumption. simpl.
  unfold decides, carries, carries_text in Hd.
  destruct (truthy (get_opt part (jstr "functionCall"))); [discriminate|].
  destruct (truthy (get_opt part (jstr "functionResponse"))); [discriminate|].
  destruct (get_opt part (jstr "text")) as [| | | |s| |]; try exact IH.
  simpl in Hd. destruct (trim s); [exact IH | discriminate].
Qed.

Lemma parse_parts_decided (event part : value) (rest : list value) (ty : EventType) :
  nullish event = false ->
  decides event part = Some ty ->
  exists p, parse_parts event (part :: rest) = Ok p /\ type_of p = ty.
Proof.
  intros He Hd. pose proof (decides_not_nullish _ _ _ Hd) as Hn.
  simpl. rewrite !(get_not_nullish part) by assumption. simpl.
  unfold decides, carries, carries_text in Hd.
  destruct (truthy (get_opt part (jstr "functionCall"))).
  { injection Hd as <-. eauto. }
  destruct (truthy (get_opt part (jstr "functionResponse"))).
  { injection Hd as <-. eauto. }
  destruct (get_opt part (jstr "text")) as [| | | |s| |]; try discriminate.
  simpl in Hd. destruct (trim s) as [|c r]; [discriminate|].
  injection Hd as <-. rewrite get_not_nullish by assumption. simpl.
  eexists; split; [reflexivity|]. unfold text_type.
  now destruct (truthy (get_opt event (jstr "partial"))).
Qed.

Lemma parse_parts_none (event : value) (parts : list value) :
  Forall (skipped event) parts -> parse_parts event parts = Ok (Thinking event).
Proof.
  intros H. rewrite <- (app_nil_r parts). now rewrite parse_parts_skip.
Qed.

Lemma parse_parts_total (event : value) (parts : list value) :
  nullish event = false ->
  Forall (fun part => nullish part = false) parts ->
  exists p, parse_parts event parts = Ok p.
Proof.
  intros He. induction 1 as [|part parts Hn _ IH]; simpl; [eauto|].
  rewrite !(get_not_nullish part) by assumption. simpl.
  destruct (truthy (get_opt part (jstr "functionCall"))); [eauto|].
  destruct (truthy (get_opt part (jstr "functionResponse"))); [eauto|].
  destruct (get_opt part (jstr "text")) as [| | | |s| |]; try exact IH.
  destruct (trim s); [exact IH|].
  rewrite get_not_nullish by assumption. simpl. eauto.
Qed.

Lemma parse_parts_text (event : value) (parts : list value)
    (partial : bool) (txt : jsstring) (raw : value) :
  parse_parts event parts = Ok (Text partial txt raw) ->
  txt <> [] /\ trim txt = txt.
Proof.
  induction parts as [|part parts IH]; simpl; [discriminate|].
  destruct (get part (jstr "functionCall")) as [fc|]; simpl; [|discriminate].
  destruct (truthy fc); [discriminate|].
  destruct (get part (jstr "functionResponse")) as [fr|]; simpl; [|discriminate].
  destruct (truthy fr); [discriminate|].
  destruct (get part (jstr "text")) as [t|]; simpl; [|discriminate].
  destruct t as [| | | |s| |]; try exact IH.
  destruct (trim s) as [|c r] eqn:E; [exact IH|].
  destruct (get event (jstr "partial")); simpl; [|discriminate].
  intros [= _ <- _]. split; [discriminate|]. rewrite <- E. apply trim_idem.
Qed.

Lemma type_of_not_error (p : parsed) :
  In (type_of p) [FUNCTION_CALL; FUNCTION_RESPONSE; TEXT; TEXT_PARTIAL; THINKING].
Proof. destruct p as [| |[]|]; simpl; tauto. Qed.

Lemma parse_parts_null (event : value) (pre post : list value) (part : value) :
  Forall (skipped event) pre ->
  nullish part = true ->
  exists e, parse_parts event (pre ++ part :: post) = Throw e.
Proof.
  intros Hpre Hn. rewrite parse_parts_skip by assumption.
  simpl. unfold get. rewrite Hn. simpl. eauto.
Qed.

(** The parts of an event are all skipped, or the first that is not skipped
    is [null] (or [undefined]) or decides. *)
Lemma first_part_cases (event : value) (parts : list value) :
  Forall (skipped event) parts
  \/ exists pre part post,
       parts = pre ++ part :: post
       /\ Forall (skipped event) pre
       /\ (nullish part = true \/ exists ty, decides event part = Some ty).
Proof.
  induction parts as [|part parts IH]; [left; constructor|].
  destruct (nullish part) eqn:Hn.
  { right. exists [], part, parts. repeat split; auto. }
  destruct (decides event part) as [ty|] eqn:Hd.
  { right. exists [], part, parts. repeat split; eauto. }
  destruct IH as [IH|(pre & part' & post & -> & Hpre & H)].
  - left. constructor; [split|]; assumption.
  - right. exists (part :: pre), part', post.
    repeat split; [constructor; [split|]; assumption | exact H].
Qed.

Lemma parse_parts_throws (event : value) (parts : list value) (e : error) :
  nullish event = false \/ parts = [] ->
  parse_parts event parts = Throw e ->
  exists pre part post,
    parts = pre ++ part :: post /\ Forall (skipped event) pre /\ nullish part = true.
Proof.
  intros He H.
  destruct (first_part_cases event parts) as [Hall|(pre & part & post & -> & Hpre & Hp)].
  - rewrite parse_parts_none in H by assumption. discriminate.
  - destruct Hp as [Hn|[ty Hd]]; [now exists pre, part, post|].
    assert (nullish event = false) as He'
      by (destruct He as [He|He]; [exact He | now destruct pre]).
    rewrite parse_parts_skip in H by assumption.
    destruct (parse_parts_decided event part post ty He' Hd) as (p & Hp & _).
    congruence.
Qed.

(** C3, as stated, fails: a payload whose first part carries text and whose
    second part carries a function call is classified [text], although a
    part of it carries a function call. *)
Lemma parseEvent_precedence_counterexample :
  exists parts p,
    iterate (parts_of text_then_call) = Ok parts
    /\ existsb (carries "functionCall") parts = true
    /\ parseEvent text_then_call = Ok p
    /\ type_of p = TEXT
    /\ type_of p <> precedence_type text_then_call parts.
Proof.
  eexists; eexists. split; [reflexivity|]. split; [reflexivity|].
  split; [reflexivity|]. split; [reflexivity|]. vm_compute. discriminate.
Qed.

(** C3, amended: for an event whose parts can be iterated, the parts are
    visited in order. A part that is not [null] and carries neither a
    function call, nor a function response, nor text that is not blank is
    skipped; the first part that is not skipped decides. If it carries a
    function call the event is [function_call], else if it carries a function
    response [function_response], else if it carries text that is not blank
    [text] ([text_partial] when the event is marked partial); if it is [null]
    or [undefined], [parseEvent] throws. An event all of whose parts are
    skipped is [thinking]. On parts that cannot be iterated [parseEvent]
    throws. One of these cases always applies. *)
Theorem parseEvent_first_deciding_part (event : value) :
  (forall e, iterate (parts_of event) = Throw e -> parseEvent event = Throw e)
  /\ forall parts,
      iterate (parts_of event) = Ok parts ->
      (forall pre part post ty,
          parts = pre ++ part :: post ->
          Forall (skipped event) pre ->
          decides event part = Some ty ->
          exists p, parseEvent event = Ok p /\ type_of p = ty)
      /\ (forall pre part post,
            parts = pre ++ part :: post ->
            Forall (skipped event) pre ->
            nullish part = true ->
            exists e, parseEvent event = Throw e)
      /\ (Forall (skipped event) parts -> parseEvent event = Ok (Thinking event))
      /\ (Forall (skipped event) parts
          \/ exists pre part post,
               parts = pre ++ part :: post
               /\ Forall (skipped event) pre
               /\ (nullish part = true \/ exists ty, decides event part = Some ty)).
Proof.
  split.
  { intros e H. unfold parseEvent. now rewrite H. }
  intros parts Hparts. unfold parseEvent. rewrite Hparts. simpl.
  split; [|split; [|split]].
  - intros pre part post ty -> Hpre Hd.
    rewrite parse_parts_skip by assumption.
    apply parse_parts_decided; [|assumption].
    destruct pre; simpl in Hparts; eapply iterate_parts_nonempty; eassumption.
  - intros pre part post -> Hpre Hn. now apply parse_parts_null.
  - apply parse_parts_none.
  - apply first_part_cases.
Qed.

(** The theorem on two events of two parts: the first part decides, be it
    text before a function call or [null] before a function call. *)
Lemma parseEvent_first_deciding_part_witness :
  (exists p, parseEvent text_then_call = Ok p /\ type_of p = TEXT)
  /\ (exists e, parseEvent null_then_call = Throw e).
Proof.
  split.
  - refine (proj1 (proj2 (parseEvent_first_deciding_part text_then_call) _ eq_refl)
                  [] _ _ TEXT eq_refl _ _).
    + constructor.
    + vm_compute. reflexivity.
  - refine (proj1 (proj2 (proj2 (parseEvent_first_deciding_part null_then_call)
                            _ eq_refl))
                  [] VNull _ eq_refl _ eq_refl).
    constructor.
Defined.

(** C10, as stated, fails: an event with a [null] part is not classified,
    [parseEvent] throws on it. *)
Lemma parseEvent_total_counterexample :
  ~ exists p, parseEvent null_part = Ok p.
Proof. intros [p H]. vm_compute in H. discriminate. Qed.

(** ** The read loop *)

Lemma on_event_ok (Date_now : nat -> Z) (eventData : value) (h : hook) (t : turn)
    (p : parsed) :
  parseEvent eventData = Ok p ->
  exists h',
    on_event Date_now eventData (h, t)
    = Ok (h', Turn (buffer t) (allEvents t ++ [p])
                   (match p with Text _ txt _ => txt | _ => accumulatedText t end))
    /\ messages h' = messages h
    /\ streamingText h' = (match p with Text _ txt _ => txt | _ => streamingText h end)
    /\ liveEvents h'
       = liveEvents h
         ++ (if is_live p
             then [LiveEvent p (Date_now (clock_reads h)) (Date_now (S (clock_reads h)))]
             else []).
Proof.
  intros Hp. unfold on_event. rewrite Hp. simpl.
  destruct h; destruct p; simpl; eexists;
    (split; [reflexivity|]); simpl; rewrite ?app_nil_r; auto.
Qed.

Lemma on_event_throw (Date_now : nat -> Z) (eventData : value) (st : hook * turn)
    (e : error) :
  parseEvent eventData = Throw e -> on_event Date_now eventData st = Throw e.
Proof. intros H. destruct st. unfold on_event. now rewrite H. Qed.

Lemma on_data_throw (Date_now : nat -> Z) (eventData : value) (st : hook * turn)
    (e : error) :
  parseEvent eventData = Throw e -> on_data Date_now st eventData = st.
Proof. intros H. unfold on_data. now rewrite (on_event_throw _ _ _ _ H). Qed.

(** C10, amended: classification is not total. [parseEvent] throws exactly
    when the parts cannot be iterated, or when a part that is [null] or
    [undefined] is reached, every part before it being skipped; the read
    loop then skips the record and leaves the state as it was. On every
    other event (a missing content, missing or empty parts, a [null] part
    after the part that decides) the event gets one of the five types,
    [thinking] when its content or its parts are missing or empty or when its
    parts carry only blank text. The text of a [text] or [text_partial]
    event is trimmed and not empty, so a line of the stream leaves the
    streaming-text buffer as it is or sets it to text that is not blank. *)
Theorem parseEvent_total_on_parts (JSON_parse : jsstring -> res value)
    (Date_now : nat -> Z) (event : value) :
  ((exists e, parseEvent event = Throw e) <->
   (exists e, iterate (parts_of event) = Throw e)
   \/ exists parts pre part post,
        iterate (parts_of event) = Ok parts
        /\ parts = pre ++ part :: post
        /\ Forall (skipped event) pre
        /\ nullish part = true)
  /\ (forall p,
        parseEvent event = Ok p ->
        In (type_of p) [FUNCTION_CALL; FUNCTION_RESPONSE; TEXT; TEXT_PARTIAL; THINKING])
  /\ (forall parts,
      iterate (parts_of event) = Ok parts ->
      Forall (fun part => nullish part = false) parts ->
      exists p, parseEvent event = Ok p
                /\ In (type_of p)
                      [FUNCTION_CALL; FUNCTION_RESPONSE; TEXT; TEXT_PARTIAL; THINKING])
  /\ (nullish (get_opt (get_opt event (jstr "content")) (jstr "parts")) = true
      \/ get_opt (get_opt event (jstr "content")) (jstr "parts") = VArr [] ->
      parseEvent event = Ok (Thinking event))
  /\ (forall parts,
      iterate (parts_of event) = Ok parts ->
      Forall (fun part => nullish part = false
                          /\ carries "functionCall" part = false
                          /\ carries "functionResponse" part = false
                          /\ carries_text part = false) parts ->
      parseEvent event = Ok (Thinking event))
  /\ (forall partial txt raw,
      parseEvent event = Ok (Text partial txt raw) -> txt <> [] /\ trim txt = txt)
  /\ (forall e st, parseEvent event = Throw e -> on_event Date_now event st = Throw e)
  /\ (forall e st, parseEvent event = Throw e -> on_data Date_now st event = st)
  /\ (forall e st line,
      startsWith line (jstr "data: ") = true ->
      JSON_parse (slice_from 6 line) = Ok event ->
      parseEvent event = Throw e ->
      on_line JSON_parse Date_now st line = st)
  /\ (forall st line,
      let st' := on_line JSON_parse Date_now st line in
      streamingText (fst st') = streamingText (fst st)
      \/ (streamingText (fst st') <> []
          /\ trim (streamingText (fst st')) = streamingText (fst st'))).
Proof.
  split; [|split; [|repeat split]].
  - unfold parseEvent. split.
    + intros [e H]. destruct (iterate (parts_of event)) as [parts|e'] eqn:Hparts;
        [|left; eauto].
      right. simpl in H. apply parse_parts_throws in H as (pre & part & post & E & Hp & Hn).
      * exists parts, pre, part, post. auto.
      * destruct parts as [|part parts']; [now right|].
        left. eapply iterate_parts_nonempty; eassumption.
    + intros [[e H]|(parts & pre & part & post & H & -> & Hpre & Hn)]; rewrite H; simpl.
      * eauto.
      * now apply parse_parts_null.
  - intros p _. apply type_of_not_error.
  - intros parts Hparts Hall. unfold parseEvent. rewrite Hparts. simpl.
    destruct parts as [|part parts].
    + eexists. split; [reflexivity|]. simpl; tauto.
    + destruct (parse_parts_total event (part :: parts)) as [p Hp];
        [eapply iterate_parts_nonempty; eassumption | assumption |].
      exists p. split; [assumption | apply type_of_not_error].
  - unfold parseEvent, parts_of. intros [H| ->]; [rewrite H|]; reflexivity.
  - intros parts Hparts Hall. unfold parseEvent. rewrite Hparts. simpl.
    apply parse_parts_none. eapply Forall_impl; [exact Hall|].
    intros part (Hn & Hc & Hr & Ht). split; [assumption|].
    unfold decides. now rewrite Hc, Hr, Ht.
  - unfold parseEvent in H. destruct (iterate (parts_of event)); [|discriminate].
    apply parse_parts_text in H. tauto.
  - unfold parseEvent in H. destruct (iterate (parts_of event)); [|discriminate].
    apply parse_parts_text in H. tauto.
  - intros e st. apply on_event_throw.
  - intros e st. apply on_data_throw.
  - intros e st line Hl Hj He. unfold on_line. rewrite Hl, Hj.
    eapply on_data_throw, He.
  - intros [h t] line st'. subst st'. unfold on_line.
    destruct (startsWith line (jstr "data: ")); [|now left].
    destruct (JSON_parse (slice_from 6 line)) as [eventData|]; [|now left].
    unfold on_data. destruct (parseEvent eventData) as [p|e] eqn:Hp.
    + destruct (on_event_ok Date_now eventData h t p Hp) as (h' & -> & _ & Hs & _).
      simpl. rewrite Hs. destruct p as [| |partial txt raw|]; try now left.
      right. unfold parseEvent in Hp.
      destruct (iterate (parts_of eventData)); [|discriminate].
      now apply parse_parts_text in Hp.
    + rewrite (on_event_throw _ _ _ _ Hp). now left.
Qed.

(** The theorem on two events with a [null] part: after the text the
    [null] is not reached and the event is classified; before the function
    call it makes [parseEvent] throw, and the record is skipped. *)
Lemma parseEvent_total_on_parts_witness :
  (exists p, parseEvent text_then_null = Ok p
             /\ In (type_of p)
                   [FUNCTION_CALL; FUNCTION_RESPONSE; TEXT; TEXT_PARTIAL; THINKING])
  /\ (exists e, parseEvent null_then_call = Throw e)
  /\ on_line (parse_table [null_then_call]) (fun _ => 0) (fresh, Turn [] [] [])
             (jstr "data: " ++ json_text null_then_call)
     = (fresh, Turn [] [] []).
Proof.
  split; [|split].
  - exists (Text false (jstr "hi") text_then_null).
    assert (parseEvent text_then_null = Ok (Text false (jstr "hi") text_then_null)) as H
      by (vm_compute; reflexivity).
    split; [exact H|].
    exact (proj1 (proj2 (parseEvent_total_on_parts (fun _ => Ok VNull) (fun _ => 0)
                           text_then_null)) _ H).
  - refine (proj2 (proj1 (parseEvent_total_on_parts (fun _ => Ok VNull) (fun _ => 0)
                            null_then_call)) _).
    right. exists [VNull; VObj [(jstr "functionCall",
                                 VObj [(jstr "name", VStr (jstr "search_products"))])]],
             [], VNull,
             [VObj [(jstr "functionCall",
                     VObj [(jstr "name", VStr (jstr "search_products"))])]].
    split; [reflexivity|]. split; [reflexivity|]. split; [constructor | reflexivity].
  - refine (proj1 (proj2 (proj2 (proj2 (proj2 (proj2 (proj2 (proj2 (proj2
              (parseEvent_total_on_parts (parse_table [null_then_call]) (fun _ => 0)
                 null_then_call)))))))))
              (TypeError "cannot read properties of null or undefined") _ _ _ _ _).
    + reflexivity.
    + vm_compute. reflexivity.
    + vm_compute. reflexivity.
Defined.

(** ** Records of the stream *)

Lemma split_no_sep (sep : Z) (s r : jsstring) :
  Forall (fun c => c <> sep) s ->
  split sep (s ++ sep :: r) = s :: split sep r.
Proof.
  induction 1 as [|c s Hc _ IH]; simpl.
  - now rewrite Z.eqb_refl.
  - destruct (Z.eqb_spec c sep); [contradiction|]. now rewrite IH.
Qed.

(** A chunk that holds one whole record, [data: ] and a JSON text on one
    line followed by an empty line, is one round of [on_data]. *)
Lemma on_chunk_record (JSON_parse : jsstring -> res value) (Date_now : nat -> Z)
    (json : jsstring) (e : value) (h : hook) (t : turn) :
  buffer t = [] ->
  Forall (fun c => c <> 10) json ->
  JSON_parse json = Ok e ->
  on_chunk JSON_parse Date_now (jstr "data: " ++ json ++ [10; 10]) (h, t)
  = on_data Date_now (h, t) e.
Proof.
  intros Hb Hj Hp. unfold on_chunk. rewrite Hb. cbn [app].
  replace (jstr "data: " ++ json ++ [10; 10])
    with ((jstr "data: " ++ json) ++ 10 :: [] ++ 10 :: []) by now rewrite <- app_assoc.
  rewrite split_no_sep.
  2:{ apply Forall_app. split; [|assumption].
      vm_compute. repeat constructor; discriminate. }
  rewrite (split_no_sep 10 [] []) by constructor.
  cbn [split pop last removelast fold_left].
  assert (on_line JSON_parse Date_now
            (h, Turn [] (allEvents t) (accumulatedText t)) (jstr "data: " ++ json)
          = on_data Date_now (h, t) e) as ->.
  { unfold on_line.
    assert (startsWith (jstr "data: " ++ json) (jstr "data: ") = true) as ->
      by (vm_compute; reflexivity).
    change (slice_from 6 (jstr "data: " ++ json)) with json. rewrite Hp.
    destruct t. simpl in Hb. now subst. }
  unfold on_line. reflexivity.
Qed.

(** ** One turn: reduction of the stream and its end *)

Lemma on_data_classified (Date_now : nat -> Z) (e : value) (p : parsed)
    (h : hook) (t : turn) :
  parseEvent e = Ok p ->
  exists h',
    on_data Date_now (h, t) e
    = (h', Turn (buffer t) (allEvents t ++ [p]) (last_text [p] (accumulatedText t)))
    /\ messages h' = messages h
    /\ status h' = status h
    /\ aiPaused h' = aiPaused h
    /\ streamingText h' = last_text [p] (streamingText h)
    /\ map le_event (liveEvents h')
       = map le_event (liveEvents h) ++ List.filter is_live [p].
Proof.
  intros Hp. unfold on_data, on_event. rewrite Hp. simpl.
  destruct h; destruct p; simpl; eexists;
    (split; [reflexivity|]); simpl; rewrite ?map_app, ?app_nil_r; repeat split.
Qed.

(** The read loop over events that all classify. *)
Lemma reduce_classified (Date_now : nat -> Z) (es : list value) (ps : list parsed) :
  Forall2 (fun e p => parseEvent e = Ok p) es ps ->
  forall h t,
  exists h',
    fold_left (on_data Date_now) es (h, t)
    = (h', Turn (buffer t) (allEvents t ++ ps) (last_text ps (accumulatedText t)))
    /\ messages h' = messages h
    /\ status h' = status h
    /\ aiPaused h' = aiPaused h
    /\ streamingText h' = last_text ps (streamingText h)
    /\ map le_event (liveEvents h')
       = map le_event (liveEvents h) ++ List.filter is_live ps.
Proof.
  induction 1 as [|e p es ps Hp _ IH]; intros h t.
  - exists h. destruct t. simpl. rewrite !app_nil_r. repeat split.
  - destruct (on_data_classified Date_now e p h t Hp)
      as (h1 & E1 & Hm1 & Hs1 & Ha1 & Ht1 & Hl1).
    simpl fold_left. rewrite E1.
    destruct (IH h1 (Turn (buffer t) (allEvents t ++ [p])
                          (last_text [p] (accumulatedText t))))
      as (h2 & E2 & Hm2 & Hs2 & Ha2 & Ht2 & Hl2).
    exists h2. rewrite E2. simpl buffer. simpl allEvents. simpl accumulatedText.
    rewrite <- app_assoc. simpl app.
    rewrite Hm2, Hs2, Ha2, Ht2, Hl2, Hm1, Hs1, Ha1, Ht1, Hl1.
    simpl. destruct (is_live p); simpl; rewrite <- ?app_assoc, ?app_nil_r; repeat split.
Qed.

Lemma messages_finally (a : value) (h : hook) :
  messages (finally_ a h) = messages h.
Proof. unfold finally_. destruct h, (truthy a); reflexivity. Qed.

Lemma aiPaused_finally (a : value) (h : hook) :
  aiPaused (finally_ a h) = aiPaused h.
Proof. unfold finally_. destruct h, (truthy a); reflexivity. Qed.

Lemma status_finally (a : value) (h : hook) :
  status (finally_ a h) = if truthy a then human_mode else idle.
Proof. unfold finally_. destruct h, (truthy a); reflexivity. Qed.

(** A turn whose candidate final text is empty or the pause sentinel:
    nothing is appended, the flag is set, and the status is the one the
    [finally] clause picks from the [aiPaused] the callback closed over. *)
Lemma finalize_paused (a : value) (t : turn) (h : hook) :
  finalText t = [] \/ finalText t = AI_PAUSED ->
  messages (finalize a t h) = messages h
  /\ aiPaused (finalize a t h) = VBool true
  /\ status (finalize a t h) = if truthy a then human_mode else idle.
Proof.
  intros H. unfold finalize, finish.
  assert (str_eqb (finalText t) AI_PAUSED
          || negb (truthy (VStr (trim (finalText t)))) = true) as ->.
  { destruct H as [-> | ->]; reflexivity. }
  simpl. rewrite messages_finally, aiPaused_finally, status_finally.
  destruct h; auto.
Qed.

(** A turn whose candidate final text is shown. *)
Lemma finalize_shown (a : value) (t : turn) (h : hook) (products : list value) :
  finalText t <> AI_PAUSED ->
  trim (finalText t) <> [] ->
  extractProducts (allEvents t) = Ok products ->
  messages (finalize a t h)
  = messages h ++ [Message agent (VStr (finalText t)) VUndef VUndef
                           (Some products)
                           (Some (List.filter is_function_call (allEvents t)))
                           (Some (allEvents t))].
Proof.
  intros Hs Ht Hp. unfold finalize, finish.
  unfold str_eqb. rewrite bool_decide_eq_false_2 by assumption.
  destruct (trim (finalText t)) eqn:E; [contradiction|].
  rewrite Hp. simpl. rewrite messages_finally. destruct h; reflexivity.
Qed.

Lemma parseEvent_text (e : value) (partial : bool) (txt : jsstring) (raw : value) :
  parseEvent e = Ok (Text partial txt raw) -> txt <> [] /\ trim txt = txt.
Proof.
  unfold parseEvent. destruct (iterate (parts_of e)); [|discriminate].
  apply parse_parts_text.
Qed.

Lemma on_data_exact (Date_now : nat -> Z) (e : value) (p : parsed)
    (h : hook) (t : turn) :
  parseEvent e = Ok p ->
  exists h',
    on_data Date_now (h, t) e
    = (h', Turn (buffer t) (allEvents t ++ [p])
                (match p with Text _ txt _ => txt | _ => accumulatedText t end))
    /\ messages h' = messages h
    /\ streamingText h' = (match p with Text _ txt _ => txt | _ => streamingText h end)
    /\ liveEvents h'
       = liveEvents h
         ++ (if is_live p
             then [LiveEvent p (Date_now (clock_reads h)) (Date_now (S (clock_reads h)))]
             else []).
Proof.
  intros Hp. destruct (on_event_ok Date_now e h t p Hp) as (h' & E & H).
  exists h'. unfold on_data. now rewrite E.
Qed.

(** C1, as stated, fails: when the final text event carries the pause
    sentinel, the turn appends no message at all. *)
Lemma turn_call_partials_text_counterexample :
  let stream := [call_event "search_products"; partial_event "Let";
                 partial_event "Let me"; partial_event "Let me see";
                 text_event "__AI_PAUSED__"] in
  let st := fold_left (on_data (fun _ => 0)) stream (fresh, Turn [] [] []) in
  mapM parseEvent stream
  = Ok [FunctionCall (VStr (jstr "search_products")) (VObj [])
                     (call_event "search_products");
        Text true (jstr "Let") (partial_event "Let");
        Text true (jstr "Let me") (partial_event "Let me");
        Text true (jstr "Let me see") (partial_event "Let me see");
        Text false AI_PAUSED (text_event "__AI_PAUSED__")]
  /\ messages (finalize (VBool false) (snd st) (fst st)) = messages fresh.
Proof. split; vm_compute; reflexivity. Qed.

(** C1, amended: a turn whose stream is one function-call event, three
    partial-text events and one final text event whose text is not the pause
    sentinel records one live-activity entry, the one of the function call;
    each text event replaces the streaming-text buffer by its own text; and
    the end of the turn appends one agent message, whose text is the text of
    the final event. *)
Theorem turn_call_partials_text (Date_now : nat -> Z) (a : value) (h : hook)
    (e0 e1 e2 e3 e4 : value) (name args raw0 r1 r2 r3 r4 : value)
    (t1 t2 t3 t4 : jsstring) :
  parseEvent e0 = Ok (FunctionCall name args raw0) ->
  parseEvent e1 = Ok (Text true t1 r1) ->
  parseEvent e2 = Ok (Text true t2 r2) ->
  parseEvent e3 = Ok (Text true t3 r3) ->
  parseEvent e4 = Ok (Text false t4 r4) ->
  t4 <> AI_PAUSED ->
  let stream := [e0; e1; e2; e3; e4] in
  let after k := fold_left (on_data Date_now) (firstn k stream) (h, Turn [] [] []) in
  let call := FunctionCall name args raw0 in
  let all := [call; Text true t1 r1; Text true t2 r2; Text true t3 r3; Text false t4 r4] in
  liveEvents (fst (after 5%nat))
  = liveEvents h ++ [LiveEvent call (Date_now (clock_reads h))
                               (Date_now (S (clock_reads h)))]
  /\ streamingText (fst (after 1%nat)) = streamingText h
  /\ streamingText (fst (after 2%nat)) = t1
  /\ streamingText (fst (after 3%nat)) = t2
  /\ streamingText (fst (after 4%nat)) = t3
  /\ streamingText (fst (after 5%nat)) = t4
  /\ messages (fst (after 5%nat)) = messages h
  /\ messages (finalize a (snd (after 5%nat)) (fst (after 5%nat)))
     = messages h ++ [Message agent (VStr t4) VUndef VUndef
                              (Some []) (Some [call]) (Some all)].
Proof.
  intros H0 H1 H2 H3 H4 Hs stream after call all. subst stream after all call.
  cbn [firstn fold_left].
  destruct (on_data_exact Date_now e0 _ h (Turn [] [] []) H0)
    as (h1 & E0 & M1 & S1 & L1).
  cbn [buffer allEvents accumulatedText app] in E0. rewrite !E0.
  destruct (on_data_exact Date_now e1 _ h1 (Turn [] [FunctionCall name args raw0] []) H1)
    as (h2 & E1 & M2 & S2 & L2).
  cbn [buffer allEvents accumulatedText app] in E1. rewrite !E1.
  match type of E1 with _ = (_, ?t) =>
    destruct (on_data_exact Date_now e2 _ h2 t H2) as (h3 & E2 & M3 & S3 & L3) end.
  cbn [buffer allEvents accumulatedText app] in E2. rewrite !E2.
  match type of E2 with _ = (_, ?t) =>
    destruct (on_data_exact Date_now e3 _ h3 t H3) as (h4 & E3 & M4 & S4 & L4) end.
  cbn [buffer allEvents accumulatedText app] in E3. rewrite !E3.
  match type of E3 with _ = (_, ?t) =>
    destruct (on_data_exact Date_now e4 _ h4 t H4) as (h5 & E4 & M5 & S5 & L5) end.
  cbn [buffer allEvents accumulatedText app] in E4. rewrite !E4.
  cbn [fst snd].
  simpl in L1, L2, L3, L4, L5. rewrite app_nil_r in L2, L3, L4, L5.
  destruct (parseEvent_text _ _ _ _ H4) as [Hne Htrim].
  repeat split; try congruence.
  rewrite (finalize_shown a _ h5 []).
  - unfold finalText. simpl. congruence.
  - exact Hs.
  - unfold finalText. simpl. now rewrite Htrim.
  - reflexivity.
Qed.

(** The theorem on a stream of sample events. *)
Lemma turn_call_partials_text_witness :
  let stream := [call_event "search_products"; partial_event "Here";
                 partial_event "Here are"; partial_event "Here are some";
                 text_event "Here are some options"] in
  let st := fold_left (on_data (fun _ => 0)) stream (fresh, Turn [] [] []) in
  length (liveEvents (fst st)) = 1%nat
  /\ streamingText (fst st) = jstr "Here are some options"
  /\ exists m, messages (finalize (VBool false) (snd st) (fst st)) = messages fresh ++ [m]
               /\ role m = agent /\ text m = VStr (jstr "Here are some options").
Proof.
  intros stream st.
  destruct (turn_call_partials_text (fun _ => 0) (VBool false) fresh
              (call_event "search_products") (partial_event "Here")
              (partial_event "Here are") (partial_event "Here are some")
              (text_event "Here are some options")
              _ _ _ _ _ _ _ _ _ _ _
              eq_refl eq_refl eq_refl eq_refl eq_refl ltac:(discriminate))
    as (L & _ & _ & _ & _ & S & _ & M).
  subst st stream. cbn [firstn] in L, S, M.
  split; [now rewrite L|]. split; [exact S|].
  eexists. split; [exact M|]. split; reflexivity.
Defined.

(** *** Products *)

Lemma has_name_and_price_ok (p : value) :
  nullish p = false -> has_name_and_price p = Ok (named_and_priced p).
Proof.
  intros Hn. unfold has_name_and_price, named_and_priced.
  rewrite !get_not_nullish by assumption. simpl.
  now destruct (truthy (get_opt p (jstr "name"))).
Qed.

Lemma filterM_has_name_and_price (l : list value) :
  Forall (fun p => nullish p = false) l ->
  filterM has_name_and_price l = Ok (List.filter named_and_priced l).
Proof.
  induction 1 as [|p l Hp _ IH]; [reflexivity|].
  simpl. rewrite has_name_and_price_ok, IH by assumption. simpl.
  now destruct (named_and_priced p).
Qed.

Lemma in_pushed_products (p : value) (evs : list parsed) :
  In p (concat (map pushed_products evs)) <->
  exists name response raw,
    In (FunctionResponse name response raw) evs
    /\ (In p (elements (get_opt response (jstr "products")))
        \/ (p = get_opt response (jstr "product") /\ truthy p = true)).
Proof.
  rewrite in_concat. split.
  - intros (l & Hl & Hp). apply in_map_iff in Hl as (ev & <- & Hev).
    destruct ev as [|name response raw| |]; simpl in Hp; try contradiction.
    exists name, response, raw. split; [assumption|].
    apply in_app_or in Hp as [Hp|Hp].
    + left. destruct (get_opt response (jstr "products")); simpl in *;
        try contradiction; try (destruct b; contradiction);
        try (destruct (negb _); contradiction);
        try (destruct s; contradiction); assumption.
    + right. destruct (truthy (get_opt response (jstr "product"))) eqn:E;
        [|contradiction].
      destruct Hp as [<-|[]]. auto.
  - intros (name & response & raw & Hev & Hp).
    exists (pushed_products (FunctionResponse name response raw)).
    split; [apply in_map; assumption|]. simpl. apply in_or_app.
    destruct Hp as [Hp|[-> Hp]].
    + left. destruct (get_opt response (jstr "products")); simpl in *;
        try contradiction. assumption.
    + right. rewrite Hp. now left.
Qed.

Lemma str_eqb_false (s t : jsstring) : s <> t -> str_eqb s t = false.
Proof. intros H. unfold str_eqb. now apply bool_decide_eq_false_2. Qed.

Lemma has_name_and_price_nullish (p : value) :
  nullish p = true ->
  has_name_and_price p = Throw (TypeError "cannot read properties of null or undefined").
Proof. intros H. unfold has_name_and_price, get. now rewrite H. Qed.

Lemma filterM_has_name_and_price_throws (l : list value) :
  Exists (fun p => nullish p = true) l ->
  filterM has_name_and_price l
  = Throw (TypeError "cannot read properties of null or undefined").
Proof.
  induction l as [|p l IH]; intros H; [inversion H|].
  simpl. destruct (nullish p) eqn:Hp.
  - now rewrite has_name_and_price_nullish.
  - rewrite has_name_and_price_ok by assumption. simpl.
    rewrite IH; [reflexivity|]. inversion H; subst; [congruence | assumption].
Qed.

Lemma finalize_thrown (a : value) (t : turn) (h : hook) (e : error) :
  finalText t <> AI_PAUSED ->
  trim (finalText t) <> [] ->
  extractProducts (allEvents t) = Throw e ->
  err_name e <> jstr "AbortError" ->
  messages (finalize a t h)
  = messages h
    ++ [plain agent (VStr ([10060] ++ jstr " Error: " ++ err_message e
                           ++ jstr ". Please check if the server is running."))].
Proof.
  intros Hs Ht Hp He. unfold finalize, finish.
  rewrite str_eqb_false by assumption.
  destruct (trim (finalText t)) eqn:E; [contradiction|].
  rewrite Hp. simpl. rewrite messages_finally. unfold catch_.
  rewrite str_eqb_false by assumption. destruct h; reflexivity.
Qed.

Lemma is_function_call_type (p : parsed) :
  is_function_call p = match type_of p with FUNCTION_CALL => true | _ => false end.
Proof. now destruct p as [| |[]|]. Qed.

(** C8, as stated, fails twice. An object that has a name and the price 0
    is not kept. And when a [products] array holds [null], there is no
    product list at all: [extractProducts] throws, and the turn ends with an
    error message that carries no products. *)
Lemma extractProducts_message_counterexample :
  let free := [response_event "search_products"
                 (VObj [(jstr "products", VArr [sofa_free])]);
               text_event "Here are some options"] in
  let holed := [response_event "search_products"
                  (VObj [(jstr "products", VArr [sofa_a; VNull])]);
                text_event "Here are some options"] in
  let turn_of stream := fold_left (on_data (fun _ => 0)) stream (fresh, Turn [] [] []) in
  (prop sofa_free (jstr "name") = VStr (jstr "Sofa B")
   /\ prop sofa_free (jstr "price") = VNum 0
   /\ extractProducts (allEvents (snd (turn_of free))) = Ok []
   /\ map products (messages (finalize (VBool false) (snd (turn_of free))
                                (fst (turn_of free))))
      = [None; Some []])
  /\ ((exists e, extractProducts (allEvents (snd (turn_of holed))) = Throw e)
      /\ map products (messages (finalize (VBool false) (snd (turn_of holed))
                                   (fst (turn_of holed))))
         = [None; None]).
Proof.
  intros free holed turn_of.
  split; [repeat split; vm_compute; reflexivity|].
  split; [eexists|]; vm_compute; reflexivity.
Qed.

(** C8, amended: the values collected from a turn are, for each of its
    function responses in order, the elements of [response.products] when
    it is an array, then [response.product] when it is truthy. When one of
    them is [null] or [undefined], [extractProducts] throws and the turn
    ends with the error message of the [catch] clause instead of the
    agent's answer. Otherwise the products are the collected values whose
    [name] and whose [price] are both truthy (a price of 0 or an empty name
    does not count), in order, and the agent message the turn appends, when
    its final text is neither blank nor the pause sentinel, carries the
    final text, these products, the events of type [function_call] as tool
    calls and all the events of the turn. *)
Theorem extractProducts_message (a : value) (t : turn) (h : hook) :
  let pushed := concat (map pushed_products (allEvents t)) in
  let products := List.filter named_and_priced pushed in
  let toolCalls :=
    List.filter (fun p => match type_of p with FUNCTION_CALL => true | _ => false end)
                (allEvents t) in
  (forall p,
      In p pushed <->
      exists name response raw,
        In (FunctionResponse name response raw) (allEvents t)
        /\ (In p (elements (get_opt response (jstr "products")))
            \/ (p = get_opt response (jstr "product") /\ truthy p = true)))
  /\ (Forall (fun p => nullish p = false) pushed ->
      extractProducts (allEvents t) = Ok products
      /\ (forall p,
            In p products <->
            (exists name response raw,
                In (FunctionResponse name response raw) (allEvents t)
                /\ (In p (elements (get_opt response (jstr "products")))
                    \/ (p = get_opt response (jstr "product") /\ truthy p = true)))
            /\ truthy (get_opt p (jstr "name")) = true
            /\ truthy (get_opt p (jstr "price")) = true)
      /\ (finalText t <> AI_PAUSED ->
          trim (finalText t) <> [] ->
          messages (finalize a t h)
          = messages h ++ [Message agent (VStr (finalText t)) VUndef VUndef
                                   (Some products) (Some toolCalls)
                                   (Some (allEvents t))]))
  /\ (Exists (fun p => nullish p = true) pushed ->
      exists e,
        extractProducts (allEvents t) = Throw e
        /\ (finalText t <> AI_PAUSED ->
            trim (finalText t) <> [] ->
            messages (finalize a t h)
            = messages h
              ++ [plain agent
                    (VStr ([10060] ++ jstr " Error: " ++ err_message e
                           ++ jstr ". Please check if the server is running."))]))
  /\ (Forall (fun p => nullish p = false) pushed
      \/ Exists (fun p => nullish p = true) pushed).
Proof.
  intros pushed products toolCalls. split; [|split; [|split]].
  - intros p. apply in_pushed_products.
  - intros Hnn.
    assert (extractProducts (allEvents t) = Ok products) as Hp
      by (apply filterM_has_name_and_price; assumption).
    split; [exact Hp|]. split.
    + intros p. subst products pushed. rewrite filter_In, in_pushed_products.
      unfold named_and_priced. rewrite andb_true_iff. tauto.
    + intros Hs Ht. rewrite (finalize_shown a t h products) by assumption.
      subst toolCalls. do 4 f_equal.
      apply List.filter_ext. intros p. apply is_function_call_type.
  - intros Hex.
    assert (extractProducts (allEvents t)
            = Throw (TypeError "cannot read properties of null or undefined")) as Hp
      by (apply filterM_has_name_and_price_throws; assumption).
    eexists. split; [exact Hp|]. intros Hs Ht.
    apply finalize_thrown; try assumption. discriminate.
  - destruct (decide (Exists (fun p => nullish p = true) pushed)) as [|N]; [now right|].
    left. apply Forall_forall. intros p Hp. destruct (nullish p) eqn:E; [|reflexivity].
    exfalso. apply N. apply Exists_exists. eauto.
Qed.

(** The theorem on the stream of scenario A: a function response with one
    product, then the text. *)
Lemma extractProducts_message_witness :
  let stream := [sofas_found; text_event "Here are some options"] in
  let st := fold_left (on_data (fun _ => 0)) stream (fresh, Turn [] [] []) in
  exists m,
    messages (finalize (VBool false) (snd st) (fst st)) = messages fresh ++ [m]
    /\ text m = VStr (jstr "Here are some options")
    /\ products m = Some [sofa_a].
Proof.
  intros stream st.
  destruct (proj1 (proj2 (extractProducts_message (VBool false) (snd st) (fst st))))
    as (_ & _ & M).
  - vm_compute. repeat constructor.
  - eexists. split; [apply M; vm_compute; discriminate|].
    split; vm_compute; reflexivity.
Defined.

(** ** The pause sentinel *)

(** C2 at a failing input: on a fresh page the user sends a message while
    the AI is not paused, and the stream answers with the pause sentinel
    alone. No agent message is appended and the flag is set, but the
    [finally] clause reads the [aiPaused] the callback closed over, [false],
    and sets the status to [idle] over the [human_mode] just set. *)
Theorem paused_turn_ends_idle :
  let paused := text_event "__AI_PAUSED__" in
  let w := run_page [paused] (jstr "k3x9qa") ∅
             [Send (jstr "Is anyone there?"); Creation 0 (created "s-1");
              Run 0 opened; Read 0 (Chunk (sse paused)); Read 0 EndOfStream] in
  messages (hk w) = [WELCOME_MESSAGE; plain user (VStr (jstr "Is anyone there?"))]
  /\ aiPaused (hk w) = VBool true
  /\ status (hk w) = idle
  /\ tasks w = [Finished].
Proof. vm_compute. repeat split. Qed.

(** The same turn sent while the AI is known to be paused ends in
    [human_mode]. *)
Example paused_turn_ends_human_mode :
  let paused := text_event "__AI_PAUSED__" in
  let status_changed :=
    VObj [(jstr "type", VStr (jstr "ai_status_changed")); (jstr "ai_paused", VBool true)] in
  let w := run_page [paused; status_changed; text_event "Hi"] (jstr "k3x9qa") ∅
             [Send (jstr "Hello"); Creation 0 (created "s-1");
              Run 0 opened; Read 0 (Chunk (sse (text_event "Hi")));
              Inbound (json_text status_changed);
              Read 0 EndOfStream;
              Send (jstr "Is anyone there?");
              Run 1 opened; Read 1 (Chunk (sse paused)); Read 1 EndOfStream] in
  map role (messages (hk w)) = [system; user; agent; user]
  /\ aiPaused (hk w) = VBool true
  /\ status (hk w) = human_mode.
Proof. vm_compute. repeat split. Qed.

(** ** What a step leaves alone *)

Lemma frames_refl (h : hook) : frames h h.
Proof. repeat split. exists []. now rewrite app_nil_r. Qed.

Lemma frames_trans (h1 h2 h3 : hook) : frames h1 h2 -> frames h2 h3 -> frames h1 h3.
Proof.
  intros ([m1 M1] & A1 & B1 & C1 & D1 & E1 & F1) ([m2 M2] & A2 & B2 & C2 & D2 & E2 & F2).
  repeat split; try congruence.
  exists (m1 ++ m2). now rewrite M2, M1, app_assoc.
Qed.

Ltac frame_setter h :=
  destruct h; repeat split; try reflexivity; simpl;
  try (exists []; now rewrite app_nil_r); eauto.

Lemma frames_setMessages_app (l : list message) (h : hook) :
  frames h (setMessages (fun prev => prev ++ l) h).
Proof. frame_setter h. Qed.
Lemma frames_setLiveEvents f (h : hook) : frames h (setLiveEvents f h).
Proof. frame_setter h. Qed.
Lemma frames_setStatus f (h : hook) : frames h (setStatus f h).
Proof. frame_setter h. Qed.
Lemma frames_setStreamingText x (h : hook) : frames h (setStreamingText x h).
Proof. frame_setter h. Qed.
Lemma frames_setAiPaused x (h : hook) : frames h (setAiPaused x h).
Proof. frame_setter h. Qed.
Lemma frames_set_abortControllerRef x (h : hook) : frames h (set_abortControllerRef x h).
Proof. frame_setter h. Qed.
Lemma frames_set_listenEventSourceRef x (h : hook) :
  frames h (set_listenEventSourceRef x h).
Proof. frame_setter h. Qed.
Lemma frames_tick (h : hook) : frames h (tick h).
Proof. frame_setter h. Qed.
Lemma frames_send_request (r : request) (h : hook) :
  is_recovery_fetch r = false -> is_creation_post r = false ->
  frames h (send_request r h).
Proof.
  intros H1 H2. destruct h; repeat split; simpl;
    try (exists []; now rewrite app_nil_r);
    unfold recovery_fetches, creation_posts; simpl;
    rewrite List.filter_app; simpl; rewrite ?H1, ?H2; now rewrite app_nil_r.
Qed.

Create HintDb frames.
#[local] Hint Resolve frames_refl frames_setMessages_app frames_setLiveEvents
  frames_setStatus frames_setStreamingText frames_setAiPaused
  frames_set_abortControllerRef frames_set_listenEventSourceRef frames_tick : frames.

Ltac frames_step := eapply frames_trans; [|solve [eauto with frames]].

Lemma frames_catch (e : error) (h : hook) : frames h (catch_ e h).
Proof. unfold catch_. destruct (negb _); auto with frames. Qed.

Lemma frames_finally (a : value) (h : hook) : frames h (finally_ a h).
Proof.
  unfold finally_. destruct (negb (truthy a)); repeat frames_step; auto with frames.
Qed.

Lemma frames_fail (a : value) (e : error) (h : hook) : frames h (fail a e h).
Proof. unfold fail. eapply frames_trans; [apply frames_catch | apply frames_finally]. Qed.

Lemma frames_finalize (a : value) (t : turn) (h : hook) : frames h (finalize a t h).
Proof.
  unfold finalize. eapply frames_trans; [|apply frames_finally].
  unfold finish.
  destruct (_ || _); simpl; [repeat frames_step; auto with frames|].
  destruct (extractProducts (allEvents t)); simpl;
    [auto with frames | apply frames_catch].
Qed.

Lemma frames_on_data (Date_now : nat -> Z) (st : hook * turn) (e : value) :
  frames (fst st) (fst (on_data Date_now st e)).
Proof.
  destruct st as [h t]. unfold on_data, on_event.
  destruct (parseEvent e) as [p|]; simpl; [|apply frames_refl].
  destruct (is_live p), p; simpl; repeat frames_step; auto with frames.
Qed.

Lemma frames_on_line JSON_parse (Date_now : nat -> Z) (st : hook * turn) (line : jsstring) :
  frames (fst st) (fst (on_line JSON_parse Date_now st line)).
Proof.
  unfold on_line. destruct (startsWith _ _); [|apply frames_refl].
  destruct (JSON_parse _); [apply frames_on_data | apply frames_refl].
Qed.

Lemma frames_on_lines JSON_parse (Date_now : nat -> Z) (lines : list jsstring)
    (st : hook * turn) :
  frames (fst st) (fst (fold_left (on_line JSON_parse Date_now) lines st)).
Proof.
  revert st. induction lines as [|line lines IH]; intros st; [apply frames_refl|].
  simpl. eapply frames_trans; [apply frames_on_line | apply IH].
Qed.

Lemma frames_on_chunk JSON_parse (Date_now : nat -> Z) (chunk : jsstring)
    (st : hook * turn) :
  frames (fst st) (fst (on_chunk JSON_parse Date_now chunk st)).
Proof.
  destruct st as [h t]. unfold on_chunk.
  destruct (pop _) as [lines rest].
  apply (frames_on_lines JSON_parse Date_now lines
           (h, Turn rest (allEvents t) (accumulatedText t))).
Qed.

Lemma frames_onmessage JSON_parse (Date_now : nat -> Z) toISOString
    (event_data : jsstring) (h : hook) :
  frames h (onmessage JSON_parse Date_now toISOString event_data h).
Proof.
  unfold onmessage. destruct (JSON_parse event_data) as [data|]; simpl;
    [|apply frames_refl].
  unfold on_inbound. destruct (get data (jstr "type")) as [type|]; simpl;
    [|apply frames_refl].
  destruct (is_str type "new_message"), (is_str type "ai_status_changed");
    try destruct (truthy (prop data (jstr "message")));
    repeat frames_step; auto with frames.
Qed.

Lemma frames_startListening (sessionId : value) (userId : jsstring) (h : hook) :
  frames h (startListening sessionId userId h).
Proof.
  unfold startListening. eapply frames_trans;
    [apply (frames_send_request (Listen sessionId userId)); reflexivity
    | auto with frames].
Qed.

Lemma frames_sendMessage_start (s : Status) (a : value) (text : jsstring) (h h' : hook) :
  sendMessage_start s a text h = Some h' -> frames h h'.
Proof.
  unfold sendMessage_start. destruct (_ || _); [discriminate|].
  intros [= <-]. destruct (truthy a); repeat frames_step; auto with frames.
Qed.

(** ** The negotiator, move by move *)

Lemma frames_view (h h' : hook) : frames h h' -> session_view h' = session_view h.
Proof.
  intros (_ & A & B & C & D & E & F). unfold session_view. congruence.
Qed.

Lemma count_snoc {A} (f : A -> bool) (l : list A) (x : A) :
  length (List.filter f (l ++ [x])) = (length (List.filter f l) + (if f x then 1 else 0))%nat.
Proof.
  rewrite List.filter_app, length_app. simpl. now destruct (f x).
Qed.

Lemma ensureSession_create_view params (h : hook) :
  snd (ensureSession_create params h) = AwaitingCreation
  /\ messages (fst (ensureSession_create params h)) = messages h
  /\ session_view (fst (ensureSession_create params h))
     = (sessionIdRef h, sessionCreatedRef h, true, localStorage h,
        recovery_fetches h, S (creation_posts h)).
Proof.
  destruct h. unfold ensureSession_create, session_view, recovery_fetches, creation_posts.
  simpl. rewrite !count_snoc. simpl. rewrite Nat.add_0_r, Nat.add_1_r. auto.
Qed.

(** The three ways a call of [ensureSession] starts. *)
Lemma ensureSession_view params (h : hook) :
  (sessionCreatedRef h = true /\ truthy (sessionIdRef h) = true
   /\ ensureSession params h = (h, Returned (sessionIdRef h)))
  \/ (sessionCreatedRef h = false /\ sessionRecoveryAttempted h = false
      /\ truthy (sessionIdRef h) = true
      /\ snd (ensureSession params h) = AwaitingRecovery
      /\ messages (fst (ensureSession params h)) = messages h
      /\ session_view (fst (ensureSession params h))
         = (sessionIdRef h, false, true, localStorage h,
            S (recovery_fetches h), creation_posts h))
  \/ ((sessionRecoveryAttempted h = true \/ truthy (sessionIdRef h) = false)
      /\ (sessionCreatedRef h = false \/ truthy (sessionIdRef h) = false)
      /\ ensureSession params h = ensureSession_create params h).
Proof.
  unfold ensureSession.
  destruct (sessionCreatedRef h) eqn:Hc, (truthy (sessionIdRef h)) eqn:Ht,
    (sessionRecoveryAttempted h) eqn:Ha; simpl; auto 10.
  right; left. destruct h. simpl in *. subst.
  unfold session_view, recovery_fetches, creation_posts. simpl.
  rewrite !count_snoc. simpl. rewrite Nat.add_0_r, Nat.add_1_r. auto 10.
Qed.

(** [tryRecoverSession] leaves the session alone; it keeps the messages or
    replaces them by the welcome message and the recovered history. *)
Lemma tryRecoverSession_view (r : http) (h : hook) :
  (messages (fst (tryRecoverSession r h)) = messages h
   \/ exists recovered,
       messages (fst (tryRecoverSession r h)) = WELCOME_MESSAGE :: recovered)
  /\ session_view (fst (tryRecoverSession r h)) = session_view h
  /\ userIdRef (fst (tryRecoverSession r h)) = userIdRef h
  /\ (truthy (snd (tryRecoverSession r h)) = false -> fst (tryRecoverSession r h) = h).
Proof.
  unfold tryRecoverSession.
  destruct r as [e|[] st [session|e]]; simpl; auto.
  destruct (truthy session) eqn:Hs; simpl; auto.
  destruct (truthy (prop session (jstr "events"))); simpl; auto.
  destruct (prop (prop session (jstr "events")) (jstr "length")) as [| | |[]| | |];
    simpl; auto;
    (destruct (parseEventsToMessages (prop session (jstr "events"))) as [[|m ms]|];
     simpl; auto;
     destruct (truthy (get_opt (prop session (jstr "state")) (jstr "ai_paused")));
     destruct h; simpl; repeat split; eauto; congruence).
Qed.

Lemma clearStoredSession_lookup (h : hook) :
  localStorage (clearStoredSession h) !! STORAGE_KEY_SESSION_ID = None.
Proof. destruct h. simpl. apply lookup_delete_eq. Qed.

(** [ensureSession] after the recovery fetch: the session is taken over, or
    forgotten and a new one requested. *)
Lemma ensureSession_recovered_view params (r : http) (h : hook) :
  let h' := fst (ensureSession_recovered params r h) in
  let p := snd (ensureSession_recovered params r h) in
  (messages h' = messages h \/ exists recovered, messages h' = WELCOME_MESSAGE :: recovered)
  /\ ((truthy (snd (tryRecoverSession r h)) = true
       /\ p = Returned (sessionIdRef h)
       /\ session_view h'
          = (sessionIdRef h, true, sessionRecoveryAttempted h, localStorage h,
             recovery_fetches h, creation_posts h))
      \/ (truthy (snd (tryRecoverSession r h)) = false
          /\ p = AwaitingCreation
          /\ messages h' = messages h
          /\ status h' = idle
          /\ requests h'
             = requests h ++ [PostSession (userIdRef h) (getInitialStateFromUrl params)]
          /\ session_view h'
             = (VNull, sessionCreatedRef h, true,
                delete STORAGE_KEY_SESSION_ID (localStorage h),
                recovery_fetches h, S (creation_posts h)))).
Proof.
  intros h' p. subst h' p. unfold ensureSession_recovered.
  destruct (tryRecoverSession_view r h) as (Hm & Hv & Hu & Hf).
  destruct (tryRecoverSession r h) as [h1 v]. simpl in *.
  destruct (truthy v) eqn:Ht.
  - unfold session_view in Hv. injection Hv as V1 V2 V3 V4 V5 V6.
    destruct h1. simpl in *. subst. split; [exact Hm|]. left.
    unfold session_view, recovery_fetches, creation_posts in *. simpl in *.
    rewrite !count_snoc. simpl. rewrite !Nat.add_0_r, V5, V6.
    repeat split.
  - rewrite (Hf eq_refl). clear Hm Hv Hu Hf.
    destruct h. unfold ensureSession_create, session_view, recovery_fetches,
      creation_posts. simpl.
    rewrite !count_snoc. simpl. rewrite Nat.add_0_r, Nat.add_1_r.
    split; [now left|]. right. repeat split.
Qed.

(** [ensureSession] after the creation POST: it throws and changes nothing,
    or takes the new session, stores its id and returns it. *)
Lemma ensureSession_created_view (r : http) (h : hook) :
  let h' := fst (ensureSession_created r h) in
  let p := snd (ensureSession_created r h) in
  messages h' = messages h
  /\ ((exists e, p = Threw e /\ h' = h)
      \/ (exists status session id,
             r = Response true status (Ok session)
             /\ get session (jstr "id") = Ok id
             /\ p = Returned id
             /\ session_view h'
                = (id, true, sessionRecoveryAttempted h,
                   (if truthy id
                    then <[STORAGE_KEY_SESSION_ID := ToString id]> (localStorage h)
                    else localStorage h),
                   recovery_fetches h, creation_posts h))).
Proof.
  intros h' p. subst h' p. unfold ensureSession_created.
  destruct r as [e|[] st [session|e]]; simpl; try (split; [reflexivity|]; eauto).
  destruct (get session (jstr "id")) as [id|e] eqn:Hid; simpl.
  - split; [unfold storeSessionId; destruct h, (truthy id); reflexivity|].
    right. exists st, session, id. repeat split; try assumption.
    unfold storeSessionId, session_view, recovery_fetches, creation_posts.
    destruct h, (truthy id); simpl; rewrite !count_snoc; simpl;
      rewrite !Nat.add_0_r; reflexivity.
  - split; [reflexivity|]. eauto.
Qed.

Lemma reset_state_view (h : hook) :
  messages (reset_state h) = [WELCOME_MESSAGE]
  /\ session_view (reset_state h)
     = (VNull, false, false, delete STORAGE_KEY_SESSION_ID (localStorage h),
        recovery_fetches h, creation_posts h).
Proof. destruct h. split; reflexivity. Qed.

Lemma tryRecoverSession_failed (r : http) (h : hook) :
  lookup_failed r -> truthy (snd (tryRecoverSession r h)) = false.
Proof.
  destruct 1 as [| | |st session Hs|st session e Hs He Hl Hp]; simpl; auto.
  - now rewrite Hs.
  - rewrite Hs, He, Hp. simpl.
    destruct (prop (prop session (jstr "events")) (jstr "length")) as [| | |[]| | |];
      simpl; auto. contradiction.
Qed.

(** C7: when the lookup of the stored session fails, in any of these ways,
    [ensureSession] does not throw and shows nothing: it forgets the session
    id, removes it from the storage and goes on to request a new session;
    a task waiting for the lookup then waits for the creation. When the
    creation answers with an id, the id is stored. *)
Theorem recovery_failure_falls_through params JSON_parse Date_now toISOString
    (r : http) (h : hook) :
  lookup_failed r ->
  let h1 := fst (ensureSession_recovered params r h) in
  snd (ensureSession_recovered params r h) = AwaitingCreation
  /\ messages h1 = messages h
  /\ status h1 = idle
  /\ sessionIdRef h1 = VNull
  /\ localStorage h1 !! STORAGE_KEY_SESSION_ID = None
  /\ requests h1 = requests h ++ [PostSession (userIdRef h) (getInitialStateFromUrl params)]
  /\ (forall ts i c,
        ts !! i = Some (Recovering c) ->
        let w' := step params JSON_parse Date_now toISOString (World h ts) (Recovery i r) in
        hk w' = h1 /\ tasks w' !! i = Some (Creating c))
  /\ (forall h2 status session id,
        get session (jstr "id") = Ok id ->
        truthy id = true ->
        let done := ensureSession_created (Response true status (Ok session)) h2 in
        snd done = Returned id
        /\ sessionIdRef (fst done) = id
        /\ localStorage (fst done) !! STORAGE_KEY_SESSION_ID = Some (ToString id)).
Proof.
  intros Hr h1.
  pose proof (tryRecoverSession_failed r h Hr) as Hf.
  destruct (ensureSession_recovered_view params r h)
    as (_ & [(Ht & _)|(_ & Hp & Hm & Hs & Hq & Hv)]); [congruence|].
  fold h1 in Hm, Hs, Hq, Hv.
  unfold session_view in Hv. injection Hv as V1 V2 V3 V4 V5 V6.
  split; [assumption|]. split; [assumption|]. split; [assumption|].
  split; [assumption|]. split; [rewrite V4; apply lookup_delete_eq|].
  split; [assumption|]. split.
  - intros ts i c Hi. simpl. rewrite Hi. fold h1.
    destruct (ensureSession_recovered params r h) as [h' p] eqn:E.
    simpl in Hp. subst p h1. simpl. split; [reflexivity|].
    apply list_lookup_insert_eq. eapply lookup_lt_Some; eassumption.
  - intros h2 st session id Hid Hid'. simpl. rewrite Hid. simpl.
    split; [reflexivity|]. unfold storeSessionId. rewrite Hid'.
    destruct h2. simpl. split; [reflexivity | apply lookup_insert_eq].
Qed.

(** The theorem on a page whose stored session is answered with 404. *)
Lemma recovery_failure_falls_through_witness :
  let h := hk (stale_page [Mount]) in
  snd (ensureSession_recovered [] not_found h) = AwaitingCreation
  /\ localStorage (fst (ensureSession_recovered [] not_found h))
       !! STORAGE_KEY_SESSION_ID = None
  /\ localStorage (fst (ensureSession_created (created "s-new")
                          (fst (ensureSession_recovered [] not_found h))))
       !! STORAGE_KEY_SESSION_ID = Some (jstr "s-new").
Proof.
  intros h.
  destruct (recovery_failure_falls_through [] (parse_table []) (fun _ => 0) (fun _ => [])
              not_found h (not_ok _ _))
    as (A & _ & _ & _ & B & _ & _ & C).
  split; [exact A|]. split; [exact B|].
  exact (proj2 (proj2 (C _ 200 (VObj [(jstr "id", VStr (jstr "s-new"))])
                         (VStr (jstr "s-new")) eq_refl eq_refl))).
Defined.

(** End-to-end scenario B: the lookup of the stored session answers 404; a
    new session is created and its id stored. *)
Example stale_session_replaced :
  let w := stale_page [Mount; Recovery 0 not_found; Creation 0 (created "s-new")] in
  localStorage (hk w) !! STORAGE_KEY_SESSION_ID = Some (jstr "s-new")
  /\ sessionIdRef (hk w) = VStr (jstr "s-new")
  /\ status (hk w) = idle
  /\ messages (hk w) = [WELCOME_MESSAGE]
  /\ map (fun r => match r with
                   | GetSession _ _ => 1 | PostSession _ _ => 2
                   | PostRunSSE _ _ _ => 3 | Listen _ _ => 4
                   end) (requests (hk w)) = [1; 2; 4].
Proof. vm_compute. repeat split. Qed.

(** ** Steps of the hook *)

Section Steps.

Variable params : list (jsstring * jsstring).
Variable JSON_parse : jsstring -> res value.
Variable Date_now : nat -> Z.
Variable toISOString : Z -> jsstring.

Local Abbreviation step' := (step params JSON_parse Date_now toISOString).
Local Abbreviation run' := (run params JSON_parse Date_now toISOString).

Lemma frames_resume (i : nat) (c : caller) (h : hook) (p : progress) :
  frames h (fst (resume i c (h, p))).
Proof.
  unfold resume. destruct p, c; simpl; auto with frames.
  - eapply frames_trans; [apply frames_set_abortControllerRef|].
    apply frames_send_request; reflexivity.
  - apply frames_fail.
Qed.

Lemma hk_call (c : caller) (w : world) :
  hk (call params c w)
  = fst (resume (length (tasks w)) c (ensureSession params (hk w))).
Proof. unfold call. now destruct (resume _ _ _). Qed.

Lemma frames_call (c : caller) (w : world) :
  frames (fst (ensureSession params (hk w))) (hk (call params c w)).
Proof.
  rewrite hk_call. destruct (ensureSession params (hk w)) as [h p].
  apply frames_resume.
Qed.

Lemma messages_abort (w : world) : messages (hk (abort w)) = messages (hk w).
Proof.
  unfold abort. destruct (abortControllerRef (hk w)) as [i|]; [|reflexivity].
  destruct (tasks w !! i) as [[| | |a|a t]|]; try reflexivity;
    simpl; unfold fail; rewrite messages_finally; reflexivity.
Qed.

Lemma frames_abort (w : world) : frames (hk w) (hk (abort w)).
Proof.
  unfold abort. destruct (abortControllerRef (hk w)) as [i|]; [|apply frames_refl].
  destruct (tasks w !! i) as [[| | |a|a t]|]; try apply frames_refl;
    simpl; apply frames_fail.
Qed.

(** Every step, by its input: what it does to the negotiator, and around
    it only changes that [frames] allows. *)
Lemma step_cases (w : world) (inp : input) :
  let h := hk w in
  let h' := hk (step' w inp) in
  match inp with
  | Mount => h' = h \/ frames (fst (ensureSession params h)) h'
  | Send _ =>
      h' = h \/ exists h1, frames h h1 /\ frames (fst (ensureSession params h1)) h'
  | Reset => frames (reset_state h) h' /\ messages h' = [WELCOME_MESSAGE]
  | Recovery _ r =>
      h' = h \/ frames (fst (ensureSession_recovered params r h)) h'
  | Creation _ r =>
      h' = h \/ frames (fst (ensureSession_created r h)) h'
  | Cancel | Inbound _ | ListenerRetry _ _ | Run _ _ | Read _ _ => frames h h'
  end.
Proof.
  destruct inp as [|text| | |data|sid uid|i r|i r|i r|i r]; unfold step; cbv zeta.
  - destruct (_ && _); [right; apply frames_call | now left].
  - destruct (sendMessage_start _ _ _ _) as [h1|] eqn:E; [|now left].
    right. exists h1. split; [eapply frames_sendMessage_start; eassumption|].
    apply (frames_call _ (World h1 (tasks w))).
  - split; [apply (frames_abort (World _ _))|].
    rewrite messages_abort. cbn [hk]. apply reset_state_view.
  - apply frames_abort.
  - apply frames_onmessage.
  - apply frames_startListening.
  - destruct (tasks w !! i) as [[|c|c|a|a t]|]; try now left.
    right. destruct (ensureSession_recovered params r (hk w)) as [h1 p].
    pose proof (frames_resume i c h1 p) as F.
    destruct (resume i c (h1, p)). exact F.
  - destruct (tasks w !! i) as [[|c|c|a|a t]|]; try now left.
    right. destruct (ensureSession_created r (hk w)) as [h1 p].
    pose proof (frames_resume i c h1 p) as F.
    destruct (resume i c (h1, p)). exact F.
  - destruct (tasks w !! i) as [[|c|c|a|a t]|]; try apply frames_refl.
    destruct r as [e|[] st body]; simpl;
      [apply frames_fail | apply frames_setStatus | apply frames_fail].
  - destruct (tasks w !! i) as [[|c|c|a|a t]|]; try apply frames_refl.
    destruct r as [chunk| |e];
      [|apply frames_finalize | apply frames_fail].
    pose proof (frames_on_chunk JSON_parse Date_now chunk (hk w, t)) as F.
    destruct (on_chunk _ _ _ _). exact F.
Qed.

Lemma run_snoc (w : world) (inputs : list input) (inp : input) :
  run' w (inputs ++ [inp]) = step' (run' w inputs) inp.
Proof. unfold run. now rewrite fold_left_app. Qed.

End Steps.

(** ** The recovery latch *)

Lemma latched_frames (h h' : hook) : frames h h' -> latched h -> latched h'.
Proof. intros F. unfold latched. now rewrite (frames_view _ _ F). Qed.

Lemma latched_ensureSession params (h : hook) :
  latched h -> latched (fst (ensureSession params h)).
Proof.
  intros L.
  destruct (ensureSession_view params h)
    as [(_ & _ & ->)|[(Hc & Ha & Ht & _ & _ & Hv)|(Ha & _ & ->)]]; [exact L| |].
  - unfold latched in *. rewrite Hv. unfold session_view in L.
    destruct L as [->|[_ L]]; [right; auto|].
    destruct (L Ht); congruence.
  - destruct (ensureSession_create_view params h) as (_ & _ & Hv).
    unfold latched in *. rewrite Hv. unfold session_view in L.
    destruct L as [->|[-> _]]; auto.
Qed.

Lemma latched_recovered params (r : http) (h : hook) :
  latched h -> latched (fst (ensureSession_recovered params r h)).
Proof.
  intros L.
  destruct (ensureSession_recovered_view params r h)
    as (_ & [(_ & _ & Hv)|(_ & _ & _ & _ & _ & Hv)]);
    unfold latched in *; rewrite Hv; unfold session_view in L;
    destruct L as [->|[-> _]]; auto.
Qed.

Lemma latched_created (r : http) (h : hook) :
  latched h -> latched (fst (ensureSession_created r h)).
Proof.
  intros L.
  destruct (ensureSession_created_view r h)
    as (_ & [(e & _ & ->)|(st & session & id & _ & _ & _ & Hv)]); [exact L|].
  unfold latched in *. rewrite Hv. unfold session_view in L.
  destruct L as [->|[-> _]]; auto.
Qed.

Lemma latched_reset (h : hook) : latched h -> latched (reset_state h).
Proof.
  intros L. destruct (reset_state_view h) as [_ Hv].
  unfold latched in *. rewrite Hv. unfold session_view in L.
  destruct L as [->|[-> _]]; [auto|]. right. split; [reflexivity|]. discriminate.
Qed.

Lemma user_key_is_not_session_key : STORAGE_KEY_USER_ID <> STORAGE_KEY_SESSION_ID.
Proof. intros H. vm_compute in H. discriminate. Qed.

(** Resolving the identity leaves the stored session id alone. *)
Lemma getPersistentUserId_session (params : list (jsstring * jsstring)) (rnd : jsstring)
    (storage : gmap jsstring jsstring) :
  snd (getPersistentUserId params rnd storage) !! STORAGE_KEY_SESSION_ID
  = storage !! STORAGE_KEY_SESSION_ID.
Proof.
  unfold getPersistentUserId.
  destruct (params_get params (jstr "customer_email")) as [| | | |[|c email]| |];
    destruct (getItem STORAGE_KEY_USER_ID storage) as [| | | |[|c' stored]| |];
    simpl; try reflexivity;
    apply lookup_insert_ne, user_key_is_not_session_key.
Qed.

Section Latch.

Variable params : list (jsstring * jsstring).
Variable JSON_parse : jsstring -> res value.
Variable Date_now : nat -> Z.
Variable toISOString : Z -> jsstring.

Local Abbreviation step' := (step params JSON_parse Date_now toISOString).
Local Abbreviation run' := (run params JSON_parse Date_now toISOString).

Lemma latched_step (w : world) (inp : input) :
  latched (hk w) -> latched (hk (step' w inp)).
Proof.
  intros L. pose proof (step_cases params JSON_parse Date_now toISOString w inp) as H.
  cbv zeta in H. destruct inp.
  - destruct H as [->|F]; [exact L|].
    eapply latched_frames; [exact F|]. now apply latched_ensureSession.
  - destruct H as [->|(h1 & F1 & F2)]; [exact L|].
    eapply latched_frames; [exact F2|]. apply latched_ensureSession.
    eapply latched_frames; eassumption.
  - destruct H as [F _]. eapply latched_frames; [exact F|]. now apply latched_reset.
  - eapply latched_frames; eassumption.
  - eapply latched_frames; eassumption.
  - eapply latched_frames; eassumption.
  - destruct H as [->|F]; [exact L|].
    eapply latched_frames; [exact F|]. now apply latched_recovered.
  - destruct H as [->|F]; [exact L|].
    eapply latched_frames; [exact F|]. now apply latched_created.
  - eapply latched_frames; eassumption.
  - eapply latched_frames; eassumption.
Qed.

Lemma latched_init (rnd : jsstring) (storage : gmap jsstring jsstring) :
  latched (hk (init params rnd storage)).
Proof.
  unfold init. destruct (getPersistentUserId params rnd storage). now left.
Qed.

Lemma latched_run (w : world) (inputs : list input) :
  latched (hk w) -> latched (hk (run' w inputs)).
Proof.
  induction inputs as [|inp inputs IH] using rev_ind; intros L; [exact L|].
  rewrite run_snoc. apply latched_step. now apply IH.
Qed.

(** C4: on a page, whatever happens, at most one recovery fetch is issued;
    and two calls of [ensureSession] in a row, made while a session id is
    stored and before anything settles, issue exactly one. *)
Theorem recovery_fetched_at_most_once (rnd : jsstring)
    (storage : gmap jsstring jsstring) :
  (forall inputs,
      (recovery_fetches (hk (run' (init params rnd storage) inputs)) <= 1)%nat)
  /\ (forall sid c1 c2,
        storage !! STORAGE_KEY_SESSION_ID = Some sid ->
        sid <> [] ->
        recovery_fetches
          (hk (call params c2 (call params c1 (init params rnd storage)))) = 1%nat).
Proof.
  split.
  - intros inputs.
    pose proof (latched_run (init params rnd storage) inputs (latched_init _ _)) as L.
    unfold latched, session_view in L. destruct L as [->|[-> _]]; lia.
  - intros sid c1 c2 Hs Hne.
    set (w0 := init params rnd storage).
    assert (session_view (hk w0)
            = (VStr sid, false, false,
               snd (getPersistentUserId params rnd storage), 0%nat, 0%nat)) as V0.
    { subst w0. unfold init.
      pose proof (getPersistentUserId_session params rnd storage) as E.
      destruct (getPersistentUserId params rnd storage) as [uid ls]. simpl in *.
      unfold session_view, getStoredSessionId, getItem. simpl.
      now rewrite E, Hs. }
    unfold session_view in V0. injection V0 as A0 B0 C0 D0 E0 F0.
    assert (truthy (VStr sid) = true) as Ht by (destruct sid; [contradiction|reflexivity]).
    (* the first call issues the fetch *)
    pose proof (frames_view _ _ (frames_call params c1 w0)) as V1.
    destruct (ensureSession_view params (hk w0))
      as [(Hc & _)|[(_ & _ & _ & _ & _ & Hv)|([Ha|Hf] & _)]]; try congruence.
    rewrite Hv, A0, D0, E0, F0 in V1. clear Hv.
    unfold session_view in V1. injection V1 as A1 B1 C1 D1 E1 F1.
    (* the second call finds the latch set *)
    set (w1 := call params c1 w0) in *.
    pose proof (frames_view _ _ (frames_call params c2 w1)) as V2.
    destruct (ensureSession_view params (hk w1))
      as [(Hc & _)|[(_ & Ha & _)|(_ & _ & E)]]; try congruence.
    rewrite E in V2. destruct (ensureSession_create_view params (hk w1)) as (_ & _ & Hv).
    rewrite Hv in V2. unfold session_view in V2. injection V2 as _ _ _ _ E2 _.
    congruence.
Qed.

End Latch.

(** The theorem on a page with a stored session id: the effect run on mount
    and a message sent at once. *)
Lemma recovery_fetched_at_most_once_witness :
  recovery_fetches
    (hk (call [] (BySend (jstr "Hello") (VBool false))
           (call [] ByMount
              (init [] (jstr "k3x9qa") {[STORAGE_KEY_SESSION_ID := jstr "s-old"]}))))
  = 1%nat.
Proof.
  refine (proj2 (recovery_fetched_at_most_once [] (parse_table []) (fun _ => 0)
                   (fun _ => []) (jstr "k3x9qa") _)
                (jstr "s-old") ByMount (BySend (jstr "Hello") (VBool false)) _ _).
  - apply lookup_singleton_eq.
  - discriminate.
Defined.

(** The same on the page itself: the effect run on mount and a message sent
    at once afterwards. *)
Example two_rapid_calls :
  let w := stale_page [Mount; Mount; Inbound []; Recovery 0 not_found;
                       Send (jstr "Hello"); Creation 0 (created "s-1")] in
  recovery_fetches (hk w) = 1%nat.
Proof. vm_compute. reflexivity. Qed.

(** ** The message list *)

Lemma frames_messages (h h' : hook) :
  frames h h' -> exists more, messages h' = messages h ++ more.
Proof. now intros [H _]. Qed.

Lemma messages_ensureSession (params : list (jsstring * jsstring)) (h : hook) :
  messages (fst (ensureSession params h)) = messages h.
Proof.
  destruct (ensureSession_view params h)
    as [(_ & _ & ->)|[(_ & _ & _ & _ & Hm & _)|(_ & _ & ->)]];
    [reflexivity | exact Hm | apply ensureSession_create_view].
Qed.

Section Messages.

Variable params : list (jsstring * jsstring).
Variable JSON_parse : jsstring -> res value.
Variable Date_now : nat -> Z.
Variable toISOString : Z -> jsstring.

Local Abbreviation step' := (step params JSON_parse Date_now toISOString).
Local Abbreviation run' := (run params JSON_parse Date_now toISOString).

(** What one step does to the messages, by its input. *)
Lemma step_messages (w : world) (inp : input) :
  let before := messages (hk w) in
  let after := messages (hk (step' w inp)) in
  match inp with
  | Reset => after = [WELCOME_MESSAGE]
  | Recovery _ _ =>
      (exists more, after = before ++ more)
      \/ (exists rest, after = WELCOME_MESSAGE :: rest)
  | _ => exists more, after = before ++ more
  end.
Proof.
  pose proof (step_cases params JSON_parse Date_now toISOString w inp) as H.
  cbv zeta in *. destruct inp; try (apply frames_messages; assumption).
  - destruct H as [->|F]; [exists []; now rewrite app_nil_r|].
    apply frames_messages in F. now rewrite messages_ensureSession in F.
  - destruct H as [->|(h1 & F1 & F2)]; [exists []; now rewrite app_nil_r|].
    apply frames_messages in F1 as [m1 E1], F2 as [m2 E2].
    rewrite messages_ensureSession, E1, <- app_assoc in E2. eauto.
  - apply H.
  - destruct H as [->|F]; [left; exists []; now rewrite app_nil_r|].
    apply frames_messages in F as [more E].
    destruct (ensureSession_recovered_view params r (hk w)) as ([Hm|[rest Hm]] & _);
      rewrite Hm in E; [left|right]; eauto.
  - destruct H as [->|F]; [exists []; now rewrite app_nil_r|].
    apply frames_messages in F as [more E].
    destruct (ensureSession_created_view r (hk w)) as (Hm & _).
    rewrite Hm in E. eauto.
Qed.

(** C9: the message list of every reachable state starts with the welcome
    message. The first render sets it to the welcome message alone, [reset]
    sets it back to that, the recovery of a history sets it to the welcome
    message followed by the history, and every other step appends to it or
    leaves it as it is. *)
Theorem messages_start_with_welcome :
  (forall w,
      reachable params JSON_parse Date_now toISOString w ->
      exists rest, messages (hk w) = WELCOME_MESSAGE :: rest)
  /\ (forall rnd storage, messages (hk (init params rnd storage)) = [WELCOME_MESSAGE])
  /\ (forall w inp,
        let before := messages (hk w) in
        let after := messages (hk (step' w inp)) in
        match inp with
        | Reset => after = [WELCOME_MESSAGE]
        | Recovery _ _ =>
            (exists more, after = before ++ more)
            \/ (exists rest, after = WELCOME_MESSAGE :: rest)
        | _ => exists more, after = before ++ more
        end).
Proof.
  assert (forall rnd storage, messages (hk (init params rnd storage)) = [WELCOME_MESSAGE])
    as Hinit.
  { intros rnd storage. unfold init.
    now destruct (getPersistentUserId params rnd storage). }
  split; [|split; [exact Hinit | exact step_messages]].
  intros w (rnd & storage & inputs & ->).
  induction inputs as [|inp inputs [rest IH]] using rev_ind.
  - exists []. apply Hinit.
  - rewrite run_snoc. pose proof (step_messages (run' (init params rnd storage) inputs) inp) as H.
    cbv zeta in H. rewrite IH in H.
    destruct inp;
      try (lazymatch type of H with
           | ex _ => destruct H as [more E]; exists (rest ++ more); exact E
           end).
    + exists []. exact H.
    + destruct H as [[more ->]|[rest' ->]]; eauto.
Qed.

End Messages.

(** The theorem on the state a conversation has reached. *)
Lemma messages_start_with_welcome_witness :
  exists rest, messages (hk busy_page) = WELCOME_MESSAGE :: rest.
Proof.
  refine (proj1 (messages_start_with_welcome [] _ _ _) busy_page _).
  unfold reachable, busy_page, run_page. eauto.
Defined.

(** End-to-end scenario A, and what follows it on that page. *)
Example busy_page_messages :
  map (fun m => (role m, text m, products m)) (messages (hk busy_page))
  = [(system, text WELCOME_MESSAGE, None);
     (user, VStr (jstr "Show me black sofas"), None);
     (agent, VStr (jstr "Here are some options"), Some [sofa_a]);
     (user, VStr (jstr "And in leather?"), None);
     (agent, VStr ([10060] ++ jstr " Error: API error 500. Please check if the server is running."), None);
     (agent, VStr (jstr "Hi, this is Sam from the store."), None)].
Proof. vm_compute. reflexivity. Qed.

(** ** Idempotence of the negotiation *)

(** C5, as stated, fails: a call of [ensureSession] made while another one
    is waiting for its creation POST issues a POST of its own, and the two
    calls return the ids of two sessions. *)
Lemma ensureSession_concurrent_counterexample :
  let first := ensureSession [] fresh in
  let second := ensureSession [] (fst first) in
  let first_done := ensureSession_created (created "s-1") (fst second) in
  let second_done := ensureSession_created (created "s-2") (fst first_done) in
  snd first = AwaitingCreation
  /\ snd second = AwaitingCreation
  /\ creation_posts (fst second_done) = 2%nat
  /\ snd first_done = Returned (VStr (jstr "s-1"))
  /\ snd second_done = Returned (VStr (jstr "s-2")).
Proof. vm_compute. repeat split. Qed.

(** The same on a page: the effect run on mount finds the stored session
    expired and requests a new one; a message sent before the answer
    requests another; the turn runs in the second session. *)
Example two_sessions_created :
  let w := stale_page [Mount; Recovery 0 not_found; Send (jstr "Hello");
                       Creation 0 (created "s-1"); Creation 1 (created "s-2")] in
  creation_posts (hk w) = 2%nat
  /\ sessionIdRef (hk w) = VStr (jstr "s-2")
  /\ last (requests (hk w))
     = Some (PostRunSSE (userIdRef (hk w)) (VStr (jstr "s-2")) (jstr "Hello")).
Proof. vm_compute. repeat split. Qed.

Section Settled.

Variable params : list (jsstring * jsstring).
Variable JSON_parse : jsstring -> res value.
Variable Date_now : nat -> Z.
Variable toISOString : Z -> jsstring.

Local Abbreviation step' := (step params JSON_parse Date_now toISOString).
Local Abbreviation run' := (run params JSON_parse Date_now toISOString).

Lemma ensureSession_settled (id : value) (h : hook) :
  sessionCreatedRef h = true -> sessionIdRef h = id -> truthy id = true ->
  ensureSession params h = (h, Returned id).
Proof. intros Hc <- Ht. unfold ensureSession. now rewrite Hc, Ht. Qed.

Lemma settled_frames (id : value) (h h' : hook) (ts ts' : list task) :
  frames h h' ->
  Forall (fun t => negotiating t = false) ts' ->
  settled_on id (World h ts) ->
  settled_on id (World h' ts')
  /\ creation_posts h' = creation_posts h
  /\ recovery_fetches h' = recovery_fetches h.
Proof.
  intros (_ & A & B & _ & _ & E & F) Hts (Hc & Hi & Ht & _).
  unfold settled_on. simpl in *. repeat split; congruence.
Qed.

Lemma settled_call (id : value) (c : caller) (w : world) :
  settled_on id w ->
  settled_on id (call params c w)
  /\ creation_posts (hk (call params c w)) = creation_posts (hk w)
  /\ recovery_fetches (hk (call params c w)) = recovery_fetches (hk w).
Proof.
  intros S. pose proof S as (Hc & Hi & Ht & Hts).
  destruct w as [h ts]. cbn [hk tasks] in Hc, Hi, Hts.
  unfold call. cbn [hk tasks]. rewrite (ensureSession_settled id h Hc Hi Ht).
  pose proof (frames_resume (length ts) c h (Returned id)) as F.
  destruct (resume (length ts) c (h, Returned id)) as [h' t] eqn:E.
  cbn [fst] in F. cbn [hk tasks].
  eapply settled_frames; [exact F | | exact S].
  apply Forall_app. split; [assumption|]. constructor; [|constructor].
  unfold resume in E. destruct c; injection E as _ <-; reflexivity.
Qed.

(** A step other than [reset] keeps a settled negotiation settled, and
    issues neither a creation POST nor a recovery fetch. *)
Lemma settled_step (id : value) (w : world) (inp : input) :
  inp <> Reset ->
  settled_on id w ->
  settled_on id (step' w inp)
  /\ creation_posts (hk (step' w inp)) = creation_posts (hk w)
  /\ recovery_fetches (hk (step' w inp)) = recovery_fetches (hk w).
Proof.
  intros Hr S. pose proof S as (Hc & Hi & Ht & Hts).
  pose proof (step_cases params JSON_parse Date_now toISOString w inp) as H.
  destruct w as [h ts]. cbn [hk tasks] in *.
  assert (forall i t, ts !! i = Some t -> negotiating t = false) as Hno.
  { intros i t Hl. eapply Forall_lookup_1 in Hts; eassumption. }
  assert (forall i t, negotiating t = false ->
                      Forall (fun t => negotiating t = false) (<[i := t]> ts)) as Hins.
  { intros i t Hn. apply Forall_insert; assumption. }
  cbv zeta in H.
  destruct inp as [|text| | |data|sid uid|i r|i r|i r|i r];
    unfold step in *; cbn [hk tasks] in *.
  - destruct (_ && _); [now apply settled_call | auto].
  - destruct (sendMessage_start _ _ _ _) as [h1|] eqn:E; [|auto].
    apply frames_sendMessage_start in E.
    destruct (settled_frames id h h1 ts ts E Hts S) as (S1 & P1 & R1).
    destruct (settled_call id (BySend text (aiPaused h)) (World h1 ts) S1)
      as (S2 & P2 & R2).
    cbn [hk] in P2, R2. split; [exact S2|]. split; congruence.
  - contradiction.
  - unfold abort in *. cbn [hk tasks] in *.
    destruct (abortControllerRef h) as [i|]; [|auto].
    destruct (ts !! i) as [[| | |a|a t]|] eqn:El; auto;
      cbn [hk tasks] in *; (eapply settled_frames; [exact H | | exact S]);
      apply Hins; reflexivity.
  - eapply settled_frames; eauto.
  - eapply settled_frames; eauto.
  - destruct (ts !! i) as [[|c|c|a|a t]|] eqn:El; auto.
    apply Hno in El. discriminate.
  - destruct (ts !! i) as [[|c|c|a|a t]|] eqn:El; auto.
    apply Hno in El. discriminate.
  - destruct (ts !! i) as [[|c|c|a|a t]|] eqn:El; auto.
    destruct r as [e|[] st body]; cbn [hk tasks] in *;
      (eapply settled_frames; [exact H | | exact S]); apply Hins; reflexivity.
  - destruct (ts !! i) as [[|c|c|a|a t]|] eqn:El; auto.
    destruct r as [chunk| |e]; cbn [hk tasks] in *;
      try ((eapply settled_frames; [exact H | | exact S]); apply Hins; reflexivity).
    destruct (on_chunk JSON_parse Date_now chunk (h, t)) as [h' t'] eqn:Ec.
    cbn [hk tasks] in *.
    (eapply settled_frames; [exact H | | exact S]); apply Hins; reflexivity.
Qed.

(** C5, amended: [ensureSession] is idempotent once a negotiation has
    completed. A call that returns a session id leaves the hook in a state
    where any further call returns the same id at once; and as long as the
    page is not reset and no other call is waiting for the network, every
    call returns that id and no further creation POST or recovery fetch is
    issued. Calls made while another one is waiting are not merged. *)
Theorem ensureSession_idempotent_once_settled :
  (forall r h id,
      snd (ensureSession_created r h) = Returned id ->
      truthy id = true ->
      ensureSession params (fst (ensureSession_created r h))
      = (fst (ensureSession_created r h), Returned id))
  /\ (forall r h id,
        snd (ensureSession_recovered params r h) = Returned id ->
        truthy id = true ->
        ensureSession params (fst (ensureSession_recovered params r h))
        = (fst (ensureSession_recovered params r h), Returned id))
  /\ (forall id w inputs,
        settled_on id w ->
        Forall (fun inp => inp <> Reset) inputs ->
        let w' := run' w inputs in
        settled_on id w'
        /\ ensureSession params (hk w') = (hk w', Returned id)
        /\ creation_posts (hk w') = creation_posts (hk w)
        /\ recovery_fetches (hk w') = recovery_fetches (hk w)).
Proof.
  split; [|split].
  - intros r h id Hp Ht.
    destruct (ensureSession_created_view r h)
      as (_ & [(e & He & _)|(st & session & id' & _ & _ & Hp' & Hv)]); [congruence|].
    rewrite Hp in Hp'. injection Hp' as <-.
    unfold session_view in Hv. injection Hv as A B _ _ _ _.
    now apply ensureSession_settled.
  - intros r h id Hp Ht.
    destruct (ensureSession_recovered_view params r h)
      as (_ & [(_ & Hp' & Hv)|(_ & Hp' & _)]); [|congruence].
    rewrite Hp in Hp'. injection Hp' as ->.
    unfold session_view in Hv. injection Hv as A B _ _ _ _.
    now apply ensureSession_settled.
  - intros id w inputs S Hin w'. subst w'.
    induction inputs as [|inp inputs IH] using rev_ind.
    + simpl. destruct S as (Hc & Hi & Ht & Hts).
      repeat split; try assumption. now apply ensureSession_settled.
    + apply Forall_app in Hin as [Hin Hinp]. apply Forall_inv in Hinp.
      destruct (IH Hin) as (S' & _ & P & R).
      rewrite run_snoc.
      destruct (settled_step id _ inp Hinp S') as (S'' & P' & R').
      split; [exact S''|]. split; [|split; congruence].
      destruct S'' as (Hc & Hi & Ht & _). now apply ensureSession_settled.
Qed.

End Settled.

(** The theorem on a page whose session was created: a turn, a further
    message and a remount issue no further creation POST. *)
Lemma ensureSession_idempotent_once_settled_witness :
  let clock := fun n => 1700000000000 + Z.of_nat n in
  let w := run_page [] (jstr "k3x9qa") ∅
             [Send (jstr "Hello"); Creation 0 (created "s-1")] in
  let w' := run [] (parse_table []) clock (fun _ => []) w
              [Run 0 opened; Read 0 EndOfStream; Send (jstr "Are you there?"); Mount] in
  creation_posts (hk w') = 1%nat
  /\ ensureSession [] (hk w') = (hk w', Returned (VStr (jstr "s-1"))).
Proof.
  intros clock w w'.
  destruct (proj2 (proj2 (ensureSession_idempotent_once_settled
                            [] (parse_table []) clock (fun _ => [])))
              (VStr (jstr "s-1")) w
              [Run 0 opened; Read 0 EndOfStream; Send (jstr "Are you there?"); Mount])
    as (_ & E & P & _).
  - repeat split. vm_compute. repeat constructor.
  - repeat constructor; discriminate.
  - fold w' in E, P. split; [rewrite P; vm_compute; reflexivity | exact E].
Defined.

(** ** History of a recovered session *)

Example history_recovered :
  let w := stale_page [Mount; Recovery 0 (Response true 200 (Ok past_session))] in
  map (fun m => (role m, text m)) (messages (hk w))
  = [(system, text WELCOME_MESSAGE);
     (user, VStr (jstr "Do you deliver?"));
     (agent, VStr (jstr "Yes, within 30 miles."));
     (agent, VStr (jstr "Sam here."))]
  /\ isRecovered (hk w) = true
  /\ aiPaused (hk w) = VBool true
  /\ status (hk w) = idle
  /\ sessionIdRef (hk w) = VStr (jstr "s-old")
  /\ creation_posts (hk w) = 0%nat.
Proof. vm_compute. repeat split. Qed.

(** * Further properties of the code *)

(** ** The user id *)

Lemma ToInt32_congr (x y : Z) :
  (exists k, x = y + k * 4294967296) -> ToInt32 x = ToInt32 y.
Proof. intros [k ->]. apply ToInt32_add_multiple. Qed.

(** X1: the hash of [hashEmail] is the polynomial hash of base 31 over the
    code units of the email, wrapped to a signed 32-bit integer. *)
Theorem hash_is_polynomial (email : jsstring) :
  fold_left hash_step email 0 = ToInt32 (poly31 email).
Proof.
  unfold poly31. induction email as [|c email IH] using rev_ind; [reflexivity|].
  rewrite !fold_left_app. simpl. rewrite hash_step_31, IH.
  apply ToInt32_congr.
  destruct (ToInt32_spec (fold_left (fun h c => 31 * h + c) email 0)) as [k ->].
  exists (31 * k). lia.
Qed.

Lemma digit36_alnum (d : Z) : 0 <= d < 36 -> is_alnum (digit36 d).
Proof.
  intros H. unfold is_alnum, digit36. destruct (Z.ltb_spec d 10); lia.
Qed.

Lemma digits_alnum (radix : Z) (fuel : nat) :
  2 <= radix <= 36 ->
  forall n acc, 0 <= n -> Forall is_alnum acc -> Forall is_alnum (digits radix fuel n acc).
Proof.
  intros Hr. induction fuel as [|fuel IH]; intros n acc Hn Hacc; [exact Hacc|].
  cbn [digits].
  assert (Forall is_alnum (digit36 (n mod radix) :: acc)) as H.
  { constructor; [|assumption]. apply digit36_alnum.
    pose proof (Z.mod_pos_bound n radix ltac:(lia)). lia. }
  destruct (n / radix =? 0); [exact H|].
  apply IH; [apply Z.div_pos; lia | exact H].
Qed.

Lemma digits_length (radix : Z) (fuel : nat) :
  2 <= radix ->
  forall (k : nat) n acc,
    0 <= n < radix ^ Z.of_nat (S k) ->
    (length acc < length (digits radix (S fuel) n acc) <= S k + length acc)%nat.
Proof.
  intros Hr. induction fuel as [|fuel IH]; intros k n acc Hn.
  - cbn [digits]. destruct (n / radix =? 0); simpl; lia.
  - remember (S fuel) as f. cbn [digits].
    destruct (Z.eqb_spec (n / radix) 0) as [E|E]; [simpl; lia|].
    destruct k as [|k].
    + exfalso. apply E. apply Z.div_small. simpl in Hn. lia.
    + subst f. specialize (IH k (n / radix) (digit36 (n mod radix) :: acc)).
      cbn [length] in IH.
      assert (0 <= n / radix < radix ^ Z.of_nat (S k)) as Hd.
      { split; [apply Z.div_pos; lia|].
        apply Z.div_lt_upper_bound; [lia|].
        rewrite (Nat2Z.inj_succ (S k)), Z.pow_succ_r in Hn by lia. lia. }
      specialize (IH Hd). lia.
Qed.

(** X2: a user id made from an email is ["user_"] followed by one to six
    characters, each a digit or a lower-case letter, which are the base-36
    digits of the absolute value of the hash. *)
Theorem hashEmail_format (email : jsstring) :
  exists ds,
    hashEmail email = jstr "user_" ++ ds
    /\ (1 <= length ds <= 6)%nat
    /\ Forall is_alnum ds
    /\ number_of 36 ds = Z.abs (fold_left hash_step email 0).
Proof.
  unfold hashEmail. set (n := Z.abs (fold_left hash_step email 0)).
  assert (0 <= n <= 2147483648) as Hn.
  { subst n. pose proof (hash_range email). lia. }
  exists (toStringRadix 36 n). split; [reflexivity|].
  split; [|split].
  - unfold toStringRadix. destruct (Z.ltb_spec n 0); [lia|].
    pose proof (digits_length 36 (Z.to_nat (Z.log2 n)) ltac:(lia) 5 n []) as L.
    cbn [length] in L. rewrite Nat.add_0_r in L. apply L.
    change (36 ^ Z.of_nat 6) with 2176782336. lia.
  - unfold toStringRadix. destruct (Z.ltb_spec n 0); [lia|].
    apply digits_alnum; [lia | lia | constructor].
  - apply number_of_toStringRadix; lia.
Qed.

(** X3: two emails get the same user id exactly when their hashes have the
    same absolute value: the base-36 text adds no collision of its own. *)
Theorem hashEmail_collisions (email1 email2 : jsstring) :
  hashEmail email1 = hashEmail email2
  <-> Z.abs (fold_left hash_step email1 0) = Z.abs (fold_left hash_step email2 0).
Proof.
  split; [|unfold hashEmail; now intros ->].
  unfold hashEmail. intros H. apply app_inv_head in H.
  apply (f_equal (number_of 36)) in H.
  rewrite !number_of_toStringRadix in H by lia. exact H.
Qed.

(** X4: whatever the launch parameters, the storage and the random source,
    [getPersistentUserId] stores the id it returns and touches no other
    key; a further call, with any random source, returns the same id and
    leaves the storage as it is. Without an email, an id already stored is
    returned as it is and nothing is written. *)
Theorem getPersistentUserId_stable (params : list (jsstring * jsstring))
    (rnd rnd' : jsstring) (ls : gmap jsstring jsstring) :
  let r := getPersistentUserId params rnd ls in
  snd r !! STORAGE_KEY_USER_ID = Some (fst r)
  /\ (forall k, k <> STORAGE_KEY_USER_ID -> snd r !! k = ls !! k)
  /\ getPersistentUserId params rnd' (snd r) = r
  /\ (forall stored,
        truthy (params_get params (jstr "customer_email")) = false ->
        ls !! STORAGE_KEY_USER_ID = Some stored ->
        stored <> [] ->
        r = (stored, ls)).
Proof.
  unfold getPersistentUserId, getItem.
  destruct (params_get params (jstr "customer_email")) as [| | | |[|c email]| |] eqn:Ep;
    destruct (ls !! STORAGE_KEY_USER_ID) as [[|c' stored]|] eqn:El;
    cbn [fst snd];
    (split; [first [apply lookup_insert_eq | exact El]|]);
    (split; [intros k Hk; first [now apply lookup_insert_ne | reflexivity]|]);
    (split;
     [rewrite ?lookup_insert_eq, ?El; cbn [randomId app jstr];
      rewrite ?insert_insert_eq; reflexivity|]);
    intros s Ht Hs Hne; try discriminate; try congruence.
Qed.

(** The theorem for an anonymous visitor who comes back. *)
Lemma getPersistentUserId_stable_witness :
  getPersistentUserId [] (jstr "zzzzzz") {[STORAGE_KEY_USER_ID := jstr "user_k3x9qa"]}
  = (jstr "user_k3x9qa", {[STORAGE_KEY_USER_ID := jstr "user_k3x9qa"]}).
Proof.
  refine (proj2 (proj2 (proj2 (getPersistentUserId_stable [] (jstr "zzzzzz") [] _)))
            (jstr "user_k3x9qa") eq_refl _ _).
  - apply lookup_singleton_eq.
  - discriminate.
Defined.

(** ** The end of a turn *)

Lemma buffers_finally (a : value) (h : hook) :
  liveEvents (finally_ a h) = [] /\ streamingText (finally_ a h) = [].
Proof. unfold finally_. destruct h, (truthy a); split; reflexivity. Qed.

(** X5: a turn that fails with an error other than an abort appends one
    agent message that quotes the message of the error, clears the live
    feed and the streaming text, and ends in [idle], or in [human_mode] when
    the turn was sent with the AI paused. An abort appends nothing. *)
Theorem fail_shows_error (a : value) (e : error) (h : hook) :
  (err_name e <> jstr "AbortError" ->
   messages (fail a e h)
   = messages h
     ++ [plain agent (VStr ([10060] ++ jstr " Error: " ++ err_message e
                            ++ jstr ". Please check if the server is running."))])
  /\ (err_name e = jstr "AbortError" -> messages (fail a e h) = messages h)
  /\ liveEvents (fail a e h) = []
  /\ streamingText (fail a e h) = []
  /\ status (fail a e h) = (if truthy a then human_mode else idle)
  /\ aiPaused (fail a e h) = aiPaused h.
Proof.
  unfold fail. rewrite messages_finally, status_finally, aiPaused_finally.
  destruct (buffers_finally a (catch_ e h)) as [-> ->].
  repeat split.
  - intros Hn. unfold catch_. rewrite str_eqb_false by assumption.
    destruct h; reflexivity.
  - intros Hn. unfold catch_, str_eqb. now rewrite bool_decide_eq_true_2.
  - unfold catch_. destruct (negb _), h; reflexivity.
Qed.

(** The theorem for a network failure. *)
Lemma fail_shows_error_witness :
  map text (messages (fail (VBool false)
                        (Error (jstr "TypeError") (jstr "Failed to fetch")) fresh))
  = [text WELCOME_MESSAGE;
     VStr ([10060] ++ jstr " Error: Failed to fetch. Please check if the server is running.")].
Proof.
  rewrite (proj1 (fail_shows_error (VBool false)
                    (Error (jstr "TypeError") (jstr "Failed to fetch")) fresh))
    by discriminate.
  reflexivity.
Defined.

(** X6: however the stream of a turn ends, the turn clears the live feed
    and the streaming text, ends in [idle] or, when it was sent with the AI
    paused, in [human_mode], and appends at most one message, an agent
    message. *)
Theorem finalize_completes (a : value) (t : turn) (h : hook) :
  liveEvents (finalize a t h) = []
  /\ streamingText (finalize a t h) = []
  /\ status (finalize a t h) = (if truthy a then human_mode else idle)
  /\ (messages (finalize a t h) = messages h
      \/ exists m, messages (finalize a t h) = messages h ++ [m] /\ role m = agent).
Proof.
  unfold finalize. rewrite messages_finally, status_finally.
  destruct (buffers_finally a (match finish t h with Ok h' => h' | Throw e => catch_ e h end))
    as [-> ->].
  repeat split. unfold finish.
  destruct (_ || _); simpl; [left; destruct h; reflexivity|].
  destruct (extractProducts (allEvents t)) as [ps|e]; simpl.
  - right. eexists. split; [destruct h; reflexivity | reflexivity].
  - unfold catch_. destruct (negb _); [right|left; reflexivity].
    eexists. split; [destruct h; reflexivity | reflexivity].
Qed.

(** X7: [extractProducts] throws exactly when one of the values pushed by
    the function responses is [null] or [undefined] (a [null] in a
    [products] array); a turn whose text would be shown then ends with the
    error message of the [catch] clause instead of the agent's answer. *)
Theorem extractProducts_null (a : value) (t : turn) (h : hook) :
  let pushed := concat (map pushed_products (allEvents t)) in
  ((exists e, extractProducts (allEvents t) = Throw e)
   <-> Exists (fun p => nullish p = true) pushed)
  /\ (Exists (fun p => nullish p = true) pushed ->
      finalText t <> AI_PAUSED ->
      trim (finalText t) <> [] ->
      exists e,
        extractProducts (allEvents t) = Throw e
        /\ messages (finalize a t h)
           = messages h
             ++ [plain agent
                   (VStr ([10060] ++ jstr " Error: " ++ err_message e
                          ++ jstr ". Please check if the server is running."))]).
Proof.
  intros pushed. split; [split|].
  - intros [e He].
    destruct (decide (Exists (fun p => nullish p = true) pushed)) as [|N];
      [assumption|].
    exfalso. unfold extractProducts in He. fold pushed in He.
    rewrite filterM_has_name_and_price in He; [discriminate|].
    apply Forall_forall. intros p Hp. destruct (nullish p) eqn:E; [|reflexivity].
    exfalso. apply N. apply Exists_exists. eauto.
  - intros H. eexists. apply filterM_has_name_and_price_throws. exact H.
  - intros H Hs Ht. eexists. split.
    + apply filterM_has_name_and_price_throws. exact H.
    + unfold finalize, finish.
      rewrite str_eqb_false by assumption.
      destruct (trim (finalText t)) eqn:E; [contradiction|].
      unfold extractProducts. fold pushed.
      rewrite filterM_has_name_and_price_throws by assumption. simpl.
      rewrite messages_finally. destruct h; reflexivity.
Qed.

(** The theorem on a response whose product list holds [null]. *)
Lemma extractProducts_null_witness :
  let stream := [response_event "search_products"
                   (VObj [(jstr "products", VArr [sofa_a; VNull])]);
                 text_event "Here are some options"] in
  let st := fold_left (on_data (fun _ => 0)) stream (fresh, Turn [] [] []) in
  map role (messages (finalize (VBool false) (snd st) (fst st))) = [system; agent]
  /\ map products (messages (finalize (VBool false) (snd st) (fst st))) = [None; None].
Proof.
  intros stream st.
  destruct (proj2 (extractProducts_null (VBool false) (snd st) (fst st)))
    as (e & _ & ->).
  - vm_compute. apply Exists_cons_tl, Exists_cons_hd. reflexivity.
  - vm_compute. discriminate.
  - vm_compute. discriminate.
  - split; reflexivity.
Defined.

(** ** The read loop, chunk by chunk *)

Lemma last_cons_Some {A} (l : list A) (a : A) : exists x, last (a :: l) = Some x.
Proof.
  revert a. induction l as [|b l IH]; intros a; [now exists a|]. apply (IH b).
Qed.

Lemma pop_single (a : jsstring) : pop [a] = ([], a).
Proof. reflexivity. Qed.

Lemma pop_cons (a b : jsstring) (l : list jsstring) :
  pop (a :: b :: l) = (a :: fst (pop (b :: l)), snd (pop (b :: l))).
Proof.
  unfold pop. change (last (a :: b :: l)) with (last (b :: l)).
  destruct (last_cons_Some l b) as [x ->]. reflexivity.
Qed.

Lemma pop_app (l1 l2 : list jsstring) :
  l2 <> [] -> pop (l1 ++ l2) = (l1 ++ fst (pop l2), snd (pop l2)).
Proof.
  intros H. induction l1 as [|a l1 IH]; [simpl; now destruct (pop l2)|].
  destruct (l1 ++ l2) as [|b l] eqn:E.
  - destruct l1, l2; discriminate || contradiction.
  - simpl app. rewrite E, pop_cons, IH. reflexivity.
Qed.

Lemma split_cons_ex (sep : Z) (s : jsstring) : exists x xs, split sep s = x :: xs.
Proof.
  induction s as [|c s (x & xs & IH)]; simpl; [eauto|].
  destruct (c =? sep); [eauto|]. rewrite IH. eauto.
Qed.

(** Splitting a text that is cut in two: the lines of the first part but
    the last, then the lines of that last one followed by the second
    part. *)
Lemma split_app (sep : Z) (x y : jsstring) :
  split sep (x ++ y)
  = fst (pop (split sep x)) ++ split sep (snd (pop (split sep x)) ++ y).
Proof.
  induction x as [|c r IH]; [reflexivity|].
  cbn [app split]. rewrite IH. clear IH.
  destruct (split_cons_ex sep r) as (x0 & xs & E). rewrite E.
  destruct (c =? sep) eqn:Ec.
  - rewrite pop_cons. reflexivity.
  - destruct xs as [|b l].
    + rewrite !pop_single. cbn [fst snd app split]. rewrite Ec. reflexivity.
    + rewrite !pop_cons. reflexivity.
Qed.

Lemma split_sep_free (sep : Z) (s : jsstring) :
  Forall (fun c => c <> sep) s -> split sep s = [s].
Proof.
  induction 1 as [|c s Hc _ IH]; [reflexivity|].
  simpl. destruct (Z.eqb_spec c sep); [contradiction|]. now rewrite IH.
Qed.

Lemma split_pieces_sep_free (sep : Z) (s : jsstring) :
  Forall (Forall (fun c => c <> sep)) (split sep s).
Proof.
  induction s as [|c s IH]; simpl; [repeat constructor|].
  destruct (Z.eqb_spec c sep) as [|Hc]; [constructor; [constructor | exact IH]|].
  destruct (split sep s) as [|x xs]; [repeat constructor; assumption|].
  inversion IH; subst. constructor; [constructor|]; assumption.
Qed.

Lemma pop_Forall (P : jsstring -> Prop) (l : list jsstring) :
  l <> [] -> Forall P l -> P (snd (pop l)).
Proof.
  induction l as [|a [|b l] IH]; intros Hne H; [contradiction| |].
  - now inversion H.
  - rewrite pop_cons. simpl. inversion H; subst. apply IH; [discriminate | assumption].
Qed.

Lemma finalText_last_text (t : turn) :
  finalText t = last_text (allEvents t) (accumulatedText t).
Proof.
  unfold finalText, last_text. generalize (accumulatedText t) as d.
  induction (allEvents t) as [|p evs IH] using rev_ind; intros d; [reflexivity|].
  rewrite List.filter_app, fold_left_app. simpl.
  destruct p as [| |partial txt raw|]; simpl; rewrite ?app_nil_r; try apply IH.
  now rewrite last_snoc.
Qed.

Section ReadLoop.

Variable JSON_parse : jsstring -> res value.
Variable Date_now : nat -> Z.

Local Abbreviation on_line' := (on_line JSON_parse Date_now).
Local Abbreviation on_chunk' := (on_chunk JSON_parse Date_now).

Lemma effect_refl (h : hook) (evs : list parsed) (acc : jsstring) :
  effect h evs acc h evs acc.
Proof. exists []. rewrite !app_nil_r. repeat split. Qed.

Lemma effect_trans (h1 h2 h3 : hook) (e1 e2 e3 : list parsed) (a1 a2 a3 : jsstring) :
  effect h1 e1 a1 h2 e2 a2 -> effect h2 e2 a2 h3 e3 a3 -> effect h1 e1 a1 h3 e3 a3.
Proof.
  intros (n1 & -> & -> & S1 & L1 & M1 & T1 & P1) (n2 & -> & -> & S2 & L2 & M2 & T2 & P2).
  exists (n1 ++ n2).
  split; [now rewrite app_assoc|].
  split; [unfold last_text; now rewrite fold_left_app|].
  split; [rewrite S2, S1; unfold last_text; now rewrite fold_left_app|].
  split; [rewrite L2, L1, List.filter_app, app_assoc; reflexivity|].
  repeat split; congruence.
Qed.

Lemma on_data_buffer (h : hook) (evs : list parsed) (acc b b' : jsstring) (e : value) :
  let r := on_data Date_now (h, Turn b evs acc) e in
  on_data Date_now (h, Turn b' evs acc) e
  = (fst r, Turn b' (allEvents (snd r)) (accumulatedText (snd r)))
  /\ buffer (snd r) = b.
Proof.
  unfold on_data, on_event. destruct (parseEvent e) as [p|]; simpl; [|auto].
  destruct p; simpl; auto.
Qed.

Lemma on_data_effect (h : hook) (t : turn) (e : value) :
  let r := on_data Date_now (h, t) e in
  effect h (allEvents t) (accumulatedText t)
         (fst r) (allEvents (snd r)) (accumulatedText (snd r)).
Proof.
  destruct (parseEvent e) as [p|err] eqn:Hp.
  - destruct (on_data_classified Date_now e p h t Hp) as (h' & -> & M & S & A & T & L).
    exists [p]. simpl. repeat split; assumption.
  - unfold on_data. rewrite (on_event_throw Date_now e (h, t) err Hp). apply effect_refl.
Qed.

Lemma on_line_buffer (h : hook) (evs : list parsed) (acc b b' : jsstring)
    (line : jsstring) :
  let r := on_line' (h, Turn b evs acc) line in
  on_line' (h, Turn b' evs acc) line
  = (fst r, Turn b' (allEvents (snd r)) (accumulatedText (snd r)))
  /\ buffer (snd r) = b.
Proof.
  unfold on_line. destruct (startsWith _ _); [|auto].
  destruct (JSON_parse _); [apply on_data_buffer | auto].
Qed.

Lemma on_line_effect (h : hook) (t : turn) (line : jsstring) :
  let r := on_line' (h, t) line in
  effect h (allEvents t) (accumulatedText t)
         (fst r) (allEvents (snd r)) (accumulatedText (snd r)).
Proof.
  unfold on_line. destruct (startsWith _ _); [|apply effect_refl].
  destruct (JSON_parse _); [apply on_data_effect | apply effect_refl].
Qed.

Lemma on_lines_buffer (lines : list jsstring) :
  forall (h : hook) (evs : list parsed) (acc b b' : jsstring),
    let r := fold_left on_line' lines (h, Turn b evs acc) in
    fold_left on_line' lines (h, Turn b' evs acc)
    = (fst r, Turn b' (allEvents (snd r)) (accumulatedText (snd r)))
    /\ buffer (snd r) = b.
Proof.
  induction lines as [|line lines IH]; intros h evs acc b b'; [simpl; auto|].
  cbn [fold_left].
  destruct (on_line_buffer h evs acc b b' line) as [-> Hb].
  destruct (on_line' (h, Turn b evs acc) line) as [h1 [b1 evs1 acc1]].
  simpl in Hb. subst b1. apply IH.
Qed.

Lemma on_lines_effect (lines : list jsstring) :
  forall (h : hook) (t : turn),
    let r := fold_left on_line' lines (h, t) in
    effect h (allEvents t) (accumulatedText t)
           (fst r) (allEvents (snd r)) (accumulatedText (snd r)).
Proof.
  induction lines as [|line lines IH]; intros h t; [apply effect_refl|].
  cbn [fold_left]. pose proof (on_line_effect h t line) as E1.
  destruct (on_line' (h, t) line) as [h1 t1]. eapply effect_trans; [exact E1|].
  apply IH.
Qed.

Lemma on_chunk_effect (chunk : jsstring) (h : hook) (t : turn) :
  let r := on_chunk' chunk (h, t) in
  effect h (allEvents t) (accumulatedText t)
         (fst r) (allEvents (snd r)) (accumulatedText (snd r)).
Proof.
  unfold on_chunk. destruct (pop _) as [lines rest].
  apply (on_lines_effect lines h (Turn rest (allEvents t) (accumulatedText t))).
Qed.

(** X8: how the stream is cut into chunks does not matter: reading a chunk
    and then the next one is reading the two as one chunk. *)
Theorem on_chunk_app (c1 c2 : jsstring) (st : hook * turn) :
  on_chunk' (c1 ++ c2) st = on_chunk' c2 (on_chunk' c1 st).
Proof.
  destruct st as [h [b evs acc]]. unfold on_chunk. cbn [buffer allEvents accumulatedText].
  rewrite app_assoc, split_app.
  destruct (pop (split 10 (b ++ c1))) as [lines1 rest1]. cbn [fst snd].
  destruct (split_cons_ex 10 (rest1 ++ c2)) as (x & xs & E).
  rewrite pop_app by (rewrite E; discriminate).
  destruct (pop (split 10 (rest1 ++ c2))) as [lines2 rest2] eqn:E2. cbn [fst snd].
  rewrite fold_left_app.
  destruct (on_lines_buffer lines1 h evs acc rest1 rest2) as [-> Hb].
  destruct (fold_left on_line' lines1 (h, Turn rest1 evs acc)) as [h1 [b1 evs1 acc1]].
  simpl in Hb. subst b1. cbn [fst snd buffer allEvents accumulatedText].
  rewrite E2. reflexivity.
Qed.

(** X9: the text kept for the next chunk never holds a line feed; a chunk
    without a line feed only adds to it, whatever it holds, and the end of
    the turn does not look at it: a record that is not followed by a line
    feed is never read. *)
Theorem unterminated_record_dropped (chunk : jsstring) (a : value) (h : hook) (t : turn) :
  Forall (fun c => c <> 10) (buffer (snd (on_chunk' chunk (h, t))))
  /\ (Forall (fun c => c <> 10) (buffer t ++ chunk) ->
      on_chunk' chunk (h, t)
      = (h, Turn (buffer t ++ chunk) (allEvents t) (accumulatedText t)))
  /\ (forall b, finalize a (Turn b (allEvents t) (accumulatedText t)) h = finalize a t h).
Proof.
  split; [|split].
  - unfold on_chunk.
    destruct (split_cons_ex 10 (buffer t ++ chunk)) as (x & xs & E).
    pose proof (pop_Forall (Forall (fun c => c <> 10)) (split 10 (buffer t ++ chunk))) as P.
    destruct (pop (split 10 (buffer t ++ chunk))) as [lines rest].
    destruct (on_lines_buffer lines h (allEvents t) (accumulatedText t) rest rest) as [_ ->].
    apply P; [rewrite E; discriminate | apply split_pieces_sep_free].
  - intros H. unfold on_chunk. rewrite split_sep_free by assumption. reflexivity.
  - intros b. destruct t. reflexivity.
Qed.

(** X10: a chunk only adds events to the turn, none, one or several; the
    live feed gains the function calls and the function responses among
    them, in order; the streaming text and [accumulatedText] become the
    text of the last text event among them, if any; the read loop changes
    neither the messages, nor the status, nor the pause flag. *)
Theorem on_chunk_adds_events (chunk : jsstring) (h : hook) (t : turn) :
  let r := on_chunk' chunk (h, t) in
  exists new,
    allEvents (snd r) = allEvents t ++ new
    /\ accumulatedText (snd r) = last_text new (accumulatedText t)
    /\ streamingText (fst r) = last_text new (streamingText h)
    /\ map le_event (liveEvents (fst r))
       = map le_event (liveEvents h) ++ List.filter is_live new
    /\ messages (fst r) = messages h
    /\ status (fst r) = status h
    /\ aiPaused (fst r) = aiPaused h.
Proof. apply on_chunk_effect. Qed.

Lemma tracked_chunks (chunks : list jsstring) :
  forall (h : hook) (t : turn),
    accumulatedText t = last_text (allEvents t) [] ->
    let r := fold_left (fun st c => on_chunk' c st) chunks (h, t) in
    accumulatedText (snd r) = last_text (allEvents (snd r)) [].
Proof.
  induction chunks as [|c chunks IH]; intros h t Ht; [exact Ht|].
  cbn [fold_left]. pose proof (on_chunk_effect c h t) as E.
  destruct (on_chunk' c (h, t)) as [h1 t1]. apply IH.
  cbn [fst snd] in E. destruct E as (new & -> & -> & _).
  unfold last_text. now rewrite fold_left_app, Ht.
Qed.

(** X11: all along the stream of a turn [accumulatedText] is the text of
    the last text event of [allEvents] (empty when there is none), so the
    final text computed from the text events at the end of the stream is
    [accumulatedText]. *)
Theorem finalText_is_accumulatedText (chunks : list jsstring) (h : hook) :
  let r := fold_left (fun st c => on_chunk' c st) chunks (h, Turn [] [] []) in
  accumulatedText (snd r) = last_text (allEvents (snd r)) []
  /\ finalText (snd r) = accumulatedText (snd r).
Proof.
  intros r. pose proof (tracked_chunks chunks h (Turn [] [] []) eq_refl) as T.
  fold r in T. split; [exact T|].
  rewrite finalText_last_text, T. unfold last_text.
  generalize (allEvents (snd r)) as evs. intros evs.
  induction evs as [|p evs IH] using rev_ind; [reflexivity|].
  rewrite !fold_left_app. simpl. destruct p; auto.
Qed.

End ReadLoop.

(** The theorem on a record whose line is not ended. *)
Lemma unterminated_record_dropped_witness :
  let record := jstr "data: " ++ json_text (text_event "Hello") in
  on_chunk (parse_table [text_event "Hello"]) (fun _ => 0) record (fresh, Turn [] [] [])
  = (fresh, Turn record [] []).
Proof.
  intros record.
  refine (proj1 (proj2 (unterminated_record_dropped
                          (parse_table [text_event "Hello"]) (fun _ => 0)
                          record VNull fresh (Turn [] [] []))) _).
  vm_compute. repeat constructor; discriminate.
Defined.

(** ** Sending, cancelling, resetting *)

Lemma catch_abort (h : hook) : catch_ AbortError h = h.
Proof. reflexivity. Qed.

Lemma fail_abort (a : value) (h : hook) :
  fail a AbortError h = finally_ a h.
Proof. unfold fail. now rewrite catch_abort. Qed.

Section Actions.

Variable params : list (jsstring * jsstring).
Variable JSON_parse : jsstring -> res value.
Variable Date_now : nat -> Z.
Variable toISOString : Z -> jsstring.

Local Abbreviation step' := (step params JSON_parse Date_now toISOString).

Lemma send_rejected (w : world) (text : jsstring) :
  trim text = [] \/ (status (hk w) <> idle /\ status (hk w) <> human_mode) ->
  step' w (Send text) = w.
Proof.
  intros H. unfold step, sendMessage_start.
  destruct H as [->|[H1 H2]]; [reflexivity|].
  destruct (trim text); simpl; destruct (status (hk w)); try reflexivity; contradiction.
Qed.

(** X12: [sendMessage] does nothing at all when the text is blank or the
    status is neither [idle] nor [human_mode]. Otherwise it appends one user
    message with the trimmed text, empties the live feed and the streaming
    text, starts one task, and sets the status: [recovering] when the call
    of [ensureSession] issues the recovery fetch, else [human_mode] when the
    AI is paused and [loading] when it is not. *)
Theorem sendMessage_guard (w : world) (text : jsstring) :
  let h := hk w in
  let w' := step' w (Send text) in
  (trim text = [] \/ (status h <> idle /\ status h <> human_mode) -> w' = w)
  /\ (trim text <> [] ->
      status h = idle \/ status h = human_mode ->
      messages (hk w') = messages h ++ [plain user (VStr (trim text))]
      /\ liveEvents (hk w') = []
      /\ streamingText (hk w') = []
      /\ aiPaused (hk w') = aiPaused h
      /\ length (tasks w') = S (length (tasks w))
      /\ status (hk w')
         = match snd (ensureSession params h) with
           | AwaitingRecovery => recovering
           | _ => if truthy (aiPaused h) then human_mode else loading
           end).
Proof.
  intros h w'. split; [apply send_rejected|].
  intros Ht Hs. subst w' h. destruct w as [h ts]. cbn [hk tasks] in *.
  unfold step, sendMessage_start. cbn [hk tasks].
  assert (negb (truthy (VStr (trim text)))
          || negb (Status_eqb (status h) idle) && negb (Status_eqb (status h) human_mode)
          = false) as ->.
  { destruct (trim text); [contradiction|]. destruct Hs as [-> | ->]; reflexivity. }
  unfold call, ensureSession, ensureSession_create, resume. destruct h. cbn.
  destruct sessionCreatedRef0, (truthy sessionIdRef0) eqn:Es, sessionRecoveryAttempted0,
    (truthy aiPaused0) eqn:Ea; cbn; rewrite ?Es, ?Ea; cbn; rewrite ?Es, ?Ea; cbn;
    rewrite length_app; cbn; rewrite Nat.add_1_r; repeat split.
Qed.

Lemma trim_nil : trim [] = [].
Proof. reflexivity. Qed.

(** X13: what a submit of the form does to the page, through [handleSubmit]
    of [ChatInput], [handleSend] of [App] and [sendMessage]. With a blank
    input, or while the status is [loading] or [streaming], nothing happens.
    In status [idle] or [human_mode] the trimmed text is sent and the input
    box is emptied. In status [recovering] the form accepts the submit,
    [sendMessage] ignores it, and the input box is emptied all the same: the
    text is lost. *)
Theorem submit_cases (pg : page) :
  let v := input_box pg in
  let s := status (hk (hook_of pg)) in
  let submit' := submit params JSON_parse Date_now toISOString in
  (trim v = [] \/ s = loading \/ s = streaming -> submit' pg = pg)
  /\ (trim v <> [] -> s = idle \/ s = human_mode ->
      submit' pg = Page [] (step' (hook_of pg) (Send (trim v))))
  /\ (trim v <> [] -> s = recovering -> submit' pg = Page [] (hook_of pg)).
Proof.
  intros v s submit'. subst submit' v s. unfold submit, handleSubmit, isBusy.
  split; [|split].
  - intros [E | [E | E]]; rewrite E; cbn; rewrite ?andb_false_r; reflexivity.
  - intros Ht Hs.
    assert (negb (Status_eqb (status (hk (hook_of pg))) loading
                  || Status_eqb (status (hk (hook_of pg))) streaming) = true) as ->
      by (destruct Hs as [-> | ->]; reflexivity).
    unfold handleSend.
    destruct (input_box pg) as [|c v]; [now rewrite trim_nil in Ht|].
    destruct (trim (c :: v)) eqn:E; [contradiction|].
    cbn -[trim step]. rewrite E. reflexivity.
  - intros Ht Hs. rewrite Hs. cbn [Status_eqb orb negb].
    unfold handleSend.
    destruct (input_box pg) as [|c v]; [now rewrite trim_nil in Ht|].
    destruct (trim (c :: v)) eqn:E; [contradiction|].
    cbn -[trim step]. rewrite E. cbn -[trim step].
    rewrite send_rejected; [reflexivity|]. right. rewrite Hs. split; discriminate.
Qed.

Lemma turn_under_way_reset (w : world) :
  turn_under_way (World (reset_state (hk w)) (tasks w)) = turn_under_way w.
Proof. destruct w as [[] ts]. reflexivity. Qed.

Lemma abort_cases (w : world) :
  match turn_under_way w with
  | Some a =>
      exists i, abortControllerRef (hk w) = Some i
                /\ abort w = World (finally_ a (hk w)) (<[i := Finished]> (tasks w))
  | None => abort w = w
  end.
Proof.
  unfold turn_under_way, abort.
  destruct (abortControllerRef (hk w)) as [i|]; [|reflexivity].
  destruct (tasks w !! i) as [[]|]; try reflexivity;
    exists i; now rewrite fail_abort.
Qed.

Lemma turn_under_way_finished (h : hook) (ts : list task) (i : nat) :
  abortControllerRef h = Some i ->
  (i < length ts)%nat ->
  turn_under_way (World h (<[i := Finished]> ts)) = None.
Proof.
  intros E Hi. unfold turn_under_way. cbn [hk tasks].
  now rewrite E, list_lookup_insert_eq.
Qed.

(** X14: [cancelStream]. When the turn of the current abort controller is
    still under way (its request sent, its stream not yet ended), that turn
    ends at once: no message is added, not even an error message, the live
    feed and the streaming text are emptied, and the status is [human_mode]
    or [idle] by the [aiPaused] the turn closed over. In any other state
    [cancelStream] changes nothing. *)
Theorem cancelStream_cases (w : world) :
  let w' := step' w Cancel in
  match turn_under_way w with
  | Some a =>
      messages (hk w') = messages (hk w)
      /\ liveEvents (hk w') = []
      /\ streamingText (hk w') = []
      /\ status (hk w') = (if truthy a then human_mode else idle)
      /\ aiPaused (hk w') = aiPaused (hk w)
      /\ requests (hk w') = requests (hk w)
      /\ turn_under_way w' = None
  | None => w' = w
  end.
Proof.
  intros w'. subst w'. change (step' w Cancel) with (abort w).
  pose proof (abort_cases w) as H.
  destruct (turn_under_way w) as [a|] eqn:Eu; [|exact H].
  destruct H as (i & Ei & ->).
  assert (i < length (tasks w))%nat as Hi.
  { unfold turn_under_way in Eu. rewrite Ei in Eu.
    destruct (tasks w !! i) eqn:Et; [|discriminate].
    apply lookup_lt_is_Some; eauto. }
  rewrite turn_under_way_finished
    by (assumption || (rewrite <- Ei; unfold finally_; destruct (hk w);
                       now destruct (truthy a))).
  cbn [hk tasks]. unfold finally_. destruct (hk w).
  destruct (truthy a); cbn; repeat split.
Qed.

Lemma reset_effect (w : world) :
  let h := hk w in
  let w' := step' w Reset in
  let h' := hk w' in
  messages h' = [WELCOME_MESSAGE]
  /\ liveEvents h' = [] /\ streamingText h' = []
  /\ aiPaused h' = VBool false /\ isRecovered h' = false
  /\ sessionIdRef h' = VNull /\ sessionCreatedRef h' = false
  /\ sessionRecoveryAttempted h' = false
  /\ listenEventSourceRef h' = None
  /\ localStorage h' = delete STORAGE_KEY_SESSION_ID (localStorage h)
  /\ userIdRef h' = userIdRef h
  /\ requests h' = requests h
  /\ status h' = match turn_under_way w with
                 | Some a => if truthy a then human_mode else idle
                 | None => idle
                 end
  /\ forall i c, tasks w !! i = Some (Recovering c) \/ tasks w !! i = Some (Creating c) ->
                 tasks w' !! i = tasks w !! i.
Proof.
  intros h w' h'. subst h' w' h.
  change (step' w Reset) with (abort (World (reset_state (hk w)) (tasks w))).
  pose proof (abort_cases (World (reset_state (hk w)) (tasks w))) as H.
  rewrite turn_under_way_reset in H. cbn [hk tasks] in H.
  destruct (turn_under_way w) as [a|] eqn:Eu.
  - destruct H as (i & Ei & ->). cbn [hk tasks].
    assert (exists t, tasks w !! i = Some t /\ forall c, t <> Recovering c /\ t <> Creating c)
      as (t & Et & Hne).
    { unfold turn_under_way in Eu.
      replace (abortControllerRef (hk w)) with (Some i) in Eu
        by (destruct (hk w); exact (eq_sym Ei)).
      destruct (tasks w !! i) as [[]|]; try discriminate; eexists; split; eauto;
        split; discriminate. }
    unfold finally_, reset_state, clearStoredSession. destruct (hk w). cbn.
    destruct (truthy a); cbn; repeat split; intros j c Hj;
      (destruct (decide (i = j)) as [<- | Hij];
       [rewrite Et in Hj; destruct (Hne c); destruct Hj as [[=]|[=]]; congruence
       |now rewrite list_lookup_insert_ne by assumption]).
  - rewrite H. cbn [hk tasks]. unfold reset_state, clearStoredSession.
    destruct (hk w). cbn. repeat split.
Qed.

(** X15: [reset]. The conversation is the welcome message alone, the live
    feed and the streaming text are empty, the AI is not paused, the session
    refs are cleared and the stored session id is removed, the listener is
    closed; the user id, in the ref and in the storage, is kept, and no
    request is sent. The status is [idle], unless a turn under way closed
    over a paused AI: its [finally] runs after the reset and leaves
    [human_mode]. Tasks that await the negotiation are not cancelled. *)
Theorem reset_keeps_identity (w : world) :
  let h := hk w in
  let w' := step' w Reset in
  let h' := hk w' in
  messages h' = [WELCOME_MESSAGE]
  /\ liveEvents h' = [] /\ streamingText h' = []
  /\ aiPaused h' = VBool false /\ isRecovered h' = false
  /\ sessionIdRef h' = VNull /\ sessionCreatedRef h' = false
  /\ sessionRecoveryAttempted h' = false
  /\ listenEventSourceRef h' = None
  /\ localStorage h' = delete STORAGE_KEY_SESSION_ID (localStorage h)
  /\ userIdRef h' = userIdRef h
  /\ requests h' = requests h
  /\ status h' = match turn_under_way w with
                 | Some a => if truthy a then human_mode else idle
                 | None => idle
                 end
  /\ forall i c, tasks w !! i = Some (Recovering c) \/ tasks w !! i = Some (Creating c) ->
                 tasks w' !! i = tasks w !! i.
Proof. apply reset_effect. Qed.

End Actions.

(** The guard on a page that is streaming an answer. *)
Lemma sendMessage_guard_witness :
  let w := run_page [] (jstr "k3x9qa") ∅
             [Send (jstr "Hello"); Creation 0 (created "s-1"); Run 0 opened] in
  step [] (parse_table []) (fun _ => 0) (fun _ => []) w (Send (jstr "Are you there?")) = w.
Proof.
  intros w.
  refine (proj1 (sendMessage_guard [] (parse_table []) (fun _ => 0) (fun _ => [])
                   w (jstr "Are you there?")) _).
  right. split; discriminate.
Defined.

(** A text typed while the stored session is being recovered is lost. *)
Lemma submit_cases_witness :
  let w := stale_page [Mount] in
  submit [] (parse_table []) (fun _ => 0) (fun _ => []) (Page (jstr "Hello") w)
  = Page [] w.
Proof.
  intros w.
  refine (proj2 (proj2 (submit_cases [] (parse_table []) (fun _ => 0) (fun _ => [])
                          (Page (jstr "Hello") w))) _ _).
  - discriminate.
  - reflexivity.
Defined.

(** The theorem on a page that is creating its session. *)
Lemma reset_keeps_identity_witness :
  let w := run_page [] (jstr "k3x9qa") ∅ [Send (jstr "Hello")] in
  tasks (step [] (parse_table []) (fun _ => 0) (fun _ => []) w Reset) !! 0%nat
  = tasks w !! 0%nat.
Proof.
  intros w.
  refine (proj2 (proj2 (proj2 (proj2 (proj2 (proj2 (proj2 (proj2 (proj2 (proj2 (proj2
            (proj2 (proj2 (reset_keeps_identity [] (parse_table []) (fun _ => 0)
                             (fun _ => []) w)))))))))))))
            0%nat (BySend (jstr "Hello") (VBool false)) _).
  right. reflexivity.
Defined.

(** ** Identity and session over a run *)

Lemma user_view_catch (e : error) (h : hook) : user_view (catch_ e h) = user_view h.
Proof. unfold catch_. destruct (negb _); destruct h; reflexivity. Qed.

Lemma user_view_finally (a : value) (h : hook) : user_view (finally_ a h) = user_view h.
Proof. unfold finally_. destruct (negb _); destruct h; reflexivity. Qed.

Lemma user_view_fail (a : value) (e : error) (h : hook) :
  user_view (fail a e h) = user_view h.
Proof. unfold fail. now rewrite user_view_finally, user_view_catch. Qed.

Lemma user_view_finalize (a : value) (t : turn) (h : hook) :
  user_view (finalize a t h) = user_view h.
Proof.
  unfold finalize. rewrite user_view_finally. unfold finish.
  destruct (_ || _); simpl; [destruct h; reflexivity|].
  destruct (extractProducts (allEvents t)); simpl;
    [destruct h; reflexivity | apply user_view_catch].
Qed.

Lemma user_view_startListening (sessionId : value) (userId : jsstring) (h : hook) :
  user_view (startListening sessionId userId h) = user_view h.
Proof. destruct h. reflexivity. Qed.

Lemma user_view_reset_state (h : hook) : user_view (reset_state h) = user_view h.
Proof.
  destruct h. unfold user_view. simpl. f_equal.
  apply lookup_delete_ne. intros E. symmetry in E. now apply user_key_is_not_session_key.
Qed.

Lemma user_view_created (r : http) (h : hook) :
  user_view (fst (ensureSession_created r h)) = user_view h.
Proof.
  unfold ensureSession_created.
  destruct r as [e|[] st [session|e]]; simpl; try reflexivity.
  destruct (get session (jstr "id")) as [id|e]; simpl; [|reflexivity].
  unfold storeSessionId. destruct h, (truthy id); unfold user_view; simpl; f_equal.
  apply lookup_insert_ne. intros E. symmetry in E. now apply user_key_is_not_session_key.
Qed.

Section Identity.

Variable params : list (jsstring * jsstring).
Variable JSON_parse : jsstring -> res value.
Variable Date_now : nat -> Z.
Variable toISOString : Z -> jsstring.

Local Abbreviation step' := (step params JSON_parse Date_now toISOString).
Local Abbreviation run' := (run params JSON_parse Date_now toISOString).

Lemma user_view_on_data (st : hook * turn) (e : value) :
  user_view (fst (on_data Date_now st e)) = user_view (fst st).
Proof.
  destruct st as [h t]. unfold on_data, on_event.
  destruct (parseEvent e) as [p|]; simpl; [|reflexivity].
  destruct (is_live p), p; destruct h; reflexivity.
Qed.

Lemma user_view_on_line (st : hook * turn) (line : jsstring) :
  user_view (fst (on_line JSON_parse Date_now st line)) = user_view (fst st).
Proof.
  unfold on_line. destruct (startsWith _ _); [|reflexivity].
  destruct (JSON_parse _); [apply user_view_on_data | reflexivity].
Qed.

Lemma user_view_on_lines (lines : list jsstring) (st : hook * turn) :
  user_view (fst (fold_left (on_line JSON_parse Date_now) lines st)) = user_view (fst st).
Proof.
  revert st. induction lines as [|line lines IH]; intros st; [reflexivity|].
  simpl. now rewrite IH, user_view_on_line.
Qed.

Lemma user_view_on_chunk (chunk : jsstring) (st : hook * turn) :
  user_view (fst (on_chunk JSON_parse Date_now chunk st)) = user_view (fst st).
Proof.
  destruct st as [h t]. unfold on_chunk. destruct (pop _) as [lines rest].
  now rewrite user_view_on_lines.
Qed.

Lemma user_view_onmessage (event_data : jsstring) (h : hook) :
  user_view (onmessage JSON_parse Date_now toISOString event_data h) = user_view h.
Proof.
  unfold onmessage. destruct (JSON_parse event_data) as [data|]; simpl; [|reflexivity].
  unfold on_inbound. destruct (get data (jstr "type")) as [type|]; simpl; [|reflexivity].
  destruct (is_str type "new_message"), (is_str type "ai_status_changed");
    try destruct (truthy (prop data (jstr "message"))); destruct h; reflexivity.
Qed.

Lemma user_view_sendMessage_start (s : Status) (a : value) (text : jsstring)
    (h h' : hook) :
  sendMessage_start s a text h = Some h' -> user_view h' = user_view h.
Proof.
  unfold sendMessage_start. destruct (_ || _); [discriminate|].
  intros [= <-]. destruct (truthy a), h; reflexivity.
Qed.

Lemma user_view_ensureSession (h : hook) :
  user_view (fst (ensureSession params h)) = user_view h.
Proof.
  unfold ensureSession, ensureSession_create.
  destruct (_ && _); [reflexivity|]. destruct (_ && _); destruct h; reflexivity.
Qed.

Lemma user_view_tryRecoverSession (r : http) (h : hook) :
  user_view (fst (tryRecoverSession r h)) = user_view h.
Proof.
  unfold tryRecoverSession.
  destruct r as [e|[] st [session|e]]; simpl; auto.
  destruct (truthy session); simpl; auto.
  destruct (truthy (prop session (jstr "events"))); simpl; auto.
  destruct (prop (prop session (jstr "events")) (jstr "length")) as [| | |[]| | |];
    simpl; auto;
    (destruct (parseEventsToMessages (prop session (jstr "events"))) as [[|m ms]|];
     simpl; auto;
     destruct (truthy (get_opt (prop session (jstr "state")) (jstr "ai_paused")));
     destruct h; reflexivity).
Qed.

Lemma user_view_recovered (r : http) (h : hook) :
  user_view (fst (ensureSession_recovered params r h)) = user_view h.
Proof.
  unfold ensureSession_recovered.
  pose proof (user_view_tryRecoverSession r h) as E.
  destruct (tryRecoverSession r h) as [h1 v]. simpl in E. rewrite <- E.
  destruct (truthy v); [destruct h1; reflexivity|].
  unfold ensureSession_create, clearStoredSession. destruct h1. unfold user_view. simpl.
  f_equal. apply lookup_delete_ne. intros F. symmetry in F.
  now apply user_key_is_not_session_key.
Qed.

Lemma user_view_resume (i : nat) (c : caller) (h : hook) (p : progress) :
  user_view (fst (resume i c (h, p))) = user_view h.
Proof.
  unfold resume. destruct p, c; simpl; try (destruct h; reflexivity).
  apply user_view_fail.
Qed.

Lemma user_view_call (c : caller) (w : world) :
  user_view (hk (call params c w)) = user_view (hk w).
Proof.
  rewrite hk_call. pose proof (user_view_ensureSession (hk w)) as E.
  destruct (ensureSession params (hk w)) as [h p]. now rewrite user_view_resume.
Qed.

Lemma user_view_abort (w : world) : user_view (hk (abort w)) = user_view (hk w).
Proof.
  unfold abort. destruct (abortControllerRef (hk w)) as [i|]; [|reflexivity].
  destruct (tasks w !! i) as [[| | |a|a t]|]; try reflexivity; apply user_view_fail.
Qed.

Lemma user_view_step (w : world) (inp : input) :
  user_view (hk (step' w inp)) = user_view (hk w).
Proof.
  destruct inp as [|text| | |data|sid uid|i r|i r|i r|i r]; unfold step; cbv zeta.
  - destruct (_ && _); [apply user_view_call | reflexivity].
  - destruct (sendMessage_start _ _ _ _) as [h1|] eqn:E; [|reflexivity].
    rewrite user_view_call. cbn [hk]. eapply user_view_sendMessage_start, E.
  - rewrite user_view_abort. cbn [hk]. apply user_view_reset_state.
  - apply user_view_abort.
  - apply user_view_onmessage.
  - apply user_view_startListening.
  - destruct (tasks w !! i) as [[|c|c|a|a t]|]; try reflexivity.
    pose proof (user_view_recovered r (hk w)) as E.
    destruct (ensureSession_recovered params r (hk w)) as [h1 p].
    pose proof (user_view_resume i c h1 p) as F.
    destruct (resume i c (h1, p)). simpl in *. congruence.
  - destruct (tasks w !! i) as [[|c|c|a|a t]|]; try reflexivity.
    pose proof (user_view_created r (hk w)) as E.
    destruct (ensureSession_created r (hk w)) as [h1 p].
    pose proof (user_view_resume i c h1 p) as F.
    destruct (resume i c (h1, p)). simpl in *. congruence.
  - destruct (tasks w !! i) as [[|c|c|a|a t]|]; try reflexivity.
    destruct r as [e|[] st body]; simpl;
      [apply user_view_fail | destruct (hk w); reflexivity | apply user_view_fail].
  - destruct (tasks w !! i) as [[|c|c|a|a t]|]; try reflexivity.
    destruct r as [chunk| |e];
      [|apply user_view_finalize | apply user_view_fail].
    pose proof (user_view_on_chunk chunk (hk w, t)) as F.
    destruct (on_chunk _ _ _ _). exact F.
Qed.

Lemma user_view_init (rnd : jsstring) (storage : gmap jsstring jsstring) :
  user_view (hk (init params rnd storage))
  = (fst (getPersistentUserId params rnd storage),
     Some (fst (getPersistentUserId params rnd storage))).
Proof.
  unfold init, getPersistentUserId.
  destruct (params_get params (jstr "customer_email")) as [| | | |[|c email]| |];
    destruct (getItem STORAGE_KEY_USER_ID storage) as [| | | |[|c' stored]| |] eqn:E;
    unfold user_view; simpl; f_equal; try apply lookup_insert_eq.
  all: unfold getItem in E; destruct (storage !! STORAGE_KEY_USER_ID); congruence.
Qed.

(** X16: whatever happens on a page (messages sent, resets, cancels,
    answers of the network in any order), the user id in use is the one
    resolved at the first render, and the storage holds that id. *)
Theorem user_id_never_changes (rnd : jsstring) (storage : gmap jsstring jsstring)
    (inputs : list input) :
  let w := run' (init params rnd storage) inputs in
  userIdRef (hk w) = fst (getPersistentUserId params rnd storage)
  /\ localStorage (hk w) !! STORAGE_KEY_USER_ID = Some (userIdRef (hk w)).
Proof.
  intros w. subst w.
  assert (user_view (hk (run' (init params rnd storage) inputs))
          = user_view (hk (init params rnd storage))) as E.
  { induction inputs as [|inp inputs IH] using rev_ind; [reflexivity|].
    now rewrite run_snoc, user_view_step. }
  rewrite user_view_init in E. unfold user_view in E. injection E as -> ->.
  now split.
Qed.

End Identity.

Lemma stored_in_use_of_view (h : hook) sid c a ls f p :
  session_view h = (sid, c, a, ls, f, p) ->
  (truthy sid = true -> ls !! STORAGE_KEY_SESSION_ID = Some (ToString sid)) ->
  stored_in_use h.
Proof. unfold session_view, stored_in_use. intros [= <- _ _ <- _ _]. auto. Qed.

Lemma stored_in_use_frames (h h' : hook) :
  frames h h' -> stored_in_use h -> stored_in_use h'.
Proof.
  intros F S. eapply stored_in_use_of_view; [apply frames_view, F|]. exact S.
Qed.

Lemma stored_in_use_ensureSession params (h : hook) :
  stored_in_use h -> stored_in_use (fst (ensureSession params h)).
Proof.
  intros S.
  destruct (ensureSession_view params h) as [(_ & _ & ->)|[(_ & _ & _ & _ & _ & V)|(_ & _ & ->)]].
  - exact S.
  - eapply stored_in_use_of_view; [exact V | exact S].
  - destruct (ensureSession_create_view params h) as (_ & _ & V).
    eapply stored_in_use_of_view; [exact V | exact S].
Qed.

Lemma stored_in_use_recovered params (r : http) (h : hook) :
  stored_in_use h -> stored_in_use (fst (ensureSession_recovered params r h)).
Proof.
  intros S.
  destruct (ensureSession_recovered_view params r h)
    as (_ & [(_ & _ & V)|(_ & _ & _ & _ & _ & V)]);
    (eapply stored_in_use_of_view; [exact V|]); [exact S | discriminate].
Qed.

Lemma stored_in_use_created (r : http) (h : hook) :
  stored_in_use h -> stored_in_use (fst (ensureSession_created r h)).
Proof.
  intros S.
  destruct (ensureSession_created_view r h)
    as (_ & [(e & _ & ->)|(st & session & id & _ & _ & _ & V)]); [exact S|].
  eapply stored_in_use_of_view; [exact V|]. intros ->. apply lookup_insert_eq.
Qed.

Section Stored.

Variable params : list (jsstring * jsstring).
Variable JSON_parse : jsstring -> res value.
Variable Date_now : nat -> Z.
Variable toISOString : Z -> jsstring.

Local Abbreviation step' := (step params JSON_parse Date_now toISOString).
Local Abbreviation run' := (run params JSON_parse Date_now toISOString).

Lemma stored_in_use_step (w : world) (inp : input) :
  stored_in_use (hk w) -> stored_in_use (hk (step' w inp)).
Proof.
  intros S. pose proof (step_cases params JSON_parse Date_now toISOString w inp) as H.
  cbv zeta in H. destruct inp.
  - destruct H as [->|F]; [exact S|].
    eapply stored_in_use_frames; [exact F|]. now apply stored_in_use_ensureSession.
  - destruct H as [->|(h1 & F1 & F2)]; [exact S|].
    eapply stored_in_use_frames; [exact F2|]. apply stored_in_use_ensureSession.
    eapply stored_in_use_frames; eassumption.
  - destruct H as [F _]. eapply stored_in_use_frames; [exact F|].
    eapply stored_in_use_of_view; [apply reset_state_view | discriminate].
  - eapply stored_in_use_frames; eassumption.
  - eapply stored_in_use_frames; eassumption.
  - eapply stored_in_use_frames; eassumption.
  - destruct H as [->|F]; [exact S|].
    eapply stored_in_use_frames; [exact F|]. now apply stored_in_use_recovered.
  - destruct H as [->|F]; [exact S|].
    eapply stored_in_use_frames; [exact F|]. now apply stored_in_use_created.
  - eapply stored_in_use_frames; eassumption.
  - eapply stored_in_use_frames; eassumption.
Qed.

Lemma stored_in_use_init (rnd : jsstring) (storage : gmap jsstring jsstring) :
  stored_in_use (hk (init params rnd storage)).
Proof.
  unfold init. destruct (getPersistentUserId params rnd storage) as [uid ls].
  unfold stored_in_use, getStoredSessionId, getItem. simpl.
  now destruct (ls !! STORAGE_KEY_SESSION_ID).
Qed.

(** X17: whatever happens on a page, whenever the session id held in
    [sessionIdRef] is truthy, the stored session id is its string: the ref
    and the storage never disagree. *)
Theorem stored_session_is_the_one_in_use (rnd : jsstring)
    (storage : gmap jsstring jsstring) (inputs : list input) :
  stored_in_use (hk (run' (init params rnd storage) inputs)).
Proof.
  induction inputs as [|inp inputs IH] using rev_ind; [apply stored_in_use_init|].
  rewrite run_snoc. now apply stored_in_use_step.
Qed.

End Stored.

(** ** The negotiation and the turns that await it *)

Section Negotiation.

Variable params : list (jsstring * jsstring).
Variable JSON_parse : jsstring -> res value.
Variable Date_now : nat -> Z.
Variable toISOString : Z -> jsstring.

Local Abbreviation step' := (step params JSON_parse Date_now toISOString).

(** X18: [reset] does not cancel a creation in flight. When the POST of a
    [sendMessage] answers after a reset, the new session is installed and
    stored, the listener is started and the text is posted to it, while the
    conversation on screen is the welcome message alone: the user's message
    was wiped by the reset. *)
Theorem reset_does_not_cancel_creation (w : world) (i : nat) (text : jsstring)
    (a : value) (st : Z) (session id : value) :
  tasks w !! i = Some (Creating (BySend text a)) ->
  get session (jstr "id") = Ok id ->
  let w' := step' (step' w Reset) (Creation i (Response true st (Ok session))) in
  messages (hk w') = [WELCOME_MESSAGE]
  /\ sessionIdRef (hk w') = id
  /\ sessionCreatedRef (hk w') = true
  /\ (truthy id = true ->
      localStorage (hk w') !! STORAGE_KEY_SESSION_ID = Some (ToString id))
  /\ requests (hk w')
     = requests (hk w) ++ [Listen id (userIdRef (hk w));
                           PostRunSSE (userIdRef (hk w)) id (trim text)]
  /\ tasks w' !! i = Some (Running a).
Proof.
  intros Ht Hid w'. subst w'.
  destruct (reset_effect params JSON_parse Date_now toISOString w)
    as (Hm & _ & _ & _ & _ & _ & _ & _ & _ & _ & Hu & Hr & _ & Hk).
  cbv zeta in *. specialize (Hk i (BySend text a) (or_intror Ht)).
  rewrite Ht in Hk. set (w1 := step' w Reset) in *.
  assert (i < length (tasks w1))%nat as Hi by (apply lookup_lt_is_Some; eauto).
  remember (step' w1 (Creation i (Response true st (Ok session)))) as w2 eqn:E.
  unfold step in E. cbv zeta in E. rewrite Hk in E.
  unfold ensureSession_created in E. rewrite Hid in E.
  unfold resume, storeSessionId in E. subst w2.
  rewrite <- Hu, <- Hr. cbn [hk tasks]. rewrite list_lookup_insert_eq by assumption.
  destruct (hk w1). cbn in Hm |- *. subst.
  destruct (truthy id); cbn; repeat split; try discriminate.
  - intros _. apply lookup_insert_eq.
  - now rewrite <- app_assoc.
  - now rewrite <- app_assoc.
Qed.

(** X20: when the creation of the session is refused, a [sendMessage] that
    awaited it shows the error with the status code, ends its turn and never
    posts the text; the effect run on mount shows nothing. The session refs
    and the storage are as before. *)
Theorem creation_refused (w : world) (i : nat) (c : caller) (st : Z) (body : res value) :
  tasks w !! i = Some (Creating c) ->
  let h := hk w in
  let w' := step' w (Creation i (Response false st body)) in
  let h' := hk w' in
  tasks w' !! i = Some Finished
  /\ requests h' = requests h
  /\ session_view h' = session_view h
  /\ match c with
     | ByMount => messages h' = messages h
     | BySend _ a =>
         messages h'
         = messages h
           ++ [plain agent
                 (VStr ([10060] ++ jstr " Error: Failed to create session: "
                        ++ toStringRadix 10 st
                        ++ jstr ". Please check if the server is running."))]
         /\ status h' = (if truthy a then human_mode else idle)
     end.
Proof.
  intros Ht h w' h'. subst h' w' h.
  assert (i < length (tasks w))%nat as Hi by (apply lookup_lt_is_Some; eauto).
  unfold step. cbv zeta. rewrite Ht. unfold ensureSession_created, resume.
  destruct c as [|text a]; cbn [hk tasks fst snd].
  - rewrite list_lookup_insert_eq by assumption. destruct (hk w). cbn. auto.
  - rewrite list_lookup_insert_eq by assumption.
    unfold fail, catch_, finally_.
    replace (str_eqb (err_name _) _) with false by reflexivity.
    destruct (hk w), (truthy a); cbn; rewrite <- ?app_assoc; auto.
Qed.

Lemma tryRecoverSession_no_history (st : Z) (session : value) (h : hook) :
  truthy session = true ->
  truthy (prop session (jstr "events")) = false
  \/ prop (prop session (jstr "events")) (jstr "length") = VNum 0 ->
  tryRecoverSession (Response true st (Ok session)) h = (h, session).
Proof.
  intros Hs He. unfold tryRecoverSession. rewrite Hs. cbn [negb].
  destruct He as [-> | ->]; [reflexivity|]. now destruct (negb _).
Qed.

(** X21: a stored session that is found but has no history is taken over as
    it is: nothing is shown, and the pause of the AI is not restored, whatever
    the state of the session says. *)
Theorem recovery_without_history (w : world) (i : nat) (c : caller) (st : Z)
    (session : value) :
  tasks w !! i = Some (Recovering c) ->
  truthy session = true ->
  truthy (prop session (jstr "events")) = false
  \/ prop (prop session (jstr "events")) (jstr "length") = VNum 0 ->
  let h := hk w in
  let h' := hk (step' w (Recovery i (Response true st (Ok session)))) in
  aiPaused h' = aiPaused h
  /\ messages h' = messages h
  /\ isRecovered h' = isRecovered h
  /\ sessionIdRef h' = sessionIdRef h
  /\ sessionCreatedRef h' = true
  /\ listenEventSourceRef h' = Some (sessionIdRef h, userIdRef h).
Proof.
  intros Ht Hs He h h'. subst h' h.
  unfold step. cbv zeta. rewrite Ht.
  unfold ensureSession_recovered. rewrite tryRecoverSession_no_history by assumption.
  rewrite Hs. unfold resume. destruct c, (hk w); cbn; auto 10.
Qed.

End Negotiation.

(** A message is sent, the chat is reset, then the session is created. *)
Lemma reset_does_not_cancel_creation_witness :
  let w := run_page [] (jstr "k3x9qa") ∅ [Send (jstr "Hello")] in
  let w' := step [] (parse_table []) (fun _ => 0) (fun _ => [])
              (step [] (parse_table []) (fun _ => 0) (fun _ => []) w Reset)
              (Creation 0 (created "s-1")) in
  messages (hk w') = [WELCOME_MESSAGE]
  /\ tasks w' !! 0%nat = Some (Running (VBool false)).
Proof.
  intros w w'.
  pose proof (reset_does_not_cancel_creation [] (parse_table []) (fun _ => 0) (fun _ => [])
                w 0 (jstr "Hello") (VBool false) 200
                (VObj [(jstr "id", VStr (jstr "s-1"))]) (VStr (jstr "s-1"))
                eq_refl eq_refl) as (H1 & _ & _ & _ & _ & H2).
  split; [exact H1 | exact H2].
Defined.

(** The server refuses to create the session of the first message. *)
Lemma creation_refused_witness :
  let w := run_page [] (jstr "k3x9qa") ∅ [Send (jstr "Hello")] in
  let w' := step [] (parse_table []) (fun _ => 0) (fun _ => []) w
              (Creation 0 (Response false 503 (Ok VNull))) in
  requests (hk w') = requests (hk w).
Proof.
  intros w w'.
  refine (proj1 (proj2 (creation_refused [] (parse_table []) (fun _ => 0) (fun _ => [])
                          w 0 (BySend (jstr "Hello") (VBool false)) 503 (Ok VNull) _))).
  reflexivity.
Defined.

(** A paused session without events, found on mount. *)
Lemma recovery_without_history_witness :
  let w := stale_page [Mount] in
  let session := VObj [(jstr "id", VStr (jstr "s-old"));
                       (jstr "state", VObj [(jstr "ai_paused", VBool true)]);
                       (jstr "events", VArr [])] in
  aiPaused (hk (step [] (parse_table []) (fun _ => 0) (fun _ => []) w
                  (Recovery 0 (Response true 200 (Ok session)))))
  = VBool false.
Proof.
  intros w session.
  refine (proj1 (recovery_without_history [] (parse_table []) (fun _ => 0) (fun _ => [])
                   w 0 ByMount 200 session _ _ _)).
  - reflexivity.
  - reflexivity.
  - right. reflexivity.
Defined.

(** ** Messages of the listener *)

Lemma is_str_inj (v : value) (a b : string) :
  is_str v a = true -> is_str v b = true -> jstr a = jstr b.
Proof.
  destruct v; simpl; try discriminate. unfold str_eqb.
  intros A B. apply bool_decide_eq_true in A, B. congruence.
Qed.

(** X22: a message of the listener adds at most one entry to the
    conversation and may set the pause flag; it never changes the status,
    the live feed, the streaming text, the session, the subscription or the
    requests. A payload that is no JSON, that is [null], or whose type is
    neither [new_message] nor [ai_status_changed], changes nothing at all. *)
Theorem onmessage_effect (JSON_parse : jsstring -> res value) (Date_now : nat -> Z)
    (toISOString : Z -> jsstring) (event_data : jsstring) (h : hook) :
  let h' := onmessage JSON_parse Date_now toISOString event_data h in
  (exists more, messages h' = messages h ++ more /\ (length more <= 1)%nat)
  /\ status h' = status h
  /\ liveEvents h' = liveEvents h
  /\ streamingText h' = streamingText h
  /\ isRecovered h' = isRecovered h
  /\ session_view h' = session_view h
  /\ listenEventSourceRef h' = listenEventSourceRef h
  /\ abortControllerRef h' = abortControllerRef h
  /\ requests h' = requests h
  /\ match JSON_parse event_data with
     | Throw _ => h' = h
     | Ok data =>
         (nullish data = true -> h' = h)
         /\ (is_str (prop data (jstr "type")) "new_message" = false ->
             is_str (prop data (jstr "type")) "ai_status_changed" = false ->
             h' = h)
         /\ (is_str (prop data (jstr "type")) "ai_status_changed" = false ->
             aiPaused h' = aiPaused h)
     end.
Proof.
  intros h'. subst h'. unfold onmessage.
  assert (exists more, messages h = messages h ++ more /\ (length more <= 1)%nat) as Hnil
    by (exists []; split; [now rewrite app_nil_r | simpl; lia]).
  destruct (JSON_parse event_data) as [data|e]; cbn [mbind res_bind]; [|auto 12].
  unfold on_inbound, get. destruct (nullish data) eqn:Hn; cbn [mbind res_bind mret res_ret].
  { repeat split; auto; discriminate. }
  destruct (is_str (prop data (jstr "type")) "new_message") eqn:E1,
    (is_str (prop data (jstr "type")) "ai_status_changed") eqn:E2;
    try (now pose proof (is_str_inj _ _ _ E1 E2));
    try destruct (truthy (prop data (jstr "message")));
    destruct h; cbn; repeat split; auto; try discriminate;
    try (eexists; split; [reflexivity | simpl; lia]).
Qed.

(** A keepalive whose payload is [null]. *)
Lemma onmessage_effect_witness :
  onmessage (parse_table [VNull]) (fun _ => 0) (fun _ => []) (jstr "null") fresh = fresh.
Proof.
  pose proof (onmessage_effect (parse_table [VNull]) (fun _ => 0) (fun _ => [])
                (jstr "null") fresh) as (_ & _ & _ & _ & _ & _ & _ & _ & _ & H).
  exact (proj1 H eq_refl).
Defined.

(** ** The history of a recovered session *)

Lemma filterM_Forall {A} (f : A -> res bool) (l k : list A) :
  filterM f l = Ok k -> Forall (fun x => f x = Ok true) k /\ (length k <= length l)%nat.
Proof.
  revert k. induction l as [|x l IH]; simpl; intros k.
  - intros [= <-]. split; [constructor | reflexivity].
  - destruct (f x) as [b|] eqn:Ex; simpl; [|discriminate].
    destruct (filterM f l) as [k'|]; simpl; [|discriminate].
    destruct (IH k' eq_refl) as [F L].
    destruct b; intros [= <-]; simpl; split; auto; lia.
Qed.

Lemma mapM_Forall2 {A B} (f : A -> res B) (l : list A) (ys : list B) :
  mapM f l = Ok ys -> Forall2 (fun x y => f x = Ok y) l ys.
Proof.
  revert ys. induction l as [|x l IH]; simpl; intros ys.
  - intros [= <-]. constructor.
  - destruct (f x) as [y|] eqn:Ex; simpl; [|discriminate].
    destruct (mapM f l) as [ys'|]; simpl; [|discriminate].
    intros [= <-]. constructor; auto.
Qed.

Lemma tidy_ends (s : jsstring) :
  tidy s <->
  (exists c r, s = c :: r /\ is_ws c = false)
  /\ (exists c r, rev s = c :: r /\ is_ws c = false).
Proof.
  split.
  - intros [Hne Ht]. split.
    + destruct (trim_head s) as [E|(c & r & E & Hc)];
        rewrite Ht in E; [contradiction | eauto].
    + unfold trim, trimEnd in Ht. apply (f_equal (@rev Z)) in Ht.
      rewrite rev_involutive in Ht.
      destruct (trimStart_head (rev (trimStart s))) as [E|(c & r & E & Hc)];
        rewrite Ht in E; [|eauto].
      destruct s; [contradiction|]. simpl in E. now destruct (rev s).
  - intros [(c & r & -> & Hc) (c' & r' & E & Hc')]. split; [discriminate|].
    unfold trim. rewrite trimStart_keep by assumption.
    unfold trimEnd. rewrite E, trimStart_keep by assumption.
    now rewrite <- E, rev_involutive.
Qed.

Lemma tidy_app (x m y : jsstring) : tidy x -> tidy y -> tidy (x ++ m ++ y).
Proof.
  rewrite !tidy_ends. intros [(c & r & -> & Hc) _] [_ (c' & r' & E & Hc')]. split.
  - exists c, (r ++ m ++ y). now split.
  - exists c', (r' ++ rev m ++ rev (c :: r)).
    rewrite !rev_app_distr, E, <- app_assoc. now split.
Qed.

Lemma tidy_join (sep : jsstring) (l : list jsstring) :
  Forall tidy l -> l = [] \/ tidy (join sep l).
Proof.
  induction 1 as [|x l Hx Hl IH]; [now left|]. right.
  destruct l as [|y l]; [exact Hx|].
  destruct IH as [E|IH]; [discriminate|].
  change (join sep (x :: y :: l)) with (x ++ sep ++ join sep (y :: l)).
  now apply tidy_app.
Qed.

Lemma tidy_trim (s : jsstring) : trim s <> [] -> tidy (trim s).
Proof. intros H. split; [exact H | apply trim_idem]. Qed.

Lemma text_of_parts_tidy (parts : value) (s : jsstring) :
  text_of_parts parts = Ok s -> s = [] \/ tidy s.
Proof.
  unfold text_of_parts. destruct parts as [| | | | |l|]; try discriminate.
  destruct (filterM _ l) as [kept|] eqn:Ef; cbn [mbind res_bind]; [|discriminate].
  destruct (mapM _ kept) as [texts|] eqn:Em; cbn [mbind res_bind]; [|discriminate].
  intros [= <-].
  apply filterM_Forall in Ef as [Hk _]. apply mapM_Forall2 in Em.
  assert (Forall tidy texts) as Ht.
  { clear -Hk Em. induction Em as [|p t kept texts Hp _ IH]; [constructor|].
    apply Forall_cons in Hk as [Hkp Hk]. constructor; [|now apply IH].
    destruct (get p (jstr "text")) as [v|]; cbn [mbind res_bind] in *; [|discriminate].
    destruct (truthy v); [|discriminate]. rewrite Hp in Hkp. cbn in Hkp.
    destruct v; try discriminate. injection Hp as <-. apply tidy_trim.
    injection Hkp as Hkp. now destruct (trim s). }
  destruct (tidy_join (jstr " ") texts Ht) as [-> | H]; [now left | now right].
Qed.

(** X23: the bubbles of a recovered history. Every message that
    [parseEventsToMessages] returns has a text that is not empty, has no
    white space at either end and is not the pause sentinel alone; its role
    is the one of its author, and it carries no products. There are no more
    messages than events. *)
Theorem parseEventsToMessages_bubbles (events : value) (msgs : list message) :
  parseEventsToMessages events = Ok msgs ->
  Forall (fun m => exists s, text m = VStr s /\ tidy s /\ s <> AI_PAUSED
                             /\ role m = role_of_author (author m)
                             /\ products m = None) msgs
  /\ exists l, iterate events = Ok l /\ (length msgs <= length l)%nat.
Proof.
  unfold parseEventsToMessages.
  destruct (iterate events) as [l|]; cbn [mbind res_bind]; [|discriminate].
  destruct (mapM message_of_event l) as [pushed|] eqn:Em; cbn [mbind res_bind];
    [|discriminate].
  intros [= <-]. apply mapM_Forall2 in Em. split.
  - clear -Em. induction Em as [|e o l pushed He _ IH]; [constructor|].
    destruct o as [m|]; [|exact IH]. cbn. constructor; [|exact IH].
    unfold message_of_event in He.
    destruct (get e (jstr "content")) as [content|]; cbn [mbind res_bind] in He;
      [|discriminate].
    destruct (negb (truthy (get_opt content (jstr "parts")))); [discriminate|].
    destruct (text_of_parts _) as [s|] eqn:Es; cbn [mbind res_bind] in He; [|discriminate].
    destruct (negb (truthy (VStr s))) eqn:E1; [discriminate|].
    destruct (str_eqb s AI_PAUSED) eqn:E2; [discriminate|].
    injection He as <-. exists s. cbn. repeat split.
    + intros ->. discriminate.
    + apply text_of_parts_tidy in Es as [-> | [_ Ht]]; [discriminate | exact Ht].
    + intros ->. unfold str_eqb in E2. now rewrite bool_decide_eq_false in E2.
  - exists l. split; [reflexivity|].
    apply Forall2_length in Em. rewrite Em. clear. induction pushed as [|[m|] p IH];
      cbn; lia.
Qed.

(** The theorem on a history of two events, the second being the pause
    sentinel. *)
Lemma parseEventsToMessages_bubbles_witness :
  exists l, iterate (VArr [said "user" "  Do you deliver?  ";
                           said "faq_agent" "__AI_PAUSED__"]) = Ok l
            /\ (1 <= length l)%nat.
Proof.
  refine (proj2 (parseEventsToMessages_bubbles
                   (VArr [said "user" "  Do you deliver?  ";
                          said "faq_agent" "__AI_PAUSED__"])
                   [Message user (VStr (jstr "Do you deliver?")) (VStr (jstr "user"))
                            VUndef None None None] _)).
  vm_compute. reflexivity.
Defined.

(** ** The state of a new session *)

Lemma put_snoc (key : string) (v : value) (l : list (jsstring * value)) :
  put key v (List.filter (fun kv => truthy (snd kv)) l)
  = List.filter (fun kv => truthy (snd kv)) (l ++ [(jstr key, v)]).
Proof.
  unfold put. rewrite List.filter_app. cbn [List.filter snd].
  destruct (truthy v); [reflexivity | now rewrite app_nil_r].
Qed.

Lemma filter_keys_sublist (l : list (jsstring * value)) :
  sublist (map fst (List.filter (fun kv => truthy (snd kv)) l)) (map fst l).
Proof.
  induction l as [|[k v] l IH]; [constructor|].
  cbn [List.filter snd map fst]. destruct (truthy v); cbn [map fst].
  - now apply sublist_skip.
  - now apply sublist_cons.
Qed.

Lemma own_fresh (k : jsstring) (l : list (jsstring * value)) :
  ~ In k (map fst l) -> own k l = VUndef.
Proof.
  induction l as [|[k0 v0] l IH]; [reflexivity|]. cbn [map fst In own]. intros H.
  rewrite str_eqb_false by tauto. apply IH. tauto.
Qed.

Lemma own_filter (k : jsstring) (v : value) (l : list (jsstring * value)) :
  NoDup (map fst l) ->
  In (k, v) l ->
  own k (List.filter (fun kv => truthy (snd kv)) l) = if truthy v then v else VUndef.
Proof.
  induction l as [|[k0 v0] l IH]; [contradiction|].
  cbn [map fst]. intros Hd Hin. apply NoDup_cons in Hd as [Hk Hd].
  assert (forall x, In x (map fst (List.filter (fun kv => truthy (snd kv)) l)) ->
                    In x (map fst l)) as Hsub.
  { intros x Hx. apply list_elem_of_In. apply list_elem_of_In in Hx.
    eapply elem_of_sublist; [exact Hx | apply filter_keys_sublist]. }
  rewrite list_elem_of_In in Hk.
  cbn [List.filter snd]. destruct Hin as [[= -> ->]|Hin].
  - destruct (truthy v) eqn:E.
    + cbn [own]. unfold str_eqb. now rewrite bool_decide_eq_true_2.
    + apply own_fresh. auto.
  - assert (k0 <> k) as Hne.
    { intros ->. apply Hk. change k with (fst (k, v)). now apply in_map. }
    destruct (truthy v0); [cbn [own]; rewrite str_eqb_false by assumption|];
      now apply IH.
Qed.

Lemma join_split (sep : Z) (s : jsstring) : join [sep] (split sep s) = s.
Proof.
  induction s as [|c s IH]; [reflexivity|]. cbn [split].
  destruct (split_cons_ex sep s) as (x & xs & E). rewrite E in *.
  destruct (Z.eqb_spec c sep) as [->|_].
  - change (join [sep] ([] :: x :: xs)) with ([] ++ [sep] ++ join [sep] (x :: xs)).
    now rewrite IH.
  - destruct xs; cbn [join app] in *; now rewrite IH.
Qed.

(** X24: the state [getInitialStateFromUrl] gives to a new session is made
    of thirteen entries in a fixed order, each taken from one launch
    parameter: the customer email, the mark [user:is_authenticated] (true
    when the email is given), the customer id, the loft ids, the widget
    session id, the host, the page, the referrer and the five UTM
    parameters. The entries whose value is falsy (a parameter that is
    missing or empty) are left out, and nothing else is in the state. The
    loft ids are the pieces of [loft_ids] between commas that are not
    empty. *)
Theorem getInitialStateFromUrl_state (params : list (jsstring * jsstring)) :
  let state := List.filter (fun kv => truthy (snd kv)) (state_entries params) in
  getInitialStateFromUrl params = VObj state
  /\ map fst (state_entries params) = state_keys
  /\ well_formed_state state_keys state
  /\ (forall k v,
        In (k, v) (state_entries params) ->
        own k state = if truthy v then v else VUndef)
  /\ (forall ids,
        join (jstr ",") (split 44 ids) = ids
        /\ Forall (Forall (fun c => c <> 44)) (split 44 ids)).
Proof.
  intros state. subst state. split; [|split; [|split; [|split]]].
  - unfold getInitialStateFromUrl. cbv zeta. f_equal. cbn [fold_left].
    set (s1 := if truthy (params_get params (jstr "customer_email")) then _ else _).
    set (s2 := put "user:magento_customer_id" _ s1).
    set (s3 := match params_get params (jstr "loft_ids") with
               | VStr (_ :: _) => _
               | _ => s2
               end).
    assert (s3 = List.filter (fun kv => truthy (snd kv)) (firstn 4 (state_entries params)))
      as ->.
    { assert (s2 = List.filter (fun kv => truthy (snd kv))
                               (firstn 3 (state_entries params))) as E2.
      { subst s2. assert (s1 = List.filter (fun kv => truthy (snd kv))
                                           (firstn 2 (state_entries params))) as ->.
        { subst s1. cbn [state_entries firstn List.filter snd].
          now destruct (truthy (params_get params (jstr "customer_email"))). }
        now rewrite put_snoc. }
      subst s3. rewrite E2.
      change (firstn 4 (state_entries params))
        with (firstn 3 (state_entries params)
              ++ [(jstr "user:loft_customer_ids",
                   loft_ids_of (params_get params (jstr "loft_ids")))]).
      rewrite List.filter_app. cbn [List.filter snd].
      destruct (params_get params (jstr "loft_ids")) as [| | | |[|c ids]| |];
        cbn [loft_ids_of truthy]; rewrite ?app_nil_r; reflexivity. }
    rewrite !put_snoc. reflexivity.
  - reflexivity.
  - split.
    + change state_keys with (map fst (state_entries params)).
      apply filter_keys_sublist.
    + apply Forall_forall. intros kv Hin.
      apply list_elem_of_In, filter_In in Hin. tauto.
  - intros k v Hin. apply own_filter; [|exact Hin].
    change (map fst (state_entries params)) with state_keys.
    apply NoDup_ListNoDup. vm_compute. repeat constructor; cbn [In]; intuition discriminate.
  - intros ids. split; [apply join_split | apply split_pieces_sep_free].
Qed.

(** The theorem on a page opened with a campaign and loft ids. *)
Lemma getInitialStateFromUrl_state_witness :
  let params := [(jstr "utm_source", jstr "mail"); (jstr "loft_ids", jstr "7,,12");
                 (jstr "host", [])] in
  own (jstr "user:loft_customer_ids")
      (List.filter (fun kv => truthy (snd kv)) (state_entries params))
  = VArr [VStr (jstr "7"); VStr (jstr "12")].
Proof.
  intros params.
  refine (proj1 (proj2 (proj2 (proj2 (getInitialStateFromUrl_state params))))
            (jstr "user:loft_customer_ids")
            (VArr [VStr (jstr "7"); VStr (jstr "12")]) _).
  vm_compute. auto 10.
Defined.

(** ** The address of the listener *)

Lemma remove_first_no_slash (host tail : jsstring) :
  Forall (fun c => c <> 47) host ->
  remove_first (jstr "/api") (host ++ tail) = host ++ remove_first (jstr "/api") tail.
Proof.
  induction 1 as [|c host Hc _ IH]; [reflexivity|].
  change (jstr "/api") with [47; 97; 112; 105] in *.
  cbn [app remove_first startsWith]. rewrite IH.
  now destruct (Z.eqb_spec 47 c) as [E|_]; [symmetry in E|].
Qed.

Lemma startsWith_api (host t : jsstring) :
  startsWith (host ++ 47 :: t) (jstr "api") = startsWith host (jstr "api").
Proof.
  change (jstr "api") with [97; 112; 105].
  destruct host as [|a [|b [|c host]]]; cbn; rewrite ?andb_false_r; reflexivity.
Qed.

Lemma startsWith_api_drop (host : jsstring) :
  startsWith host (jstr "api") = true -> host = jstr "api" ++ drop 3 host.
Proof.
  change (jstr "api") with [97; 112; 105].
  destruct host as [|a [|b [|c host]]]; cbn [startsWith]; rewrite ?andb_false_r;
    try discriminate.
  rewrite andb_true_r. intros H. apply andb_prop in H as [Ha H].
  apply andb_prop in H as [Hb Hc].
  apply Z.eqb_eq in Ha, Hb, Hc. now subst.
Qed.

Lemma remove_first_cons (pat : jsstring) (c : Z) (s : jsstring) :
  remove_first pat (c :: s)
  = if startsWith (c :: s) pat then drop (length pat) (c :: s)
    else c :: remove_first pat s.
Proof. reflexivity. Qed.

Lemma backendUrl_http (proto host rest : jsstring) :
  proto = jstr "http:" \/ proto = jstr "https:" ->
  Forall (fun c => c <> 47) host ->
  backendUrl (proto ++ jstr "//" ++ host ++ jstr "/api" ++ rest)
  = if startsWith host (jstr "api")
    then proto ++ jstr "/" ++ drop 3 host ++ jstr "/api" ++ rest
    else proto ++ jstr "//" ++ host ++ rest.
Proof.
  intros Hp Hh.
  assert (remove_first (jstr "/api") (jstr "//" ++ host ++ jstr "/api" ++ rest)
          = if startsWith host (jstr "api")
            then jstr "/" ++ drop 3 host ++ jstr "/api" ++ rest
            else jstr "//" ++ host ++ rest) as E.
  { change (jstr "//" ++ host ++ jstr "/api" ++ rest)
      with (47 :: 47 :: host ++ jstr "/api" ++ rest).
    rewrite remove_first_cons.
    assert (startsWith (47 :: 47 :: host ++ jstr "/api" ++ rest) (jstr "/api") = false)
      as -> by reflexivity.
    rewrite remove_first_cons.
    assert (startsWith (47 :: host ++ jstr "/api" ++ rest) (jstr "/api")
            = startsWith (host ++ 47 :: (jstr "api" ++ rest)) (jstr "api")) as ->
      by reflexivity.
    rewrite startsWith_api. destruct (startsWith host (jstr "api")) eqn:Ha.
    - apply startsWith_api_drop in Ha. remember (drop 3 host) as h'.
      rewrite Ha. reflexivity.
    - rewrite remove_first_no_slash by assumption. reflexivity. }
  assert (Forall (fun c => c <> 47) proto) as Hproto
    by (destruct Hp as [-> | ->]; vm_compute; repeat constructor; discriminate).
  unfold backendUrl.
  assert (startsWith (proto ++ jstr "//" ++ host ++ jstr "/api" ++ rest) (jstr "http")
          = true) as -> by (destruct Hp as [-> | ->]; reflexivity).
  rewrite remove_first_no_slash, E by assumption.
  now destruct (startsWith host (jstr "api")).
Qed.

(** X25: the address [startListening] connects to. When [API_BASE] does not
    start with [http] (it is empty unless set at build time), the listener
    is on [http://localhost:8000]. When it is [http(s)://host/api...], the
    first [/api] is removed: the one of the path, unless the host starts
    with [api]; then it is the one in [//api], and what is left is no
    address of the host. *)
Theorem listenUrl_address (API_BASE : jsstring) (sessionId : value) (userId : jsstring) :
  let path := jstr "/api/inbox/listen/" ++ ToString sessionId
              ++ jstr "?user_id=" ++ userId in
  (startsWith API_BASE (jstr "http") = false ->
   listenUrl API_BASE sessionId userId = jstr "http://localhost:8000" ++ path)
  /\ (forall proto host rest,
        proto = jstr "http:" \/ proto = jstr "https:" ->
        Forall (fun c => c <> 47) host ->
        API_BASE = proto ++ jstr "//" ++ host ++ jstr "/api" ++ rest ->
        listenUrl API_BASE sessionId userId
        = (if startsWith host (jstr "api")
           then proto ++ jstr "/" ++ drop 3 host ++ jstr "/api" ++ rest
           else proto ++ jstr "//" ++ host ++ rest) ++ path).
Proof.
  intros path. subst path. unfold listenUrl. split.
  - intros H. unfold backendUrl. now rewrite H.
  - intros proto host rest Hp Hh ->. now rewrite backendUrl_http.
Qed.

(** The listener of a widget whose API is on a host named [api]. *)
Lemma listenUrl_address_witness :
  listenUrl (jstr "https://api.gavigans.com/api") (VStr (jstr "s-1")) (jstr "user_2p")
  = jstr "https:/.gavigans.com/api/api/inbox/listen/s-1?user_id=user_2p".
Proof.
  refine (proj2 (listenUrl_address (jstr "https://api.gavigans.com/api")
                   (VStr (jstr "s-1")) (jstr "user_2p"))
            (jstr "https:") (jstr "api.gavigans.com") [] _ _ _).
  - right. reflexivity.
  - vm_compute. repeat constructor; discriminate.
  - reflexivity.
Defined.

(** ** The stored session id *)

(** X26: storing and reading back the session id. A truthy id is read back
    as its string; a falsy one is not stored, and what was stored before
    stays; after [clearStoredSession] nothing is read back. None of them
    touches the stored user id. *)
Theorem stored_session_round_trip (sessionId : value) (h : hook) :
  getStoredSessionId (localStorage (storeSessionId sessionId h))
  = (if truthy sessionId then VStr (ToString sessionId)
     else getStoredSessionId (localStorage h))
  /\ getStoredSessionId (localStorage (clearStoredSession h)) = VNull
  /\ getStoredSessionId (localStorage (clearStoredSession (storeSessionId sessionId h)))
     = VNull
  /\ user_view (storeSessionId sessionId h) = user_view h
  /\ user_view (clearStoredSession h) = user_view h.
Proof.
  assert (STORAGE_KEY_SESSION_ID <> STORAGE_KEY_USER_ID) as Hne
    by (intros E; symmetry in E; now apply user_key_is_not_session_key).
  unfold getStoredSessionId, getItem, storeSessionId, clearStoredSession, user_view.
  destruct h, (truthy sessionId); cbn;
    rewrite ?lookup_insert_eq, ?lookup_delete_eq, ?lookup_insert_ne, ?lookup_delete_ne
      by assumption; auto.
Qed.

(** The session created for the first message is the one stored. *)
Lemma stored_session_is_the_one_in_use_witness :
  localStorage (hk (run_page [] (jstr "k3x9qa") ∅
                      [Send (jstr "Hello"); Creation 0 (created "s-1")]))
  !! STORAGE_KEY_SESSION_ID
  = Some (jstr "s-1").
Proof.
  refine (stored_session_is_the_one_in_use [] (parse_table [])
            (fun n => 1700000000000 + Z.of_nat n) (fun _ => [])
            (jstr "k3x9qa") ∅ [Send (jstr "Hello"); Creation 0 (created "s-1")] _).
  reflexivity.
Defined.

(** ** The page once its mount effect has run *)

Lemma latch_closed_of_view (h : hook) sid c a ls f p :
  session_view h = (sid, c, a, ls, f, p) ->
  (truthy sid = true -> a = true \/ c = true) ->
  latch_closed h.
Proof. unfold session_view, latch_closed. intros [= <- <- <- _ _ _]. auto. Qed.

Lemma latch_closed_frames (h h' : hook) :
  frames h h' -> latch_closed h -> latch_closed h'.
Proof.
  intros F L. eapply latch_closed_of_view; [apply frames_view, F|]. exact L.
Qed.

(** Behind a closed latch [ensureSession] issues no recovery fetch. *)
Lemma latch_closed_ensureSession params (h : hook) :
  latch_closed h ->
  snd (ensureSession params h) <> AwaitingRecovery
  /\ latch_closed (fst (ensureSession params h)).
Proof.
  intros L.
  destruct (ensureSession_view params h)
    as [(_ & _ & ->)|[(Hc & Ha & Ht & _)|(_ & _ & ->)]].
  - split; [discriminate | exact L].
  - destruct (L Ht); congruence.
  - destruct (ensureSession_create_view params h) as (-> & _ & V).
    split; [discriminate|]. eapply latch_closed_of_view; [exact V | auto].
Qed.

Lemma latch_closed_recovered params (r : http) (h : hook) :
  snd (ensureSession_recovered params r h) <> AwaitingRecovery
  /\ latch_closed (fst (ensureSession_recovered params r h)).
Proof.
  destruct (ensureSession_recovered_view params r h)
    as (_ & [(_ & -> & V)|(_ & -> & _ & _ & _ & V)]);
    (split; [discriminate|]); (eapply latch_closed_of_view; [exact V | auto]).
Qed.

Lemma latch_closed_created (r : http) (h : hook) :
  latch_closed h ->
  snd (ensureSession_created r h) <> AwaitingRecovery
  /\ latch_closed (fst (ensureSession_created r h)).
Proof.
  intros L.
  destruct (ensureSession_created_view r h)
    as (_ & [(e & -> & ->)|(st & session & id & _ & _ & -> & V)]).
  - split; [discriminate | exact L].
  - split; [discriminate|]. eapply latch_closed_of_view; [exact V | auto].
Qed.

Lemma resume_awaited (i : nat) (c : caller) (h : hook) (p : progress) :
  p <> AwaitingRecovery \/ c = ByMount ->
  awaited_by_mount (snd (resume i c (h, p))).
Proof.
  intros H c' E. unfold resume in E.
  destruct p, c; simpl in E; try discriminate; destruct H; congruence.
Qed.

Lemma awaited_insert (ts : list task) (i : nat) (t : task) :
  awaited_by_mount t -> Forall awaited_by_mount ts ->
  Forall awaited_by_mount (<[i := t]> ts).
Proof. intros. now apply Forall_insert. Qed.

Lemma awaited_other (t : task) :
  (forall c, t <> Recovering c) -> awaited_by_mount t.
Proof. intros H c E. now destruct (H c). Qed.

Section Mounted.

Variable params : list (jsstring * jsstring).
Variable JSON_parse : jsstring -> res value.
Variable Date_now : nat -> Z.
Variable toISOString : Z -> jsstring.

Local Abbreviation step' := (step params JSON_parse Date_now toISOString).
Local Abbreviation run' := (run params JSON_parse Date_now toISOString).

Lemma awaited_call (c : caller) (w : world) :
  snd (ensureSession params (hk w)) <> AwaitingRecovery \/ c = ByMount ->
  Forall awaited_by_mount (tasks w) ->
  Forall awaited_by_mount (tasks (call params c w)).
Proof.
  intros H T. unfold call.
  destruct (ensureSession params (hk w)) as [h p]. cbn [snd] in H.
  pose proof (resume_awaited (length (tasks w)) c h p H) as A.
  destruct (resume (length (tasks w)) c (h, p)) as [h' t]. cbn [tasks snd] in *.
  apply Forall_app. split; [exact T|]. now constructor.
Qed.

Lemma awaited_abort (w : world) :
  Forall awaited_by_mount (tasks w) -> Forall awaited_by_mount (tasks (abort w)).
Proof.
  intros T. unfold abort. destruct (abortControllerRef (hk w)) as [i|]; [|exact T].
  destruct (tasks w !! i) as [[| | |a|a t]|]; try exact T;
    (apply awaited_insert; [apply awaited_other; discriminate | exact T]).
Qed.

Lemma mounted_step (w : world) (inp : input) :
  mounted w -> mounted (step' w inp).
Proof.
  intros [L T]. split.
  - pose proof (step_cases params JSON_parse Date_now toISOString w inp) as H.
    cbv zeta in H. destruct inp.
    + destruct H as [->|F]; [exact L|].
      eapply latch_closed_frames; [exact F|]. now apply latch_closed_ensureSession.
    + destruct H as [->|(h1 & F1 & F2)]; [exact L|].
      eapply latch_closed_frames; [exact F2|]. apply latch_closed_ensureSession.
      eapply latch_closed_frames; eassumption.
    + destruct H as [F _]. eapply latch_closed_frames; [exact F|].
      eapply latch_closed_of_view; [apply reset_state_view | discriminate].
    + eapply latch_closed_frames; eassumption.
    + eapply latch_closed_frames; eassumption.
    + eapply latch_closed_frames; eassumption.
    + destruct H as [->|F]; [exact L|].
      eapply latch_closed_frames; [exact F|]. apply latch_closed_recovered.
    + destruct H as [->|F]; [exact L|].
      eapply latch_closed_frames; [exact F|]. now apply latch_closed_created.
    + eapply latch_closed_frames; eassumption.
    + eapply latch_closed_frames; eassumption.
  - destruct inp as [|text| | |data|sid uid|i r|i r|i r|i r]; unfold step; cbv zeta.
    + destruct (_ && _); [|exact T]. apply awaited_call; [now right | exact T].
    + destruct (sendMessage_start _ _ _ _) as [h1|] eqn:E; [|exact T].
      apply awaited_call; [|exact T]. left. cbn [hk].
      apply latch_closed_ensureSession.
      eapply latch_closed_frames; [eapply frames_sendMessage_start, E | exact L].
    + apply awaited_abort. exact T.
    + apply awaited_abort. exact T.
    + exact T.
    + exact T.
    + destruct (tasks w !! i) as [[|c|c|a|a t]|]; try exact T.
      destruct (latch_closed_recovered params r (hk w)) as [Hp _].
      destruct (ensureSession_recovered params r (hk w)) as [h1 p]. cbn [snd] in Hp.
      pose proof (resume_awaited i c h1 p (or_introl Hp)) as A.
      destruct (resume i c (h1, p)) as [h' t]. cbn [tasks snd] in *.
      now apply awaited_insert.
    + destruct (tasks w !! i) as [[|c|c|a|a t]|]; try exact T.
      destruct (latch_closed_created r (hk w) L) as [Hp _].
      destruct (ensureSession_created r (hk w)) as [h1 p]. cbn [snd] in Hp.
      pose proof (resume_awaited i c h1 p (or_introl Hp)) as A.
      destruct (resume i c (h1, p)) as [h' t]. cbn [tasks snd] in *.
      now apply awaited_insert.
    + destruct (tasks w !! i) as [[|c|c|a|a t]|]; try exact T.
      destruct r as [e|[] st body]; cbn [tasks];
        (apply awaited_insert; [apply awaited_other; discriminate | exact T]).
    + destruct (tasks w !! i) as [[|c|c|a|a t]|]; try exact T.
      destruct r as [chunk| |e]; cbn [tasks];
        try (apply awaited_insert; [apply awaited_other; discriminate | exact T]).
      destruct (on_chunk JSON_parse Date_now chunk (hk w, t)) as [h' t'].
      cbn [tasks]. apply awaited_insert; [apply awaited_other; discriminate | exact T].
Qed.

(** The mount effect closes the latch: it looks the stored session up, or
    there is none. *)
Lemma mounted_init (rnd : jsstring) (storage : gmap jsstring jsstring) :
  mounted (step' (init params rnd storage) Mount).
Proof.
  unfold init. destruct (getPersistentUserId params rnd storage) as [uid ls].
  unfold step. cbn [hk localStorage sessionRecoveryAttempted negb]. rewrite andb_true_r.
  destruct (truthy (getStoredSessionId ls)) eqn:Hs.
  - split.
    + rewrite hk_call. cbn [hk tasks length].
      unfold ensureSession. cbn [sessionCreatedRef sessionIdRef sessionRecoveryAttempted
                                 andb negb].
      rewrite Hs. cbn. intros _. now left.
    + apply awaited_call; [now right | constructor].
  - split; [|constructor]. intros H. cbn in H. congruence.
Qed.

Lemma mounted_run (w : world) (inputs : list input) :
  mounted w -> mounted (run' w inputs).
Proof.
  induction inputs as [|inp inputs IH] using rev_ind; intros M; [exact M|].
  rewrite run_snoc. apply mounted_step. now apply IH.
Qed.

(** X19: on a page, once the mount effect has run, no call of
    [ensureSession] issues the recovery fetch any more, whatever has
    happened since: only the mount effect ever waits for it, never a
    [sendMessage]. When the fetch settles the status is [idle] whatever the
    answer, and the effect is finished or goes on to wait for the creation
    of a new session. *)
Theorem recovery_settles_idle :
  (forall rnd storage inputs,
      let w := run' (init params rnd storage) (Mount :: inputs) in
      snd (ensureSession params (hk w)) <> AwaitingRecovery
      /\ forall i c, tasks w !! i = Some (Recovering c) -> c = ByMount)
  /\ (forall w i r,
        tasks w !! i = Some (Recovering ByMount) ->
        let w' := step' w (Recovery i r) in
        status (hk w') = idle
        /\ (tasks w' !! i = Some Finished \/ tasks w' !! i = Some (Creating ByMount))).
Proof.
  split.
  - intros rnd storage inputs w. subst w.
    change (run' (init params rnd storage) (Mount :: inputs))
      with (run' (step' (init params rnd storage) Mount) inputs).
    destruct (mounted_run _ inputs (mounted_init rnd storage)) as [L T]. split.
    + now apply latch_closed_ensureSession.
    + intros i c Hl. eapply Forall_lookup_1 in T; [|exact Hl]. now apply T.
  - intros w i r Ht w'. subst w'.
    assert (i < length (tasks w))%nat as Hi by (apply lookup_lt_is_Some; eauto).
    unfold step. cbv zeta. rewrite Ht. unfold ensureSession_recovered.
    destruct (tryRecoverSession r (hk w)) as [h1 v].
    destruct (truthy v); unfold resume, ensureSession_create; destruct h1; cbn;
      rewrite list_lookup_insert_eq by assumption; auto.
Qed.

(** X27: a stored session that the mount effect finds with a history. The
    conversation becomes the welcome message followed by the messages of the
    history, whatever was on screen, and the recovered flag is set; when the
    history yields no message, both stay as they are. The pause of the AI is
    restored when the state of the session says so. The session is taken
    over, the listener is started on it, nothing else is requested, the
    status is [idle] and the effect is finished. *)
Theorem history_restored_on_mount (w : world) (i : nat) (st : Z) (session : value)
    (msgs : list message) :
  tasks w !! i = Some (Recovering ByMount) ->
  truthy session = true ->
  truthy (prop session (jstr "events")) = true ->
  prop (prop session (jstr "events")) (jstr "length") <> VNum 0 ->
  parseEventsToMessages (prop session (jstr "events")) = Ok msgs ->
  let h := hk w in
  let w' := step' w (Recovery i (Response true st (Ok session))) in
  let h' := hk w' in
  messages h' = (match msgs with [] => messages h | _ :: _ => WELCOME_MESSAGE :: msgs end)
  /\ isRecovered h' = (match msgs with [] => isRecovered h | _ :: _ => true end)
  /\ aiPaused h'
     = (if truthy (get_opt (prop session (jstr "state")) (jstr "ai_paused"))
        then VBool true else aiPaused h)
  /\ status h' = idle
  /\ sessionIdRef h' = sessionIdRef h
  /\ sessionCreatedRef h' = true
  /\ listenEventSourceRef h' = Some (sessionIdRef h, userIdRef h)
  /\ requests h' = requests h ++ [Listen (sessionIdRef h) (userIdRef h)]
  /\ tasks w' !! i = Some Finished.
Proof.
  intros Ht Hs He Hl Hp h w' h'. subst h' w' h.
  assert (i < length (tasks w))%nat as Hi by (apply lookup_lt_is_Some; eauto).
  unfold step. cbv zeta. rewrite Ht.
  unfold ensureSession_recovered, tryRecoverSession. rewrite Hs, He, Hp. cbn [negb].
  assert ((match prop (prop session (jstr "events")) (jstr "length") with
           | VNum 0 => true
           | _ => false
           end) = false) as ->.
  { destruct (prop (prop session (jstr "events")) (jstr "length")) as [| | |[]| | |];
      try reflexivity. contradiction. }
  cbv zeta. rewrite Hs. unfold resume. cbn [hk tasks].
  rewrite list_lookup_insert_eq by assumption.
  destruct (truthy (get_opt (prop session (jstr "state")) (jstr "ai_paused")));
    destruct msgs, (hk w); cbn; auto 10.
Qed.

End Mounted.

(** The mount effect on a page that stored a session since expired. *)
Lemma recovery_settles_idle_witness :
  let w := stale_page [Mount] in
  status (hk (step [] (parse_table []) (fun _ => 0) (fun _ => []) w (Recovery 0 not_found)))
  = idle.
Proof.
  intros w.
  refine (proj1 (proj2 (recovery_settles_idle [] (parse_table []) (fun _ => 0)
                          (fun _ => [])) w 0%nat not_found _)).
  reflexivity.
Defined.

(** The mount effect on a page whose stored session has a history and is
    paused. *)
Lemma history_restored_on_mount_witness :
  let w := stale_page [Mount] in
  let w' := step [] (parse_table []) (fun _ => 0) (fun _ => []) w
              (Recovery 0 (Response true 200 (Ok past_session))) in
  map role (messages (hk w')) = [system; user; agent; agent]
  /\ aiPaused (hk w') = VBool true
  /\ tasks w' !! 0%nat = Some Finished.
Proof.
  intros w w'.
  pose proof (history_restored_on_mount [] (parse_table []) (fun _ => 0) (fun _ => [])
                w 0 200 past_session
                [Message user (VStr (jstr "Do you deliver?")) (VStr (jstr "user"))
                         VUndef None None None;
                 Message agent (VStr (jstr "Yes, within 30 miles."))
                         (VStr (jstr "faq_agent")) VUndef None None None;
                 Message agent (VStr (jstr "Sam here.")) (VStr (jstr "human_agent"))
                         VUndef None None None]) as H.
  destruct H as (Hm & _ & Ha & _ & _ & _ & _ & _ & Hk);
    [reflexivity | reflexivity | reflexivity | discriminate | vm_compute; reflexivity|].
  fold w' in Hm, Ha, Hk. split; [|split; [exact Ha | exact Hk]].
  rewrite Hm. reflexivity.
Defined.
